(** * Legal knowledge-graph pipeline and hybrid retrieval engine

    A shallow embedding of the parts of the repository that the
    specification talks about:

    - [Graph_RAG_new.py]: [_trim], the citation formatting of
      [fetch_kg_context_for_sections] and the fallback cascade of
      [Graph_RAG_new_tool];
    - [Search.py]: [rrf_fuse];
    - [Indexing.py]: the document text built by [index_sections_into_chroma];
    - [src/02_parse_structure.py]: the segmenter [process_act];
    - [src/04_enrich_llm_hybrid.py]: [call_llm_batch] and [merge_semantics];
    - [src/06_enrich_graph.py]: [add_role_cooccurrence] and
      [add_severity_scores].

    Python [str] is modelled by [string], one character per code point
    below 256; Python [int] by [Z]; [None] by [option]; a [dict] whose
    order is irrelevant by a [gmap], one whose insertion order is observed
    by an association list. *)

From Stdlib Require Import ZArith QArith Ascii String List Bool Lia.
From Stdlib Require Import DecimalString.
From stdpp Require Import gmap strings list sorting.

Local Open Scope string_scope.
Local Open Scope Z_scope.

(** ** Python strings *)

Module PyStr.

(** [str.isspace] restricted to code points below 256. *)
Definition is_space (c : ascii) : bool :=
  let n := nat_of_ascii c in
  ((9 <=? n)%nat && (n <=? 13)%nat) || ((28 <=? n)%nat && (n <=? 32)%nat)
  || (n =? 133)%nat || (n =? 160)%nat.

Fixpoint lstrip (s : string) : string :=
  match s with
  | EmptyString => EmptyString
  | String c s' => if is_space c then lstrip s' else s
  end.

Fixpoint rstrip (s : string) : string :=
  match s with
  | EmptyString => EmptyString
  | String c s' =>
      match rstrip s' with
      | EmptyString => if is_space c then EmptyString else String c EmptyString
      | r => String c r
      end
  end.

(** [s.strip()] *)
Definition strip (s : string) : string := rstrip (lstrip s).

(** [len(s)] *)
Definition len (s : string) : Z := Z.of_nat (String.length s).

Fixpoint take (n : nat) (s : string) : string :=
  match n, s with
  | O, _ => EmptyString
  | S _, EmptyString => EmptyString
  | S n', String c s' => String c (take n' s')
  end.

(** [s[:n]]: a negative bound counts from the end. *)
Definition slice_to (s : string) (n : Z) : string :=
  if n <? 0 then take (Z.to_nat (len s + n)) s else take (Z.to_nat n) s.

(** [s.lower()] on code points below 256. *)
Definition lower_char (c : ascii) : ascii :=
  let n := nat_of_ascii c in
  if ((65 <=? n)%nat && (n <=? 90)%nat)
     || ((192 <=? n)%nat && (n <=? 222)%nat && negb (n =? 215)%nat)
  then ascii_of_nat (n + 32) else c.

Fixpoint lower (s : string) : string :=
  match s with
  | EmptyString => EmptyString
  | String c s' => String (lower_char c) (lower s')
  end.

(** [sep.join(parts)] *)
Fixpoint join (sep : string) (parts : list string) : string :=
  match parts with
  | [] => EmptyString
  | [p] => p
  | p :: ps => p ++ sep ++ join sep ps
  end.

(** [str(n)] for an [int]. *)
Definition of_int (n : Z) : string := NilZero.string_of_int (Z.to_int n).

End PyStr.

(** ** Python values stored as node properties *)

Inductive prop : Type :=
  | PStr (s : string)
  | PInt (n : Z)
  | PBool (b : bool).

(** A graph node as the driver hands it over: a mapping from property
    names to values; a missing property reads as [None]. *)
Abbreviation node := (gmap string prop).

(** Truthiness of [x] in [if x] and [x or y], [None] included. *)
Definition truthy (v : option prop) : bool :=
  match v with
  | None => false
  | Some (PStr s) => negb (String.eqb s EmptyString)
  | Some (PInt n) => negb (n =? 0)
  | Some (PBool b) => b
  end.

(** [a or b] *)
Definition py_or (a b : option prop) : option prop :=
  if truthy a then a else b.

(** What an f-string prints for a value. *)
Definition fmt (v : option prop) : string :=
  match v with
  | None => "None"
  | Some (PStr s) => s
  | Some (PInt n) => PyStr.of_int n
  | Some (PBool true) => "True"
  | Some (PBool false) => "False"
  end.

(** Truthiness of a [str | None]. *)
Definition truthy_str (s : option string) : bool :=
  match s with
  | None => false
  | Some s => negb (String.eqb s EmptyString)
  end.

(** [not xs] for a list. *)
Definition is_empty {A} (l : list A) : bool :=
  match l with [] => true | _ => false end.

(** ** [Search.py]: reciprocal rank fusion *)

Module Search.

(** [xs[:n]] on a list: a negative bound counts from the end. *)
Definition list_slice_to {A} (xs : list A) (n : Z) : list A :=
  if n <? 0 then take (Z.to_nat (Z.of_nat (length xs) + n)) xs
  else take (Z.to_nat n) xs.

(** [p] stands before [q] in [l]. *)
Inductive precedes {A} : list A -> A -> A -> Prop :=
  | precedes_here x l q : q ∈ l -> precedes (x :: l) x q
  | precedes_later y l p q : precedes l p q -> precedes (y :: l) p q.

(** The ids of a list of hits, each kept at its first occurrence. *)
Fixpoint first_seen (ids : list Z) : list Z :=
  match ids with
  | [] => []
  | x :: rest => x :: filter (fun y => y ≠ x) (first_seen rest)
  end.

Section RRF.
(** The arithmetic of the scores is Python's [float]; the development
    is carried out over any type with the four operations the function
    uses, so that it holds for binary64 and for exact rationals alike. *)
Context {T : Type}.
Variable zero : T.               (* [0.0], the default of [defaultdict(float)] *)
Variable add : T -> T -> T.      (* [+] *)
Variable recip : Z -> T.         (* [1.0 / n], for [n] other than 0 *)
Variable ltb : T -> T -> bool.   (* [<] *)

(** A search result: a dict with keys ["sid"] and ["score"] (the
    ["metadata"] of vector hits is never read here). *)
Record hit : Type := Hit { sid : Z; score : T }.

(** [scores], a dict in insertion order. *)
Definition scores_t : Type := list (Z * T).

Fixpoint score_of (scores : scores_t) (id : Z) : option T :=
  match scores with
  | [] => None
  | (k, v) :: rest => if k =? id then Some v else score_of rest id
  end.

(** [scores[sid] += x] on a [defaultdict(float)]. *)
Fixpoint dict_add (scores : scores_t) (k : Z) (x : T) : scores_t :=
  match scores with
  | [] => [(k, add zero x)]
  | (k', v) :: rest =>
      if k' =? k then (k', add v x) :: rest
      else (k', v) :: dict_add rest k x
  end.

(** [for rank, r in enumerate(results): scores[r["sid"]] += 1.0 / (k_rrf + rank + 1)];
    [None] is the [ZeroDivisionError]. The conversion of the denominator
    to a float is taken to succeed, as it does for every denominator
    below [2 ^ 1023] in absolute value, so for every list at
    [k_rrf = 60]; beyond the range of binary64 Python raises
    [OverflowError], which is not in the model. *)
Fixpoint accumulate (k_rrf rank : Z) (results : list hit) (scores : scores_t)
    : option scores_t :=
  match results with
  | [] => Some scores
  | r :: rest =>
      let d := k_rrf + rank + 1 in
      if d =? 0 then None
      else accumulate k_rrf (rank + 1) rest (dict_add scores (sid r) (recip d))
  end.

(** [sorted(items, key=lambda x: x[1], reverse=True)]: a stable sort
    into descending order, comparing keys with [<] only. *)
Fixpoint insert_desc (x : Z * T) (l : scores_t) : scores_t :=
  match l with
  | [] => [x]
  | y :: l' => if ltb (snd x) (snd y) then y :: insert_desc x l' else x :: l
  end.

Definition sorted_desc (l : scores_t) : scores_t := foldr insert_desc [] l.

Definition rrf_scores (vector_results lexical_results : list hit) (k_rrf : Z)
    : option scores_t :=
  match accumulate k_rrf 0 vector_results [] with
  | None => None
  | Some scores => accumulate k_rrf 0 lexical_results scores
  end.

Definition rrf_fuse (vector_results lexical_results : list hit) (k_rrf top_k : Z)
    : option (list Z) :=
  match rrf_scores vector_results lexical_results k_rrf with
  | None => None
  | Some scores => Some (map fst (list_slice_to (sorted_desc scores) top_k))
  end.

(** The terms an id collects from one ranked list, in the order the
    loop adds them. *)
Fixpoint contribs (k_rrf rank id : Z) (results : list hit) : list T :=
  match results with
  | [] => []
  | r :: rest =>
      (if sid r =? id then [recip (k_rrf + rank + 1)] else [])
      ++ contribs k_rrf (rank + 1) id rest
  end.

(** No entry is followed by one of strictly greater score. *)
Definition descending (l : scores_t) : Prop :=
  forall p q, precedes l p q -> ltb (snd p) (snd q) = false.

(** The 0-based position of [id] in a ranked list. *)
Fixpoint rank_in (id : Z) (results : list hit) : option Z :=
  match results with
  | [] => None
  | r :: rest => if sid r =? id then Some 0 else Z.succ <$> rank_in id rest
  end.

(** The fused score of [id]: one reciprocal per list that contains it,
    added in the order vector list, lexical list, starting from [0.0]. *)
Definition fused_score (k_rrf : Z) (vector_results lexical_results : list hit) (id : Z)
    : option T :=
  match rank_in id vector_results, rank_in id lexical_results with
  | Some i, Some j => Some (add (add zero (recip (k_rrf + i + 1))) (recip (k_rrf + j + 1)))
  | Some i, None => Some (add zero (recip (k_rrf + i + 1)))
  | None, Some j => Some (add zero (recip (k_rrf + j + 1)))
  | None, None => None
  end.

(** The loop without the division check. *)
Fixpoint accumulate_pure (k_rrf rank : Z) (results : list hit) (scores : scores_t)
    : scores_t :=
  match results with
  | [] => scores
  | r :: rest =>
      accumulate_pure k_rrf (rank + 1) rest
        (dict_add scores (sid r) (recip (k_rrf + rank + 1)))
  end.
End RRF.

End Search.

(** ** [Graph_RAG_new.py]: evidence assembly *)

Module GraphRAG.

Definition TRUNCATED : string := " ...[TRUNCATED]...".

(** [_trim(text, max_chars)] *)
Definition _trim (text : option string) (max_chars : Z) : option string :=
  match text with
  | None => None
  | Some text =>
      let text := PyStr.strip text in
      if PyStr.len text <=? max_chars then Some text
      else Some (PyStr.slice_to text max_chars ++ TRUNCATED)
  end.

(** The citation block of [fetch_kg_context_for_sections]: [act] and [s]
    are the Act and Section nodes of one result row. *)
Definition act_title_of (act : node) : option prop :=
  py_or (act !! "title") (act !! "name").

Definition raw_citation_of (s : node) : option prop :=
  py_or (s !! "citation") (s !! "Citation").

Definition formatted_citation (act s : node) : option prop :=
  let act_title := act_title_of act in
  let act_year := act !! "year" in
  let raw_citation := raw_citation_of s in
  if truthy raw_citation && truthy act_title && truthy act_year then
    Some (PStr (fmt raw_citation ++ " of " ++ fmt act_title ++ ", " ++ fmt act_year))
  else if truthy raw_citation && truthy act_title then
    Some (PStr (fmt raw_citation ++ " of " ++ fmt act_title))
  else raw_citation.


(** *** The fallback cascade of [Graph_RAG_new_tool]

    The graph store, the vector index and the answering model are outside
    the function; each call to one of them is recorded in a trace. *)

Inductive event : Type :=
  | EvVectorSearch
  | EvLexicalSearch
  | EvFallback1          (* the exact-locator query *)
  | EvFallback2          (* [smart_semantic_search] *)
  | EvFallback2Expand    (* acts expanded to their sections *)
  | EvFallback3          (* the act-title query *)
  | EvFetchContext
  | EvAnswer.

(** One entry of [smart_semantic_search]: its ["type"] and ["id"]. *)
Inductive sem_type : Type := SemSection | SemAct.

Record sem_result : Type := SemResult { sem_kind : sem_type; sem_id : Z }.

Inductive outcome : Type :=
  | Answer (text : string)
  | NoEvidence           (* the "I could not find any relevant sections" sentence *)
  | Raised.              (* an exception left the function *)

(** A computation that appends to the trace of external calls. *)
Definition M (A : Type) : Type := list event -> A * list event.

Definition ret {A} (a : A) : M A := fun tr => (a, tr).

Definition bind {A B} (m : M A) (k : A -> M B) : M B :=
  fun tr => let (a, tr') := m tr in k a tr'.

Definition call {A} (e : event) (a : A) : M A := fun tr => (a, (tr ++ [e])%list).

Notation "'run' x <- m 'in' k" := (bind m (fun x => k))
  (at level 10, x name, m at level 100, k at level 200).

Section Tool.
Context {T : Type}.
Variable zero : T.
Variable add : T -> T -> T.
Variable recip : Z -> T.
Variable ltb : T -> T -> bool.

(** What the collaborators answer. *)
Record services : Type := Services {
  extract_article_id : string -> option string;
  vector_search_sections : string -> option string -> Z -> list (@Search.hit T);
  fulltext_search_sections : string -> Z -> list (@Search.hit T);
  match_section_id : string -> list Z;
  smart_semantic_search : string -> Z -> list sem_result;
  sections_of_acts : list Z -> list Z;
  sections_of_titled_acts : string -> list Z;
  fetch_kg_context_for_sections : list Z -> string;
  answer : string -> string -> string
}.

Variable svc : services.

Definition fallback1 (query : string) (explicit_article_id : option string)
    (fused_section_ids : list Z) : M (list Z) :=
  if is_empty fused_section_ids && truthy_str explicit_article_id then
    call EvFallback1 (match_section_id svc (default EmptyString explicit_article_id))
  else ret fused_section_ids.

Definition fallback2 (query : string) (fused_section_ids : list Z) : M (list Z) :=
  if is_empty fused_section_ids then
    run sem_results <- call EvFallback2 (smart_semantic_search svc query 50) in
    let sec_ids_from_sem :=
      omap (fun r => match sem_kind r with SemSection => Some (sem_id r) | SemAct => None end)
           sem_results in
    let act_ids :=
      omap (fun r => match sem_kind r with SemAct => Some (sem_id r) | SemSection => None end)
           sem_results in
    run sec_ids_from_sem <-
      (if is_empty act_ids then ret sec_ids_from_sem
       else run rows <- call EvFallback2Expand (sections_of_acts svc act_ids) in
            ret (sec_ids_from_sem ++ rows)%list) in
    if is_empty sec_ids_from_sem then ret fused_section_ids
    else ret (take 10 (Search.first_seen sec_ids_from_sem))
  else ret fused_section_ids.

Definition fallback3 (query : string) (fused_section_ids : list Z) : M (list Z) :=
  if is_empty fused_section_ids then
    call EvFallback3 (sections_of_titled_acts svc query)
  else ret fused_section_ids.

Definition Graph_RAG_new_tool (query : string) : M outcome :=
  let explicit_article_id := extract_article_id svc query in
  run vec_results <-
    call EvVectorSearch (vector_search_sections svc query explicit_article_id 50) in
  run lex_results <- call EvLexicalSearch (fulltext_search_sections svc query 50) in
  match Search.rrf_fuse zero add recip ltb vec_results lex_results 60 10 with
  | None => ret Raised
  | Some fused_section_ids =>
      run fused_section_ids <- fallback1 query explicit_article_id fused_section_ids in
      run fused_section_ids <- fallback2 query fused_section_ids in
      run fused_section_ids <- fallback3 query fused_section_ids in
      if is_empty fused_section_ids then ret NoEvidence
      else
        run graph_context <-
          call EvFetchContext (fetch_kg_context_for_sections svc fused_section_ids) in
        run response <- call EvAnswer (answer svc graph_context query) in
        ret (Answer response)
  end.
End Tool.

End GraphRAG.

(** ** [Indexing.py]: the documents of the sections collection *)

Module Indexing.

Definition nl : string := String (ascii_of_nat 10) EmptyString.

(** The metadata record: a dict whose values may be [None]. *)
Definition metadata : Type := list (string * option prop).

(** One turn of the loop of [index_sections_into_chroma] over a row
    [(sid, a, s)]: the id, the text that is embedded, the metadata. *)
Definition section_body (act sec : node) : string :=
  let act_title := py_or (py_or (act !! "title") (act !! "name")) (Some (PStr EmptyString)) in
  let heading := py_or (sec !! "heading") (Some (PStr EmptyString)) in
  let summary := py_or (sec !! "summary") (Some (PStr EmptyString)) in
  let text := py_or (sec !! "text") (Some (PStr EmptyString)) in
  PyStr.strip
    (fmt act_title ++ nl ++ fmt heading ++ nl ++ nl ++ fmt summary ++ nl ++ nl ++ fmt text).

Definition section_metadata (sid : Z) (act sec : node) : metadata :=
  let article_id := py_or (sec !! "section_id") (sec !! "article_id") in
  [ ("neo4j_id", Some (PInt sid));
    ("act_title", py_or (act !! "title") (act !! "name"));
    ("act_year", act !! "year");
    ("act_number", act !! "act_number");
    ("section_id", article_id);
    ("sectionNo", sec !! "sectionNo");
    ("citation", sec !! "citation");
    ("node_label", Some (PStr "Section")) ].

(** [m.get(key)] on a metadata record. *)
Definition meta_get (m : metadata) (key : string) : option prop :=
  match find (fun kv => String.eqb (fst kv) key) m with
  | Some (_, v) => v
  | None => None
  end.

Record row : Type := Row { row_sid : Z; row_a : node; row_s : node }.

(** The three parallel lists [ids], [texts], [metadatas]. *)
Definition section_documents (records : list row)
    : list string * list string * list metadata :=
  (map (fun rec => PyStr.of_int (row_sid rec)) records,
   map (fun rec => section_body (row_a rec) (row_s rec)) records,
   map (fun rec => section_metadata (row_sid rec) (row_a rec) (row_s rec)) records).

End Indexing.

(** ** [src/02_parse_structure.py]: the segmenter *)

Module Segmenter.

Definition is_digit (c : ascii) : bool :=
  let n := nat_of_ascii c in (48 <=? n)%nat && (n <=? 57)%nat.

Definition is_ascii_letter (c : ascii) : bool :=
  let n := nat_of_ascii c in
  ((65 <=? n)%nat && (n <=? 90)%nat) || ((97 <=? n)%nat && (n <=? 122)%nat).

(** A word character of the regular expressions, on code points below 256. *)
Definition is_word (c : ascii) : bool :=
  let n := nat_of_ascii c in
  is_digit c || is_ascii_letter c || (n =? 95)%nat
  || (n =? 170)%nat || (n =? 178)%nat || (n =? 179)%nat || (n =? 181)%nat
  || (n =? 185)%nat || (n =? 186)%nat || ((188 <=? n)%nat && (n <=? 190)%nat)
  || ((192 <=? n)%nat && (n <=? 214)%nat) || ((216 <=? n)%nat && (n <=? 246)%nat)
  || (248 <=? n)%nat.

Definition is_roman (c : ascii) : bool :=
  match c with
  | "I"%char | "V"%char | "X"%char | "L"%char | "C"%char => true
  | _ => false
  end.

(** The longest prefix of characters satisfying [p], and the rest. *)
Fixpoint span (p : ascii -> bool) (s : string) : string * string :=
  match s with
  | EmptyString => (EmptyString, EmptyString)
  | String c s' =>
      if p c then let (a, b) := span p s' in (String c a, b)
      else (EmptyString, s)
  end.

Fixpoint strip_prefix (p s : string) : option string :=
  match p, s with
  | EmptyString, _ => Some s
  | String a p', String b s' => if Ascii.eqb a b then strip_prefix p' s' else None
  | String _ _, EmptyString => None
  end.

(** The group of a section number, one or more digits and at most one
    ASCII letter, and what follows it. *)
Definition match_number (s : string) : option (string * string) :=
  let (digits, rest) := span is_digit s in
  if String.eqb digits EmptyString then None
  else match rest with
       | String c rest' =>
           if is_ascii_letter c then Some (digits ++ String c EmptyString, rest')
           else Some (digits, rest)
       | EmptyString => Some (digits, rest)
       end.

(** The last group of both section patterns: any characters up to the end
    of the text, where the dot refuses a line feed and the end anchor
    accepts one as the last character. *)
Definition match_to_end (s : string) : option string :=
  let (body, rest) := span (fun c => negb (Ascii.eqb c (ascii_of_nat 10))) s in
  if String.eqb rest EmptyString || String.eqb rest Indexing.nl then Some body else None.

(** The first of [SECTION_PATTERNS]: the word Section, white space, the
    number, an optional full stop, optional white space, the heading. *)
Definition section_pattern_1 (text : string) : option (string * string) :=
  match strip_prefix "Section" text with
  | None => None
  | Some rest =>
      let (ws, rest) := span PyStr.is_space rest in
      if String.eqb ws EmptyString then None
      else match match_number rest with
           | None => None
           | Some (num, rest) =>
               let rest := match rest with
                           | String "."%char rest' => rest'
                           | _ => rest
                           end in
               let (_, rest) := span PyStr.is_space rest in
               match match_to_end rest with
               | None => None
               | Some heading => Some (num, heading)
               end
           end
  end.

(** The second of [SECTION_PATTERNS]: the number, a full stop, white
    space, the heading. *)
Definition section_pattern_2 (text : string) : option (string * string) :=
  match match_number text with
  | None => None
  | Some (num, rest) =>
      match rest with
      | String "."%char rest =>
          let (ws, rest) := span PyStr.is_space rest in
          if String.eqb ws EmptyString then None
          else match match_to_end rest with
               | None => None
               | Some heading => Some (num, heading)
               end
      | _ => None
      end
  end.

(** [detect_section_header]: the first pattern that matches wins. *)
Definition detect_section_header (text : string) : option string * option string :=
  match section_pattern_1 text with
  | Some (num, heading) => (Some num, Some (PyStr.strip heading))
  | None =>
      match section_pattern_2 text with
      | Some (num, heading) => (Some num, Some (PyStr.strip heading))
      | None => (None, None)
      end
  end.

(** [detect_chapter]: the word CHAPTER, white space, a Roman numeral made
    of the letters I, V, X, L, C and ending at a word boundary. *)
Definition detect_chapter (text : string) : option string :=
  match strip_prefix "CHAPTER" text with
  | None => None
  | Some rest =>
      let (ws, rest) := span PyStr.is_space rest in
      if String.eqb ws EmptyString then None
      else
        let (numeral, rest) := span is_roman rest in
        if String.eqb numeral EmptyString then None
        else match rest with
             | String c _ => if is_word c then None else Some numeral
             | EmptyString => Some numeral
             end
  end.

(** A record of the line stream: its ["page"], ["line_index"], ["text"]. *)
Record line : Type := Line { page : Z; line_index : Z; text : string }.

(** The manifest row of the act: ["act_id"], ["year"] and ["seq"], the
    last two already read as integers. *)
Record manifest_row : Type := ManifestRow { act_id : string; year : Z; seq : Z }.

Record hierarchy : Type := Hierarchy {
  h_part : option string;
  h_chapter : option string;
  h_section : string;
  h_subsection : option string;
  h_clause_path : list string
}.

(** One line of the sections file. *)
Record section_record : Type := SectionRecord {
  rec_act_id : string;
  rec_act_year : Z;
  rec_act_seq : Z;
  rec_section_id : string;
  rec_unit_type : string;
  rec_hierarchy : hierarchy;
  rec_citation : string;
  rec_heading : option string;
  rec_text : string;
  rec_pages : list Z;
  rec_raw_lines : list line
}.

(** The variables of [process_act] that the scan updates, and the lines
    written to the output file so far. *)
Record state : Type := State {
  current_chapter : option string;
  current_section : option string;
  current_heading : option string;
  buffer : list line;
  pages : gset Z;
  raw_lines : list line;
  outfile : list section_record
}.

Section Scan.
(** The two detectors; [process_act] below runs the scan with the
    regular expressions of the module. *)
Variable chapter_of : string -> option string.
Variable header_of : string -> option string * option string.
Variable row : manifest_row.

Definition buffer_text (st : state) : string :=
  PyStr.join Indexing.nl (map text (buffer st)).

Definition flush_section (st : state) : state :=
  match current_section st with
  | None => st
  | Some sec =>
      let text := buffer_text st in
      if String.eqb (PyStr.strip text) EmptyString then st
      else
        let record :=
          {| rec_act_id := act_id row;
             rec_act_year := year row;
             rec_act_seq := seq row;
             rec_section_id := act_id row ++ "-sec-" ++ sec;
             rec_unit_type := "section";
             rec_hierarchy :=
               {| h_part := None; h_chapter := current_chapter st; h_section := sec;
                  h_subsection := None; h_clause_path := [] |};
             rec_citation := "Section " ++ sec;
             rec_heading :=
               if truthy_str (current_heading st) then current_heading st else None;
             rec_text := text;
             rec_pages := merge_sort Z.le (elements (pages st));
             rec_raw_lines := raw_lines st |} in
        {| current_chapter := current_chapter st;
           current_section := current_section st;
           current_heading := current_heading st;
           buffer := [];
           pages := ∅;
           raw_lines := [];
           outfile := (outfile st ++ [record])%list |}
  end.

(** The body of the loop over the lines. *)
Definition step (st : state) (rec : line) : state :=
  let t := text rec in
  let chap := chapter_of t in
  if truthy_str chap then
    {| current_chapter := chap;
       current_section := current_section st;
       current_heading := current_heading st;
       buffer := buffer st; pages := pages st; raw_lines := raw_lines st;
       outfile := outfile st |}
  else
    let (sec_num, heading) := header_of t in
    if truthy_str sec_num then
      let st := flush_section st in
      {| current_chapter := current_chapter st;
         current_section := sec_num;
         current_heading := heading;
         buffer := []; pages := ∅; raw_lines := [];
         outfile := outfile st |}
    else
      match current_section st with
      | None => st
      | Some _ =>
          {| current_chapter := current_chapter st;
             current_section := current_section st;
             current_heading := current_heading st;
             buffer := (buffer st ++ [rec])%list;
             pages := {[ page rec ]} ∪ pages st;
             raw_lines :=
               (raw_lines st ++
                [{| page := page rec; line_index := line_index rec; text := text rec |}])%list;
             outfile := outfile st |}
      end.

Definition start (chapter : option string) : state :=
  {| current_chapter := chapter; current_section := None;
     current_heading := Some EmptyString; buffer := []; pages := ∅; raw_lines := [];
     outfile := [] |}.

(** The scan from a given chapter; [process_act] starts from [None]. *)
Definition scan_from (chapter : option string) (lines : list line) : list section_record :=
  outfile (flush_section (fold_left step lines (start chapter))).

Definition scan (lines : list line) : list section_record := scan_from None lines.

(** A line that starts a section: not a chapter header, and a section
    header is detected. *)
Definition starts_section (rec : line) : bool :=
  negb (truthy_str (chapter_of (text rec)))
  && truthy_str (fst (header_of (text rec))).

(** The chapter in force after a run of lines none of which starts a
    section. *)
Definition chapter_after (chapter : option string) (lines : list line) : option string :=
  fold_left (fun ch rec => if truthy_str (chapter_of (text rec))
                           then chapter_of (text rec) else ch) lines chapter.
End Scan.

Definition nonblank (record : section_record) : Prop :=
  PyStr.strip (rec_text record) <> EmptyString.

(** [process_act(row)], from the lines of the input file to the records
    of the output file. *)
Definition process_act (row : manifest_row) (lines : list line) : list section_record :=
  scan detect_chapter detect_section_header row lines.

End Segmenter.

(** ** [src/04_enrich_llm_hybrid.py]: the semantic enrichment batcher *)

Module Enrich.

(** What [json.loads] returns. Numbers are the integers; [None] is
    [JNull]. The fields of an object are listed once each. *)
#[warnings="-register-all"]
Inductive json : Type :=
  | JNull
  | JBool (b : bool)
  | JInt (n : Z)
  | JStr (s : string)
  | JArr (items : list json)
  | JObj (fields : list (string * json)).

Definition jtruthy (j : json) : bool :=
  match j with
  | JNull => false
  | JBool b => b
  | JInt n => negb (n =? 0)
  | JStr s => negb (String.eqb s EmptyString)
  | JArr items => negb (is_empty items)
  | JObj fields => negb (is_empty fields)
  end.

(** [d.get(key)] *)
Fixpoint jget (fields : list (string * json)) (key : string) : json :=
  match fields with
  | [] => JNull
  | (k, v) :: rest => if String.eqb k key then v else jget rest key
  end.

(** [x or []] *)
Definition or_list (j : json) : json := if jtruthy j then j else JArr [].

Definition is_dict (j : json) : bool :=
  match j with JObj _ => true | _ => false end.

(** The values a [for] loop draws from [j]; [None] when [j] is not
    iterable and the loop raises [TypeError]. *)
Definition py_iter (j : json) : option (list json) :=
  match j with
  | JArr items => Some items
  | JStr s => Some (map (fun c => JStr (String c EmptyString)) (list_ascii_of_string s))
  | JObj fields => Some (map (fun kv => JStr (fst kv)) fields)
  | JNull | JBool _ | JInt _ => None
  end.

(** A key of the result dict. [True] and [1] are the same key, and so
    are [False] and [0]; a list or a dict cannot be a key. *)
Abbreviation key := (Z + string)%type.

Definition hash_key (j : json) : option key :=
  match j with
  | JInt n => Some (inl n)
  | JBool b => Some (inl (if b then 1 else 0))
  | JStr s => Some (inr s)
  | JNull | JArr _ | JObj _ => None
  end.

(** The value stored per section index. *)
Record extraction : Type := Extraction {
  roles : json;
  obligations : json;
  powers : json;
  penalties : json;
  rights : json
}.

Record batch_input : Type := BatchInput { section_index : Z; sentences : list string }.

(** What [client.chat.completions.create] does: it raises, or returns a
    message whose [content] is a string or [None]. *)
Inductive reply : Type :=
  | CallFailed
  | Content (text : option string).

Fixpoint enumerate {A} (i : Z) (l : list A) : list (Z * A) :=
  match l with
  | [] => []
  | x :: rest => (i, x) :: enumerate (i + 1) rest
  end.

Definition sections_block (batch_inputs : list batch_input) : string :=
  PyStr.join (Indexing.nl ++ Indexing.nl)
    (map (fun entry =>
            let numbered :=
              PyStr.join Indexing.nl
                (map (fun '(i, s) => PyStr.of_int (i + 1) ++ ". " ++ s)
                     (enumerate 0 (sentences entry))) in
            "SECTION " ++ PyStr.of_int (section_index entry) ++ ":" ++ Indexing.nl ++ numbered)
         batch_inputs).

(** What the loop over the parsed items does with one item: it skips
    what is not a dict or has no ["section_index"], it raises [TypeError]
    on an index that cannot be a key, it stores the five lists otherwise. *)
Inductive item_result : Type :=
  | Skipped
  | Unhashable
  | Stored (k : key) (e : extraction).

Definition read_item (item : json) : item_result :=
  match item with
  | JObj fields =>
      match jget fields "section_index" with
      | JNull => Skipped
      | idx =>
          match hash_key idx with
          | None => Unhashable
          | Some k =>
              Stored k {| roles := or_list (jget fields "roles");
                          obligations := or_list (jget fields "obligations");
                          powers := or_list (jget fields "powers");
                          penalties := or_list (jget fields "penalties");
                          rights := or_list (jget fields "rights") |}
          end
      end
  | _ => Skipped
  end.

(** The loop; [None] is the exception. *)
Fixpoint collect (items : list json) (out : gmap key extraction)
    : option (gmap key extraction) :=
  match items with
  | [] => Some out
  | item :: rest =>
      match read_item item with
      | Skipped => collect rest out
      | Unhashable => None
      | Stored k e => collect rest (<[k := e]> out)
      end
  end.

(** [if not isinstance(parsed, list): parsed = [parsed]] *)
Definition as_items (parsed : json) : list json :=
  match parsed with
  | JArr items => items
  | _ => [parsed]
  end.

(** The entries an item list stores, in order. *)
Definition stored (items : list json) : list (key * extraction) :=
  omap (fun item => match read_item item with
                    | Stored k e => Some (k, e)
                    | _ => None
                    end) items.

(** The shape the prompt asks for: an array with one object per section
    of the batch. *)
Definition one_object_per_section (batch_inputs : list batch_input) (parsed : json) : Prop :=
  exists items,
    parsed = JArr items /\ length items = length batch_inputs
    /\ Forall (fun item => is_dict item = true) items.

(** The shapes of the items of a reply. An item has a
    container for index when it is an object whose ["section_index"] is a
    list or an object; it has no index when it is not an object, or is one
    whose ["section_index"] is missing or null. *)
Definition container_index (item : json) : Prop :=
  exists fields,
    item = JObj fields
    /\ ((exists l, jget fields "section_index" = JArr l)
        \/ exists o, jget fields "section_index" = JObj o).

Definition no_index (item : json) : Prop :=
  forall fields, item = JObj fields -> jget fields "section_index" = JNull.

(** The dict key that an index makes: a number itself, [true] and
    [false] the numbers 1 and 0, a string itself. *)
Definition key_of_index (idx : json) (k : key) : Prop :=
  (exists n, idx = JInt n /\ k = inl n)
  \/ (idx = JBool true /\ k = inl 1)
  \/ (idx = JBool false /\ k = inl 0)
  \/ (exists s, idx = JStr s /\ k = inr s).

(** The five values kept of an object, each one [or []]. *)
Definition lists_of (fields : list (string * json)) : extraction :=
  {| roles := or_list (jget fields "roles");
     obligations := or_list (jget fields "obligations");
     powers := or_list (jget fields "powers");
     penalties := or_list (jget fields "penalties");
     rights := or_list (jget fields "rights") |}.

(** The item is an object with a usable index, and is stored under [k]
    with the value [e]. *)
Definition stores (item : json) (k : key) (e : extraction) : Prop :=
  exists fields,
    item = JObj fields /\ key_of_index (jget fields "section_index") k
    /\ e = lists_of fields.

(** [e] is what the last item stored under [k] says. *)
Definition last_stored (items : list json) (k : key) (e : extraction) : Prop :=
  exists pre item post,
    items = (pre ++ item :: post)%list /\ stores item k e
    /\ forall item' e', item' ∈ post -> ~ stores item' k e'.

Section Batch.
(** [PROMPT_TEMPLATE_BATCH.format], the completion client and
    [json.loads] ([None] when it raises). *)
Variable render_prompt : string -> string.
Variable chat_completion : string -> reply.
Variable json_loads : string -> option json.

Definition call_llm_batch (batch_inputs : list batch_input) : gmap key extraction :=
  if is_empty batch_inputs then ∅
  else
    match chat_completion (render_prompt (sections_block batch_inputs)) with
    | CallFailed => ∅
    | Content None => ∅
    | Content (Some text) =>
        if String.eqb text EmptyString then ∅
        else
          match json_loads text with
          | None => ∅
          | Some parsed =>
              let parsed := match parsed with JArr items => items | _ => [parsed] end in
              match collect parsed ∅ with
              | None => ∅
              | Some out => out
              end
          end
    end.
End Batch.

Definition MODEL : string := "deepseek/deepseek-chat".

(** The order of [sorted] on strings. *)
Definition str_le (a b : string) : Prop := String.leb a b = true.

#[global] Instance str_le_dec : RelDecision str_le.
Proof. intros a b. unfold str_le. apply _. Defined.

(** The fields of a section dict that [merge_semantics] reads or writes. *)
Record section : Type := Section_ {
  sec_roles : list string;
  sec_obligations : list json;
  sec_powers : list json;
  sec_penalties : list json;
  sec_rights : list json;
  llm_used : option bool;
  llm_model : option string
}.

(** [existing_roles.add(r.strip())] for the strings among the new roles. *)
Definition add_roles (existing_roles : gset string) (new_roles : list json) : gset string :=
  foldl (fun acc r => match r with
                      | JStr r => {[ PyStr.strip r ]} ∪ acc
                      | _ => acc
                      end) existing_roles new_roles.

(** [merge_semantics(sec, llm_result)]; [None] when a loop over a value
    that is not iterable raises. *)
Definition merge_semantics (sec : section) (llm_result : extraction) : option section :=
  new_roles ← py_iter (or_list (roles llm_result));
  let existing_roles := add_roles (list_to_set (sec_roles sec)) new_roles in
  new_ob ← py_iter (or_list (obligations llm_result));
  new_po ← py_iter (or_list (powers llm_result));
  new_pe ← py_iter (or_list (penalties llm_result));
  new_ri ← py_iter (or_list (rights llm_result));
  let used :=
    jtruthy (roles llm_result) || jtruthy (obligations llm_result)
    || jtruthy (powers llm_result) || jtruthy (penalties llm_result)
    || jtruthy (rights llm_result) in
  Some {| sec_roles := merge_sort str_le (elements existing_roles);
          sec_obligations := (sec_obligations sec ++ filter (fun v => is_dict v = true) new_ob)%list;
          sec_powers := (sec_powers sec ++ filter (fun v => is_dict v = true) new_po)%list;
          sec_penalties := (sec_penalties sec ++ filter (fun v => is_dict v = true) new_pe)%list;
          sec_rights := (sec_rights sec ++ filter (fun v => is_dict v = true) new_ri)%list;
          llm_used := Some used;
          llm_model := if used then Some MODEL else None |}.

End Enrich.

(** ** [src/06_enrich_graph.py]: co-occurrence counts and severity scores *)

Module GraphEnrich.

(** The part of the property graph the two passes touch. Nodes carry
    their internal id; an edge list holds (source, target) pairs between
    nodes of the labels its relationship type connects. *)
Record graph : Type := Graph {
  node_props : gmap nat node;
  mentions_role : list (nat * nat);        (* Section to Role *)
  prescribes_penalty : list (nat * nat);   (* Section to Penalty *)
  co_occurs_with : gmap (nat * nat) Z      (* [count] of the edge from Role to Role *)
}.

(** The grouping keys of an aggregation over the matched edges. *)
Definition sources (edges : list (nat * nat)) : list nat :=
  remove_dups (map fst edges).

(** [collect(x)] of the targets matched from [s]. *)
Definition targets (edges : list (nat * nat)) (s : nat) : list nat :=
  map snd (filter (fun e => fst e = s) edges).

(** The rows that reach the [MERGE] for one section: the pairs of its
    distinct roles with [id(r1) < id(r2)]. *)
Definition role_pairs (roles : list nat) : list (nat * nat) :=
  r1 ← roles; r2 ← roles; if (r1 <? r2)%nat then [(r1, r2)] else [].

Definition cooccurrence_rows (edges : list (nat * nat)) : list (nat * nat) :=
  s ← sources edges; role_pairs (remove_dups (targets edges s)).

(** [MERGE ... ON CREATE SET c.count = 1 ON MATCH SET c.count = c.count + 1] *)
Definition merge_co_occurs (c : gmap (nat * nat) Z) (pair : nat * nat) : gmap (nat * nat) Z :=
  match c !! pair with
  | None => <[pair := 1]> c
  | Some n => <[pair := n + 1]> c
  end.

Definition add_role_cooccurrence (g : graph) : graph :=
  {| node_props := node_props g;
     mentions_role := mentions_role g;
     prescribes_penalty := prescribes_penalty g;
     co_occurs_with :=
       foldl merge_co_occurs (co_occurs_with g) (cooccurrence_rows (mentions_role g)) |}.

(** [p.key], null when the node or the property is missing. *)
Definition read (g : graph) (n : nat) (key : string) : option prop :=
  node_props g !! n ≫= fun props => props !! key.

(** The test of the query: the value is not null and is not the empty string. *)
Definition present (v : option prop) : bool :=
  match v with
  | None => false
  | Some (PStr s) => negb (String.eqb s EmptyString)
  | Some _ => true
  end.

Definition penalty_weight (g : graph) (p : nat) : Z :=
  (if present (read g p "imprisonment") then 2 else 0)
  + (if present (read g p "fine_amount") then 1 else 0).

Fixpoint sum_Z (l : list Z) : Z :=
  match l with
  | [] => 0
  | x :: rest => x + sum_Z rest
  end.

(** [baseScore + numPens] for the penalties collected from [s]. *)
Definition severity (g : graph) (s : nat) : Z :=
  let pens := targets (prescribes_penalty g) s in
  sum_Z (map (penalty_weight g) pens) + Z.of_nat (length pens).

(** [SET n.key = v] *)
Definition set_prop (props : gmap nat node) (n : nat) (key : string) (v : prop)
    : gmap nat node :=
  <[n := <[key := v]> (default ∅ (props !! n))]> props.

Definition add_severity_scores (g : graph) : graph :=
  {| node_props :=
       foldl (fun props s => set_prop props s "severity_score" (PInt (severity g s)))
             (node_props g) (sources (prescribes_penalty g));
     mentions_role := mentions_role g;
     prescribes_penalty := prescribes_penalty g;
     co_occurs_with := co_occurs_with g |}.

(** The number of distinct sections that mention both roles. *)
Definition co_mentions (edges : list (nat * nat)) (r1 r2 : nat) : nat :=
  length (filter (fun s => (s, r1) ∈ edges ∧ (s, r2) ∈ edges) (sources edges)).

End GraphEnrich.

(** ** The score arithmetic over exact rationals *)

Module RationalScores.

Definition zero : Q := 0%Q.

Definition recip (n : Z) : Q := (1 / inject_Z n)%Q.

Definition ltb (a b : Q) : bool :=
  match (a ?= b)%Q with Lt => true | _ => false end.

Definition hit_of (id : Z) : @Search.hit Q := Search.Hit id 0%Q.

Definition fuse := @Search.rrf_fuse Q zero Qplus recip ltb.

Definition vector_ranks : list (@Search.hit Q) := map hit_of [1; 2; 3].

Definition lexical_ranks : list (@Search.hit Q) := map hit_of [2; 1; 4].

Definition scores := @Search.rrf_scores Q zero Qplus recip.

End RationalScores.

(** ** Concrete inputs *)

Module Scenarios.

(** A manifest row and a few lines of an act. *)
Definition act_row : Segmenter.manifest_row := Segmenter.ManifestRow "1851_1" 1851 1.

Definition title_line : Segmenter.line := Segmenter.Line 1 0 "THE EXAMPLE ACT".

Definition chapter_line : Segmenter.line := Segmenter.Line 1 1 "CHAPTER I".

Definition section_lines : list Segmenter.line :=
  [Segmenter.Line 1 2 "1. Short title";
   Segmenter.Line 1 3 "This Act may be called the Example Act."].

(** A batch of two sections, and a reply that is a single object rather
    than an array. *)
Definition batch : list Enrich.batch_input :=
  [Enrich.BatchInput 0 ["The keeper shall give notice."];
   Enrich.BatchInput 1 ["Whoever fails shall be punishable."]].

Definition lone_object : Enrich.json :=
  Enrich.JObj [("section_index", Enrich.JInt 0);
               ("roles", Enrich.JArr [Enrich.JStr "keeper of a sarai"])].

Definition chat_completion (prompt : string) : Enrich.reply :=
  Enrich.Content (Some "reply").

Definition json_loads (text : string) : option Enrich.json := Some lone_object.

Definition render_prompt (sections_block : string) : string := sections_block.

(** A section that has a role already, and an extraction that names it in
    another letter case. *)
Definition magistrate_section : Enrich.section :=
  Enrich.Section_ ["Magistrate"] [] [] [] [] None None.

Definition magistrate_result : Enrich.extraction :=
  Enrich.Extraction (Enrich.JArr [Enrich.JStr "magistrate"]) (Enrich.JArr [])
    (Enrich.JArr []) (Enrich.JArr []) (Enrich.JArr []).

(** One section (node 0) that mentions two roles (nodes 1 and 2). *)
Definition pair_graph : GraphEnrich.graph :=
  GraphEnrich.Graph ∅ [(0, 1); (0, 2)]%nat [] ∅.

(** One section (node 0) with two penalties: node 10 has a term of
    imprisonment and a fine, node 11 has an empty term and no fine. *)
Definition penal_graph : GraphEnrich.graph :=
  GraphEnrich.Graph
    (<[10%nat := <["imprisonment" := PStr "2 years"]> (<["fine_amount" := PStr "500"]> ∅)]>
       (<[11%nat := <["imprisonment" := PStr EmptyString]> ∅]> ∅))
    [] [(0, 10); (0, 11)]%nat ∅.

(** Collaborators of the retrieval tool for a query that names a section
    and for which the vector search finds one section. *)
Definition demo_services : @GraphRAG.services Q :=
  {| GraphRAG.extract_article_id := fun _ => Some "10";
     GraphRAG.vector_search_sections := fun _ _ _ => [Search.Hit 7 (1 # 4)];
     GraphRAG.fulltext_search_sections := fun _ _ => [];
     GraphRAG.match_section_id := fun _ => [8];
     GraphRAG.smart_semantic_search := fun _ _ => [];
     GraphRAG.sections_of_acts := fun _ => [];
     GraphRAG.sections_of_titled_acts := fun _ => [];
     GraphRAG.fetch_kg_context_for_sections := fun _ => "[]";
     GraphRAG.answer := fun _ _ => "answer" |}.

(** Two rows of the same act and text under different identifiers. *)
Definition row_112 : Indexing.row :=
  Indexing.Row 41 (<["title" := PStr "THE EXAMPLE ACT"]> ∅)
    (<["heading" := PStr "Penalty"]>
       (<["text" := PStr "Whoever fails shall be punishable."]>
          (<["section_id" := PStr "112"]>
             (<["sectionNo" := PStr "112"]> (<["citation" := PStr "Section 112"]> ∅))))).

Definition row_113 : Indexing.row :=
  Indexing.Row 42 (<["title" := PStr "THE EXAMPLE ACT"]> ∅)
    (<["heading" := PStr "Penalty"]>
       (<["text" := PStr "Whoever fails shall be punishable."]>
          (<["section_id" := PStr "113"]>
             (<["sectionNo" := PStr "113"]> (<["citation" := PStr "Section 113"]> ∅))))).

End Scenarios.

(** ** [Search.py]: the range of the scores *)

Module SearchSpec.

(** [1.0 / (k_rrf + rank + 1)] turns its denominator into a float first,
    and Python raises [OverflowError] for an integer that binary64 cannot
    hold. [Search.accumulate] has the division as a total function, so it
    stands for the code where every denominator of a list of [results]
    elements is below [2 ^ 1023] in absolute value, which binary64 holds:
    at [k_rrf = 60] that is every list Python can build. *)
Definition float_safe (k_rrf : Z) (results : nat) : Prop :=
  Z.abs k_rrf + Z.of_nat results < 2 ^ 1023.

End SearchSpec.

(** ** [Search.py]: the explicit locator of a query *)

Module Locator.

(** The strings of the model hold the code points below 256, and the
    pattern is modelled on them: there a digit of the pattern is one of 0
    to 9, and a character of its letter class, case ignored, is an ASCII
    letter or the hyphen. A Python string with a code point from 256 on
    (another decimal digit, or one of the few letters whose case variant is
    an ASCII letter) is outside the model. A query is given by its code
    points. *)
Definition latin1 (query : list N) : Prop := Forall (fun c => (c < 256)%N) query.

Definition of_code_points (query : list N) : string :=
  string_of_list_ascii (map ascii_of_N query).

Definition code_points (s : string) : list N :=
  map N_of_ascii (list_ascii_of_string s).

(** [c.lower()] and [c.upper()] on the ASCII letters. *)
Definition ascii_lower (c : ascii) : ascii :=
  let n := nat_of_ascii c in
  if (65 <=? n)%nat && (n <=? 90)%nat then ascii_of_nat (n + 32) else c.

Definition ascii_upper (c : ascii) : ascii :=
  let n := nat_of_ascii c in
  if (97 <=? n)%nat && (n <=? 122)%nat then ascii_of_nat (n - 32) else c.

Fixpoint str_map (f : ascii -> ascii) (s : string) : string :=
  match s with
  | EmptyString => EmptyString
  | String c s' => String (f c) (str_map f s')
  end.

Fixpoint str_forall (p : ascii -> bool) (s : string) : bool :=
  match s with
  | EmptyString => true
  | String c s' => p c && str_forall p s'
  end.

(** A literal of ASCII letters matched without regard to case. *)
Fixpoint strip_prefix_ci (p s : string) : option string :=
  match p, s with
  | EmptyString, _ => Some s
  | String a p', String b s' =>
      if Ascii.eqb (ascii_lower a) (ascii_lower b) then strip_prefix_ci p' s' else None
  | String _ _, EmptyString => None
  end.

(** The characters of the suffix class of [ARTICLE_REGEX] under the
    ignore-case flag: the ASCII letters and the hyphen. *)
Definition is_suffix_char (c : ascii) : bool :=
  Segmenter.is_ascii_letter c || Ascii.eqb c "-"%char.

(** [ARTICLE_REGEX] tried at the start of [s]: the word article or
    section, white space, digits, then letters and hyphens; the value is
    group 2. *)
Definition match_locator (s : string) : option string :=
  let after_word :=
    match strip_prefix_ci "article" s with
    | Some rest => Some rest
    | None => strip_prefix_ci "section" s
    end in
  match after_word with
  | None => None
  | Some rest =>
      let (ws, rest) := Segmenter.span PyStr.is_space rest in
      if String.eqb ws EmptyString then None
      else
        let (digits, rest) := Segmenter.span Segmenter.is_digit rest in
        if String.eqb digits EmptyString then None
        else
          let (suffix, _) := Segmenter.span is_suffix_char rest in
          Some (digits ++ suffix)
  end.

(** [ARTICLE_REGEX.search]: the leftmost position at a word boundary
    where the pattern matches; [prev_word] tells whether the character
    before the position is a word character. *)
Fixpoint search_locator (prev_word : bool) (s : string) : option string :=
  match s with
  | EmptyString => None
  | String c s' =>
      match (if prev_word then None else match_locator s) with
      | Some group => Some group
      | None => search_locator (Segmenter.is_word c) s'
      end
  end.

(** [extract_article_id(query)] *)
Definition extract_article_id (query : string) : option string :=
  match search_locator false query with
  | None => None
  | Some group => Some (str_map ascii_upper group)
  end.

(** The characters of a locator: digits, capital ASCII letters and the
    hyphen. *)
Definition is_locator_char (c : ascii) : bool :=
  let n := nat_of_ascii c in
  Segmenter.is_digit c || ((65 <=? n)%nat && (n <=? 90)%nat) || Ascii.eqb c "-"%char.

End Locator.

(** ** [src/01_extract_lines.py]: line normalisation *)

Module Lines.

(** [s.replace(old, new)] for single characters. *)
Fixpoint replace_char (old new : ascii) (s : string) : string :=
  match s with
  | EmptyString => EmptyString
  | String c s' =>
      String (if Ascii.eqb c old then new else c) (replace_char old new s')
  end.

(** The scan behind [s.split()]: the word that runs up to the first white
    space of [s], and the words after it. *)
Fixpoint split_ws (s : string) : string * list string :=
  match s with
  | EmptyString => (EmptyString, [])
  | String c s' =>
      let (w, ws) := split_ws s' in
      if PyStr.is_space c
      then (EmptyString, if String.eqb w EmptyString then ws else w :: ws)
      else (String c w, ws)
  end.

(** [s.split()]: the maximal runs of characters that are not white
    space. *)
Definition words (s : string) : list string :=
  let (w, ws) := split_ws s in
  if String.eqb w EmptyString then ws else w :: ws.

(** [normalize_line(s)] *)
Definition normalize_line (s : string) : string :=
  let s := replace_char (ascii_of_nat 9) " "%char s in
  let s := PyStr.join " " (words s) in
  PyStr.strip s.

(** The lines of one page that [process_pdf] writes: the normalised text
    of every raw line whose normalised text is not empty, with the index
    of the raw line. *)
Fixpoint page_lines (page li : Z) (raw : list string) : list Segmenter.line :=
  match raw with
  | [] => []
  | r :: rest =>
      let norm := normalize_line r in
      if String.eqb norm EmptyString then page_lines page (li + 1) rest
      else Segmenter.Line page li norm :: page_lines page (li + 1) rest
  end.

(** A word: not empty, and without a white space character. *)
Definition is_token (w : string) : Prop :=
  w <> EmptyString
  /\ Locator.str_forall (fun c => negb (PyStr.is_space c)) w = true.

End Lines.

(** ** Loops over slices of a list *)

Module Batches.

(** The slices [xs[i:i+step]] for [i in range(0, len(xs), step)], cut
    with at most [fuel] turns. *)
Fixpoint chunks {A} (fuel step : nat) (xs : list A) : list (list A) :=
  match fuel with
  | O => []
  | S fuel' =>
      match xs with
      | [] => []
      | _ => take step xs :: chunks fuel' step (drop step xs)
      end
  end.

(** The batches of [for i in range(0, len(xs), step): xs[i:i+step]];
    [None] is the [ValueError] of a zero step, and a negative step gives
    an empty range. *)
Definition batches {A} (xs : list A) (step : Z) : option (list (list A)) :=
  if step =? 0 then None
  else if step <? 0 then Some []
  else Some (chunks (length xs) (Z.to_nat step) xs).

End Batches.

(** ** [src/04_enrich_llm_hybrid.py]: candidate sentences and the act loop *)

Module Candidates.

Definition is_terminator (c : ascii) : bool :=
  match c with
  | "."%char | "?"%char | "!"%char => true
  | _ => false
  end.

(** [SENTENCE_SPLIT_RE.split(text)], where a separator is a run of white
    space that follows a full stop, a question mark or an exclamation
    mark. The scan returns the piece in progress and the pieces after it;
    [after_terminator] tells whether the previous character ends a
    sentence, [in_separator] whether a separator is being skipped. *)
Fixpoint split_scan (s : string) (after_terminator in_separator : bool)
    : string * list string :=
  match s with
  | EmptyString => (EmptyString, [])
  | String c s' =>
      if in_separator && PyStr.is_space c then split_scan s' false true
      else if after_terminator && PyStr.is_space c then
        let (piece, rest) := split_scan s' false true in
        (EmptyString, piece :: rest)
      else
        let (piece, rest) := split_scan s' (is_terminator c) false in
        (String c piece, rest)
  end.

Definition split_sentences (text : string) : list string :=
  let (piece, rest) := split_scan text false false in piece :: rest.

(** [needle in hay] *)
Fixpoint contains (needle hay : string) : bool :=
  String.prefix needle hay
  || match hay with
     | EmptyString => false
     | String _ hay' => contains needle hay'
     end.

Definition KEYWORDS : list string :=
  [" shall "; " shall be bound "; " may "; " punishable "; " liable ";
   " offence "; " offense "].

(** [any(k in ls for k in KEYWORDS)] for [ls = " " + s.lower() + " "] *)
Definition has_keyword (s : string) : bool :=
  existsb (fun k => contains k (" " ++ PyStr.lower s ++ " ")) KEYWORDS.

(** The loop of [find_candidate_sentences], with the candidates found so
    far in [cand]. *)
Fixpoint collect_candidates (sentences : list string) (max_sentences : Z)
    (cand : list string) : list string :=
  match sentences with
  | [] => cand
  | s :: rest =>
      let cand :=
        if has_keyword s then
          let s_clean := PyStr.strip s in
          if String.eqb s_clean EmptyString then cand else (cand ++ [s_clean])%list
        else cand in
      if Z.of_nat (length cand) >=? max_sentences then cand
      else collect_candidates rest max_sentences cand
  end.

(** [find_candidate_sentences(text, max_sentences)] *)
Definition find_candidate_sentences (text : string) (max_sentences : Z) : list string :=
  collect_candidates (split_sentences text) max_sentences [].

(** What one sentence adds to the candidates: itself without the white
    space around it, when it holds a keyword and is not blank. *)
Definition candidate_of (s : string) : option string :=
  if has_keyword s && negb (String.eqb (PyStr.strip s) EmptyString)
  then Some (PyStr.strip s) else None.

Definition BATCH_SIZE : Z := 5.

(** A section of the enriched file: its ["text"] and the fields that the
    merge reads or writes. *)
Record act_section : Type := ActSection {
  sec_text : string;
  sec_fields : Enrich.section
}.

Definition mark_no_llm (sec : act_section) : act_section :=
  {| sec_text := sec_text sec;
     sec_fields :=
       {| Enrich.sec_roles := Enrich.sec_roles (sec_fields sec);
          Enrich.sec_obligations := Enrich.sec_obligations (sec_fields sec);
          Enrich.sec_powers := Enrich.sec_powers (sec_fields sec);
          Enrich.sec_penalties := Enrich.sec_penalties (sec_fields sec);
          Enrich.sec_rights := Enrich.sec_rights (sec_fields sec);
          Enrich.llm_used := Some false;
          Enrich.llm_model := None |} |}.

(** The first loop of [process_act]: the LLM inputs, and the sections
    with those that have no candidate marked. *)
Fixpoint build_inputs (idx : Z) (sections : list act_section)
    : list Enrich.batch_input * list act_section :=
  match sections with
  | [] => ([], [])
  | sec :: rest =>
      let (inputs, marked) := build_inputs (idx + 1) rest in
      let candidates := find_candidate_sentences (sec_text sec) 8 in
      if is_empty candidates then (inputs, mark_no_llm sec :: marked)
      else (Enrich.BatchInput idx candidates :: inputs, sec :: marked)
  end.

(** [results_by_index.update(batch_result)] over the batches. *)
Definition gather (call : list Enrich.batch_input -> gmap Enrich.key Enrich.extraction)
    (batches : list (list Enrich.batch_input)) : gmap Enrich.key Enrich.extraction :=
  foldl (fun results batch => call batch ∪ results) ∅ batches.

(** The last loop: merge where the index has a result; [None] when a
    merge raises. *)
Fixpoint merge_back (idx : Z) (results : gmap Enrich.key Enrich.extraction)
    (sections : list act_section) : option (list act_section) :=
  match sections with
  | [] => Some []
  | sec :: rest =>
      sec' ← match results !! (inl idx : Enrich.key) with
             | Some llm_result =>
                 fields ← Enrich.merge_semantics (sec_fields sec) llm_result;
                 Some {| sec_text := sec_text sec; sec_fields := fields |}
             | None => Some sec
             end;
      rest' ← merge_back (idx + 1) results rest;
      Some (sec' :: rest')
  end.

(** [process_act] between reading the enriched file and writing the
    KG-ready file; [call] is [call_llm_batch]. *)
Definition process_sections
    (call : list Enrich.batch_input -> gmap Enrich.key Enrich.extraction)
    (sections : list act_section) : option (list act_section) :=
  let (llm_inputs, sections) := build_inputs 0 sections in
  match Batches.batches llm_inputs BATCH_SIZE with
  | None => None
  | Some batches => merge_back 0 (gather call batches) sections
  end.

(** What the act loop does to a section that gets no result. *)
Definition without_llm (sec : act_section) : act_section :=
  if is_empty (find_candidate_sentences (sec_text sec) 8) then mark_no_llm sec else sec.

(** [sec'] has the text of [sec], all its roles, and its four lists as
    they were, with more at the end at most. *)
Definition extends (sec sec' : act_section) : Prop :=
  sec_text sec' = sec_text sec
  /\ (forall r, r ∈ Enrich.sec_roles (sec_fields sec) -> r ∈ Enrich.sec_roles (sec_fields sec'))
  /\ Enrich.sec_obligations (sec_fields sec) `prefix_of` Enrich.sec_obligations (sec_fields sec')
  /\ Enrich.sec_powers (sec_fields sec) `prefix_of` Enrich.sec_powers (sec_fields sec')
  /\ Enrich.sec_penalties (sec_fields sec) `prefix_of` Enrich.sec_penalties (sec_fields sec')
  /\ Enrich.sec_rights (sec_fields sec) `prefix_of` Enrich.sec_rights (sec_fields sec').

End Candidates.

(** ** [src/06_enrich_graph.py]: citations and same-term links *)

Module Citations.
Import Enrich.

(** A citation dict as [iter_citations_from_section] yields it: with a
    ["target_section_id"], or with a ["target_act_id"] and a
    ["target_section_no"]. The source id and, where the act id of the
    section is passed on, the target act id are the values found in the
    section. *)
Inductive citation : Type :=
  | ById (source_section_id : json) (target_section_id : string)
  | ByActNo (source_section_id : json) (target_act_id : json) (target_section_no : string).

Definition source_of (cit : citation) : json :=
  match cit with
  | ById source _ => source
  | ByActNo source _ _ => source
  end.

(** [a or b] *)
Definition jor (a b : json) : json := if jtruthy a then a else b.

(** [text.split(":", 1)] when [":" in text]. *)
Fixpoint split_colon (s : string) : option (string * string) :=
  match s with
  | EmptyString => None
  | String c s' =>
      if Ascii.eqb c ":"%char then Some (EmptyString, s')
      else match split_colon s' with
           | Some (a, b) => Some (String c a, b)
           | None => None
           end
  end.

Section Iter.
(** [str(x)] of a list or a dict, which is not modelled. *)
Variable container_str : json -> string.

Definition py_str (j : json) : string :=
  match j with
  | JNull => "None"
  | JBool true => "True"
  | JBool false => "False"
  | JInt n => PyStr.of_int n
  | JStr s => s
  | JArr _ | JObj _ => container_str j
  end.

(** One turn of the loop over the citations; [None] when nothing is
    yielded. *)
Definition citation_of (source act_id : json) (c : json) : option citation :=
  match c with
  | JStr c =>
      let text := PyStr.strip c in
      if String.eqb text EmptyString then None
      else match split_colon text with
           | Some (t_act, t_sec) =>
               Some (ByActNo source (JStr (PyStr.strip t_act)) (PyStr.strip t_sec))
           | None => Some (ByActNo source act_id text)
           end
  | JObj c =>
      let t_sec_id :=
        jor (jor (jget c "target_section_id") (jget c "section_id"))
            (jget c "target_section") in
      let t_act_id :=
        jor (jor (jor (jget c "target_act_id") (jget c "act_id")) (jget c "target_act"))
            (jget c "act") in
      let t_sec_no :=
        jor (jor (jget c "target_section_no") (jget c "section_no")) (jget c "section") in
      if jtruthy t_sec_id then Some (ById source (PyStr.strip (py_str t_sec_id)))
      else if jtruthy t_act_id && jtruthy t_sec_no then
        Some (ByActNo source (JStr (PyStr.strip (py_str t_act_id)))
                (PyStr.strip (py_str t_sec_no)))
      else if jtruthy t_sec_no && jtruthy act_id then
        Some (ByActNo source act_id (PyStr.strip (py_str t_sec_no)))
      else None
  | _ => None
  end.

(** [list(iter_citations_from_section(sec))] *)
Definition iter_citations_from_section (sec : list (string * json)) : list citation :=
  let source_section_id := jget sec "section_id" in
  if negb (jtruthy source_section_id) then []
  else
    let act_id := jget sec "act_id" in
    let citations :=
      jor (jor (jor (jor (jget sec "citations") (jget sec "references"))
                    (jget sec "cross_refs"))
               (jget sec "cross_references"))
          (JArr []) in
    match citations with
    | JArr cs => omap (citation_of source_section_id act_id) cs
    | _ => []
    end.
End Iter.

(** The target section of a citation, by id or by number. *)
Definition target_of (cit : citation) : string :=
  match cit with
  | ById _ target => target
  | ByActNo _ _ target => target
  end.

(** A citation as [enrich] of [03_enrich_rule_based.py] writes it: a dict
    with the keys ["kind"], ["raw"] and ["normalized"]. *)
Definition rule_based_citation (kind raw : string) (normalized : json) : json :=
  JObj [("kind", JStr kind); ("raw", JStr raw); ("normalized", normalized)].

Definition is_rule_based_citation (c : json) : Prop :=
  exists kind raw normalized, c = rule_based_citation kind raw normalized.

End Citations.

Module TermLinks.

(** A [DefinedTerm] node: its internal id and its [name], if set. *)
Record term : Type := Term { term_id : nat; term_name : option string }.

(** [toLower(t.name)], null for a null name. *)
Definition name_key (t : term) : option string :=
  PyStr.lower <$> term_name t.

(** The rows that reach the [MERGE]: for every key, the pairs of its
    group in the order of their ids, when the group has more than one
    term. *)
Definition group_rows (group : list term) : list (nat * nat) :=
  if (1 <? length group)%nat then
    t1 ← group; t2 ← group;
    if (term_id t1 <? term_id t2)%nat then [(term_id t1, term_id t2)] else []
  else [].

Definition same_term_rows (terms : list term) : list (nat * nat) :=
  key ← remove_dups (map name_key terms);
  group_rows (filter (fun t => name_key t = key) terms).

(** [add_same_term_as] on the set of [SAME_TERM_AS] edges. *)
Definition add_same_term_as (terms : list term) (edges : gset (nat * nat))
    : gset (nat * nat) :=
  foldl (fun edges pair => {[ pair ]} ∪ edges) edges (same_term_rows terms).

End TermLinks.

(** ** Statements about the segmenter *)

Module SegmenterSpec.
Import Segmenter.

(** The section numbers of the lines that start a section, in order. *)
Definition header_numbers (chapter_of : string -> option string)
    (header_of : string -> option string * option string) (lines : list line)
    : list string :=
  omap (fun rec => if starts_section chapter_of header_of rec
                   then fst (header_of (text rec)) else None) lines.

(** A section number as the patterns capture it: one or more digits,
    then at most one ASCII letter. *)
Definition is_section_number (s : string) : bool :=
  let (digits, rest) := span is_digit s in
  negb (String.eqb digits EmptyString)
  && match rest with
     | EmptyString => true
     | String c EmptyString => is_ascii_letter c
     | _ => false
     end.

(** A record agrees with the lines it was built from. *)
Definition consistent (row : manifest_row) (lines : list line) (record : section_record)
    : Prop :=
  rec_text record = PyStr.join Indexing.nl (map text (rec_raw_lines record))
  /\ rec_raw_lines record <> []
  /\ (forall l, l ∈ rec_raw_lines record -> l ∈ lines)
  /\ (forall p, p ∈ rec_pages record <-> exists l, l ∈ rec_raw_lines record /\ page l = p)
  /\ Sorted Z.le (rec_pages record)
  /\ NoDup (rec_pages record)
  /\ rec_section_id record = act_id row ++ "-sec-" ++ h_section (rec_hierarchy record)
  /\ rec_citation record = "Section " ++ h_section (rec_hierarchy record).

(** The state keeps the raw lines and the pages in step with the buffer,
    and every record written agrees with the lines it came from. *)
Definition in_step (row : manifest_row) (lines : list line) (st : state) : Prop :=
  raw_lines st = buffer st
  /\ pages st = list_to_set (map page (buffer st))
  /\ (forall l, l ∈ buffer st -> l ∈ lines)
  /\ Forall (consistent row lines) (outfile st).

(** The section numbers of the records, in the order written. *)
Definition numbers_of (records : list section_record) : list string :=
  map (fun record => h_section (rec_hierarchy record)) records.

(** What the headers seen so far and the state have to do with each
    other: the section in progress is the last header, and the records
    written are among the headers before it, in their order. *)
Definition follows (headers : list string) (st : state) : Prop :=
  match current_section st with
  | None => headers = [] /\ outfile st = []
  | Some sec => exists before, headers = (before ++ [sec])%list
                               /\ numbers_of (outfile st) `sublist_of` before
  end.

End SegmenterSpec.

(** ** What the merge cannot loop over *)

Module EnrichSpec.
Import Enrich.

(** A value that [x or []] keeps and a [for] loop rejects: [True], or a
    number other than zero. *)
Definition not_iterable (j : json) : bool :=
  match j with
  | JBool b => b
  | JInt n => negb (n =? 0)
  | _ => false
  end.

(** The dicts among the items of a value, which the merge appends. *)
Definition dicts_of (j : json) : list json :=
  match py_iter (or_list j) with
  | Some items => filter (fun v => is_dict v = true) items
  | None => []
  end.

End EnrichSpec.

(** ** More concrete inputs *)

Module MoreInputs.

(** Collaborators for a query on which both primary searches find
    nothing and the semantic search finds a section, an act and the same
    section again. *)
Definition cascade_services : @GraphRAG.services Q :=
  {| GraphRAG.extract_article_id := fun _ => None;
     GraphRAG.vector_search_sections := fun _ _ _ => [];
     GraphRAG.fulltext_search_sections := fun _ _ => [];
     GraphRAG.match_section_id := fun _ => [];
     GraphRAG.smart_semantic_search :=
       fun _ _ => [GraphRAG.SemResult GraphRAG.SemSection 5;
                   GraphRAG.SemResult GraphRAG.SemAct 2;
                   GraphRAG.SemResult GraphRAG.SemSection 5];
     GraphRAG.sections_of_acts := fun _ => [5; 6];
     GraphRAG.sections_of_titled_acts := fun _ => [];
     GraphRAG.fetch_kg_context_for_sections := fun _ => "[]";
     GraphRAG.answer := fun _ _ => "answer" |}.

(** Two sections of an act, the first with a sentence for the LLM. *)
Definition act_sections : list Candidates.act_section :=
  [Candidates.ActSection "The keeper shall give notice."
     (Enrich.Section_ ["keeper"] [] [] [] [] None None);
   Candidates.ActSection "Short title."
     (Enrich.Section_ [] [] [] [] [] None None)].

(** A client that raises on every call, and a batch call that names a
    role for the first section. *)
Definition failing_client (prompt : string) : Enrich.reply := Enrich.CallFailed.

Definition magistrate_call (batch : list Enrich.batch_input)
    : gmap Enrich.key Enrich.extraction :=
  {[ inl 0 := Enrich.Extraction (Enrich.JArr [Enrich.JStr "Magistrate"])
                (Enrich.JArr []) (Enrich.JArr []) (Enrich.JArr []) (Enrich.JArr []) ]}.

(** A reply that gives a number where the list of roles should be. *)
Definition number_for_roles : Enrich.extraction :=
  Enrich.Extraction (Enrich.JInt 5) (Enrich.JArr []) (Enrich.JArr []) (Enrich.JArr [])
    (Enrich.JArr []).

(** A result with a role and an obligation. *)
Definition keeper_result : Enrich.extraction :=
  Enrich.Extraction (Enrich.JArr [Enrich.JStr " Keeper "])
    (Enrich.JArr [Enrich.JObj [("actor", Enrich.JStr "Keeper")]])
    (Enrich.JArr []) (Enrich.JArr []) (Enrich.JArr []).

(** A reply with two objects for one section, the second giving the
    index as [true]. *)
Definition repeated_index : list Enrich.json :=
  [Enrich.JObj [("section_index", Enrich.JInt 1);
                ("roles", Enrich.JArr [Enrich.JStr "Keeper"])];
   Enrich.JObj [("section_index", Enrich.JBool true);
                ("powers", Enrich.JArr [Enrich.JStr "may enter"])]].

(** A section as the rule-based step leaves it, with one citation of a
    section and one of an act. *)
Definition cited_section : list (string * Enrich.json) :=
  [("act_id", Enrich.JStr "1851_1");
   ("section_id", Enrich.JStr "1851_1-sec-4");
   ("citations",
    Enrich.JArr [Citations.rule_based_citation "section" "section 3" (Enrich.JObj []);
                 Citations.rule_based_citation "act" "Indian Penal Code Act, 1860"
                   (Enrich.JObj [("title", Enrich.JStr "Indian Penal Code Act, 1860")])])].

(** A section with citations in the shapes the iterator reads. *)
Definition linked_section : list (string * Enrich.json) :=
  [("act_id", Enrich.JStr "1851_1");
   ("section_id", Enrich.JStr "1851_1-sec-4");
   ("citations",
    Enrich.JArr [Enrich.JStr " 1860_45:302 "; Enrich.JStr "7"; Enrich.JInt 3;
                 Enrich.JObj [("section_id", Enrich.JStr " 1851_1-sec-2 ")]])].

(** Three defined terms, two of them with one name in different case. *)
Definition notice_terms : list TermLinks.term :=
  [TermLinks.Term 4 (Some "Notice"); TermLinks.Term 2 (Some "notice");
   TermLinks.Term 9 (Some "keeper")].

(** The penal graph with a section (node 7) that has no penalty and
    carries a score from an earlier state of the graph. *)
Definition stale_graph : GraphEnrich.graph :=
  GraphEnrich.Graph
    (<[7%nat := <["severity_score" := PInt 9]> ∅]>
       (GraphEnrich.node_props Scenarios.penal_graph))
    [] [(0, 10); (0, 11)]%nat ∅.

End MoreInputs.

(** * Properties *)

(** ** Strings *)

Lemma str_length_app (a b : string) :
  String.length (a ++ b) = (String.length a + String.length b)%nat.
Proof. induction a as [|c a IH]; simpl; [reflexivity | now rewrite IH]. Qed.

Lemma take_length (n : nat) (s : string) :
  String.length (PyStr.take n s) = Nat.min n (String.length s).
Proof.
  revert s; induction n as [|n IH]; intros [|c s]; simpl; try reflexivity.
  now rewrite IH.
Qed.

Lemma take_is_prefix (n : nat) (s : string) :
  exists rest, s = PyStr.take n s ++ rest.
Proof.
  revert s; induction n as [|n IH]; intros s.
  - exists s. now destruct s.
  - destruct s as [|c s]; [now exists EmptyString|].
    destruct (IH s) as [rest Hrest]. exists rest. rewrite Hrest at 1. reflexivity.
Qed.

(** ** Reciprocal rank fusion *)

Module SearchFacts.
Import Search.
Local Open Scope list_scope.

Lemma elem_of_precedes {A} (l : list A) (p q : A) :
  precedes l p q -> p ∈ l /\ q ∈ l.
Proof.
  induction 1 as [x l q Hq | y l p q _ [IHp IHq]]; split;
    try (apply elem_of_cons; auto).
Qed.

Lemma first_seen_fold (ids ks : list Z) :
  foldl (fun ks id => if bool_decide (id ∈ ks) then ks else ks ++ [id]) ks ids
  = (ks ++ filter (fun y => y ∉ ks) (first_seen ids))%list.
Proof.
  revert ks; induction ids as [|x ids IH]; intros ks; simpl.
  - now rewrite app_nil_r.
  - rewrite IH. case_bool_decide as Hx.
    + rewrite filter_cons_False by (intros H; now apply H).
      f_equal. rewrite list_filter_filter. apply list_filter_iff.
      intros y. split; [intros Hy; split; [exact Hy | congruence] | tauto].
    + rewrite filter_cons_True by exact Hx.
      rewrite <- app_assoc. simpl. do 2 f_equal.
      rewrite list_filter_filter. apply list_filter_iff.
      intros y. rewrite elem_of_app, list_elem_of_singleton. tauto.
Qed.

Lemma NoDup_first_seen (ids : list Z) : NoDup (first_seen ids).
Proof.
  induction ids as [|x ids IH]; simpl; [apply NoDup_nil_2|].
  apply NoDup_cons. split.
  - rewrite list_elem_of_filter. intros [H _]. now apply H.
  - now apply NoDup_filter.
Qed.

Lemma filter_not_elem_of_nil (l : list Z) : filter (fun y => y ∉ []) l = l.
Proof.
  induction l as [|x l IH]; [reflexivity|].
  rewrite filter_cons_True by apply not_elem_of_nil. now f_equal.
Qed.

Section RRFFacts.
Context {T : Type}.
Variable zero : T.
Variable add : T -> T -> T.
Variable recip : Z -> T.
Variable ltb : T -> T -> bool.

Abbreviation hit := (@hit T).
Abbreviation scores_t := (@scores_t T).
Abbreviation dict_add := (dict_add zero add).
Abbreviation accumulate := (accumulate zero add recip).
Abbreviation accumulate_pure := (accumulate_pure zero add recip).
Abbreviation contribs := (contribs recip).
Abbreviation insert_desc := (insert_desc ltb).
Abbreviation sorted_desc := (sorted_desc ltb).
Abbreviation rrf_scores := (rrf_scores zero add recip).
Abbreviation rrf_fuse := (rrf_fuse zero add recip ltb).
Abbreviation fused_score := (fused_score zero add recip).
Abbreviation descending := (descending ltb).

(** With a rank constant that is not negative no division by zero
    occurs. *)
Lemma accumulate_some (k_rrf rank : Z) (rs : list hit) (scores : scores_t) :
  0 <= k_rrf -> 0 <= rank ->
  accumulate k_rrf rank rs scores = Some (accumulate_pure k_rrf rank rs scores).
Proof.
  intros Hk. revert rank scores.
  induction rs as [|r rs IH]; intros rank scores Hrank; simpl; [reflexivity|].
  destruct (k_rrf + rank + 1 =? 0) eqn:E; [lia|].
  apply IH. lia.
Qed.

Lemma score_of_dict_add (scores : scores_t) (k id : Z) (x : T) :
  score_of (dict_add scores k x) id
  = if k =? id then Some (add (default zero (score_of scores k)) x)
    else score_of scores id.
Proof.
  induction scores as [|[k' v] rest IH]; simpl.
  - destruct (k =? id); reflexivity.
  - destruct (k' =? k) eqn:Ek; simpl.
    + apply Z.eqb_eq in Ek as ->. destruct (k =? id); reflexivity.
    + rewrite IH.
      destruct (k' =? id) eqn:E1, (k =? id) eqn:E2; try reflexivity. lia.
Qed.

Lemma score_of_accumulate_pure (k_rrf rank id : Z) (rs : list hit) (scores : scores_t) :
  score_of (accumulate_pure k_rrf rank rs scores) id
  = match contribs k_rrf rank id rs with
    | [] => score_of scores id
    | cs => Some (fold_left add cs (default zero (score_of scores id)))
    end.
Proof.
  revert rank scores; induction rs as [|r rs IH]; intros rank scores; simpl;
    [reflexivity|].
  rewrite IH, score_of_dict_add.
  destruct (sid r =? id) eqn:E; simpl.
  - apply Z.eqb_eq in E as ->.
    destruct (contribs k_rrf (rank + 1) id rs); reflexivity.
  - reflexivity.
Qed.

Lemma keys_dict_add (scores : scores_t) (k : Z) (x : T) :
  map fst (dict_add scores k x)
  = if bool_decide (k ∈ map fst scores) then map fst scores
    else (map fst scores ++ [k])%list.
Proof.
  induction scores as [|[k' v] rest IH]; simpl; [reflexivity|].
  destruct (k' =? k) eqn:Ek; simpl.
  - apply Z.eqb_eq in Ek as ->.
    rewrite bool_decide_eq_true_2 by (apply elem_of_cons; now left). reflexivity.
  - rewrite IH. apply Z.eqb_neq in Ek.
    case_bool_decide as H1; case_bool_decide as H2; try reflexivity.
    + exfalso. apply H2, elem_of_cons. now right.
    + exfalso. apply elem_of_cons in H2 as [H2|H2]; [congruence | tauto].
Qed.

Lemma keys_accumulate_pure (k_rrf rank : Z) (rs : list hit) (scores : scores_t) :
  map fst (accumulate_pure k_rrf rank rs scores)
  = foldl (fun ks id => if bool_decide (id ∈ ks) then ks else ks ++ [id])
          (map fst scores) (map sid rs).
Proof.
  revert rank scores; induction rs as [|r rs IH]; intros rank scores; simpl;
    [reflexivity|].
  now rewrite IH, keys_dict_add.
Qed.

Lemma contribs_absent (k_rrf rank id : Z) (rs : list hit) :
  rank_in id rs = None -> contribs k_rrf rank id rs = [].
Proof.
  revert rank; induction rs as [|r rs IH]; intros rank; simpl; [reflexivity|].
  destruct (sid r =? id); [discriminate|].
  destruct (rank_in id rs); [discriminate|]. intros _. now apply IH.
Qed.

Lemma rank_in_None (id : Z) (rs : list hit) :
  id ∉ map sid rs -> rank_in id rs = None.
Proof.
  induction rs as [|r rs IH]; simpl; [reflexivity|].
  rewrite not_elem_of_cons. intros [Hne Hnin].
  destruct (sid r =? id) eqn:E; [apply Z.eqb_eq in E; congruence|].
  now rewrite IH.
Qed.

(** In a list without repeated ids an id contributes one term, at its
    position. *)
Lemma contribs_unique (k_rrf rank id : Z) (rs : list hit) :
  NoDup (map sid rs) ->
  contribs k_rrf rank id rs
  = match rank_in id rs with
    | Some i => [recip (k_rrf + (rank + i) + 1)]
    | None => []
    end.
Proof.
  revert rank; induction rs as [|r rs IH]; intros rank Hnd; simpl; [reflexivity|].
  apply NoDup_cons in Hnd as [Hnin Hnd].
  destruct (sid r =? id) eqn:E; simpl.
  - apply Z.eqb_eq in E. subst id.
    rewrite (contribs_absent _ _ _ _ (rank_in_None _ _ Hnin)).
    now rewrite Z.add_0_r.
  - rewrite IH by exact Hnd. destruct (rank_in id rs); simpl; [|reflexivity].
    do 2 f_equal. lia.
Qed.

Lemma elem_of_insert_desc (x y : Z * T) (l : scores_t) :
  y ∈ insert_desc x l <-> y = x \/ y ∈ l.
Proof.
  induction l as [|z l IH]; simpl.
  - rewrite list_elem_of_singleton, elem_of_nil. tauto.
  - destruct (ltb (snd x) (snd z)); rewrite !elem_of_cons; [rewrite IH|]; tauto.
Qed.

Lemma insert_desc_perm (x : Z * T) (l : scores_t) : insert_desc x l ≡ₚ x :: l.
Proof.
  induction l as [|z l IH]; simpl; [reflexivity|].
  destruct (ltb (snd x) (snd z)); [|reflexivity].
  rewrite IH. apply Permutation_swap.
Qed.

Lemma sorted_desc_perm (l : scores_t) : sorted_desc l ≡ₚ l.
Proof.
  induction l as [|x l IH]; simpl; [reflexivity|].
  now rewrite insert_desc_perm, IH.
Qed.

(** Where the inserted entry overtakes another one, that one has a
    strictly greater score. *)
Lemma precedes_insert_desc (x p q : Z * T) (l : scores_t) :
  precedes (insert_desc x l) p q ->
  (p = x /\ q ∈ l) \/ (q = x /\ ltb (snd x) (snd p) = true) \/ precedes l p q.
Proof.
  induction l as [|y l IH]; simpl.
  - inversion 1 as [? ? ? Hq | ? ? ? ? Hpq]; subst.
    + now apply elem_of_nil in Hq.
    + inversion Hpq.
  - destruct (ltb (snd x) (snd y)) eqn:E.
    + inversion 1 as [? ? ? Hq | ? ? ? ? Hpq]; subst.
      * apply elem_of_insert_desc in Hq as [-> | Hq]; [now right; left|].
        right; right. now constructor.
      * destruct (IH Hpq) as [[-> Hq] | [[-> Hlt] | Hprec]].
        -- left. split; [reflexivity | apply elem_of_cons; now right].
        -- now right; left.
        -- right; right. now constructor.
    + inversion 1 as [? ? ? Hq | ? ? ? ? Hpq]; subst.
      * now left.
      * now right; right.
Qed.

(** The sort is stable: an entry stands before another one either
    because its score is strictly greater or because it stood before it
    already. *)
Lemma sorted_desc_stable (l : scores_t) (p q : Z * T) :
  precedes (sorted_desc l) p q ->
  ltb (snd q) (snd p) = true \/ precedes l p q.
Proof.
  revert p q; induction l as [|x l IH]; intros p q; simpl.
  - inversion 1.
  - intros H. apply precedes_insert_desc in H as [[-> Hq] | [[-> Hlt] | Hprec]].
    + right. constructor. now rewrite <- (sorted_desc_perm l).
    + now left.
    + destruct (IH _ _ Hprec) as [Hlt | Hpq]; [now left|].
      right. now constructor.
Qed.

Section Order.
(** The comparison is a strict weak order, as [<] is on the floats that
    are not NaN and on the rationals. *)
Hypothesis ltb_asym : forall a b, ltb a b = true -> ltb b a = false.
Hypothesis ltb_negtrans :
  forall a b c, ltb a b = false -> ltb b c = false -> ltb a c = false.

Lemma insert_desc_descending (x : Z * T) (l : scores_t) :
  descending l -> descending (insert_desc x l).
Proof.
  unfold Search.descending. induction l as [|y l IH]; simpl; intros Hl p q.
  - inversion 1 as [? ? ? Hq | ? ? ? ? Hpq]; subst.
    + now apply elem_of_nil in Hq.
    + inversion Hpq.
  - destruct (ltb (snd x) (snd y)) eqn:E.
    + inversion 1 as [? ? ? Hq | ? ? ? ? Hpq]; subst.
      * apply elem_of_insert_desc in Hq as [-> | Hq]; [now apply ltb_asym|].
        apply Hl. now constructor.
      * apply IH; [|exact Hpq]. intros p' q' H'. apply Hl. now constructor.
    + inversion 1 as [? ? ? Hq | ? ? ? ? Hpq]; subst.
      * apply elem_of_cons in Hq as [-> | Hq]; [exact E|].
        apply (ltb_negtrans _ (snd y)); [exact E|]. apply Hl. now constructor.
      * now apply Hl.
Qed.

Lemma sorted_desc_descending (l : scores_t) : descending (sorted_desc l).
Proof.
  induction l as [|x l IH]; simpl.
  - intros p q H. inversion H.
  - now apply insert_desc_descending.
Qed.

(** C1. For the call [rrf_fuse(vec, lex, k_rrf=60, top_k=10)] of the
    retrieval engine: the scores dict lists the ids, once each, in the
    order they are first met (vector list, then lexical list); the score
    of an id is the sum, from [0.0], of [1/(60 + rank + 1)] over its
    0-based positions in the vector list and then in the lexical list,
    which for lists without repeated ids is one term per list that
    contains the id, an id found in one list only keeping the term of that
    list; the result is the first 10 ids of the entries sorted by
    descending score, where of two entries the one with the strictly
    greater score comes first and entries of equal score keep the order of
    the dict. For vector ranks
    A, B, C and lexical ranks B, A, D, the scores are 1/61 + 1/62 for A,
    1/62 + 1/61 for B, 1/63 for C and 1/63 for D. *)
Theorem rrf_fuse_spec (vec lex : list hit) :
  exists scores ranked : scores_t,
    rrf_scores vec lex 60 = Some scores
    /\ rrf_fuse vec lex 60 10 = Some (map fst (take 10 ranked))
    /\ map fst scores = first_seen (map sid vec ++ map sid lex)
    /\ NoDup (map fst scores)
    /\ (forall id,
          score_of scores id
          = match contribs 60 0 id vec ++ contribs 60 0 id lex with
            | [] => None
            | cs => Some (fold_left add cs zero)
            end)
    /\ (NoDup (map sid vec) -> NoDup (map sid lex) ->
        forall id, score_of scores id = fused_score 60 vec lex id)
    /\ ranked ≡ₚ scores
    /\ (forall p q, precedes ranked p q ->
          ltb (snd p) (snd q) = false
          /\ (ltb (snd q) (snd p) = true \/ precedes scores p q))
    /\ (forall A B C D,
          map sid vec = [A; B; C] -> map sid lex = [B; A; D] ->
          NoDup [A; B; C; D] ->
          score_of scores A = Some (add (add zero (recip 61)) (recip 62))
          /\ score_of scores B = Some (add (add zero (recip 62)) (recip 61))
          /\ score_of scores C = Some (add zero (recip 63))
          /\ score_of scores D = Some (add zero (recip 63))
          /\ map fst scores = [A; B; C; D]).
Proof.
  set (s1 := accumulate_pure 60 0 vec []).
  set (s2 := accumulate_pure 60 0 lex s1).
  assert (Hscores : rrf_scores vec lex 60 = Some s2).
  { unfold Search.rrf_scores. rewrite (accumulate_some 60 0 vec []) by lia.
    fold s1. now rewrite (accumulate_some 60 0 lex s1) by lia. }
  assert (Hkeys : map fst s2 = first_seen (map sid vec ++ map sid lex)).
  { unfold s2, s1. rewrite !keys_accumulate_pure. simpl.
    rewrite <- foldl_app, first_seen_fold. simpl.
    apply filter_not_elem_of_nil. }
  assert (Hsum : forall id,
             score_of s2 id
             = match contribs 60 0 id vec ++ contribs 60 0 id lex with
               | [] => None
               | cs => Some (fold_left add cs zero)
               end).
  { intros id. unfold s2, s1. rewrite !score_of_accumulate_pure. simpl.
    destruct (contribs 60 0 id vec) as [|c cv], (contribs 60 0 id lex) as [|d cl];
      simpl; try reflexivity.
    - now rewrite app_nil_r.
    - now rewrite fold_left_app. }
  assert (Huniq : NoDup (map sid vec) -> NoDup (map sid lex) ->
                  forall id, score_of s2 id = fused_score 60 vec lex id).
  { intros Hv Hl id. rewrite Hsum, (contribs_unique _ _ _ _ Hv),
      (contribs_unique _ _ _ _ Hl). unfold Search.fused_score.
    destruct (rank_in id vec), (rank_in id lex); reflexivity. }
  exists s2, (sorted_desc s2). split_and!.
  - exact Hscores.
  - unfold Search.rrf_fuse. now rewrite Hscores.
  - exact Hkeys.
  - rewrite Hkeys. apply NoDup_first_seen.
  - exact Hsum.
  - exact Huniq.
  - apply sorted_desc_perm.
  - intros p q H. split; [exact (sorted_desc_descending s2 p q H) | now apply sorted_desc_stable].
  - intros A B C D Hvec Hlex Hnd.
    destruct vec as [|[a ?] [|[b ?] [|[c ?] [|]]]]; try discriminate.
    destruct lex as [|[b' ?] [|[a' ?] [|[d ?] [|]]]]; try discriminate.
    simpl in Hvec, Hlex. injection Hvec as -> -> ->. injection Hlex as -> -> ->.
    assert (Hne : A <> B /\ A <> C /\ A <> D /\ B <> C /\ B <> D /\ C <> D).
    { revert Hnd. rewrite !NoDup_cons, !not_elem_of_cons. tauto. }
    destruct Hne as (HAB & HAC & HAD & HBC & HBD & HCD).
    rewrite Hkeys. rewrite !Hsum. simpl.
    rewrite !Z.eqb_refl.
    rewrite !(proj2 (Z.eqb_neq _ _)) by congruence.
    simpl. split_and!; try reflexivity.
    repeat first [ rewrite filter_cons_False by (intros H; now apply H)
                 | rewrite filter_cons_True by congruence ].
    reflexivity.
Qed.
End Order.
End RRFFacts.

(** The rationals carry the order the theorem asks for. *)
Lemma rational_ltb_asym (a b : Q) :
  RationalScores.ltb a b = true -> RationalScores.ltb b a = false.
Proof.
  unfold RationalScores.ltb. rewrite <- (Qcompare_antisym a b).
  destruct (a ?= b)%Q; simpl; congruence.
Qed.

Lemma rational_ltb_false (a b : Q) :
  RationalScores.ltb a b = false <-> (b <= a)%Q.
Proof.
  unfold RationalScores.ltb. rewrite Qle_alt, <- (Qcompare_antisym a b).
  destruct (a ?= b)%Q; simpl; split; congruence.
Qed.

Lemma rational_ltb_negtrans (a b c : Q) :
  RationalScores.ltb a b = false -> RationalScores.ltb b c = false ->
  RationalScores.ltb a c = false.
Proof.
  rewrite !rational_ltb_false. intros Hab Hbc. now apply Qle_trans with b.
Qed.

Lemma rrf_fuse_spec_witness :
  exists scores,
    RationalScores.scores RationalScores.vector_ranks RationalScores.lexical_ranks 60
    = Some scores
    /\ score_of scores 1 = Some (Qplus (Qplus 0 (1 / 61)) (1 / 62))
    /\ score_of scores 2 = Some (Qplus (Qplus 0 (1 / 62)) (1 / 61))
    /\ score_of scores 3 = Some (Qplus 0 (1 / 63))
    /\ score_of scores 4 = Some (Qplus 0 (1 / 63))
    /\ map fst scores = [1; 2; 3; 4].
Proof.
  destruct (rrf_fuse_spec RationalScores.zero Qplus RationalScores.recip
              RationalScores.ltb rational_ltb_asym rational_ltb_negtrans
              RationalScores.vector_ranks RationalScores.lexical_ranks)
    as (scores & ranked & Hs & _ & _ & _ & _ & _ & _ & _ & Hex).
  exists scores. split; [exact Hs|].
  apply (Hex 1 2 3 4); [reflexivity | reflexivity |].
  repeat (apply NoDup_cons; split;
          [rewrite ?not_elem_of_cons, elem_of_nil; intuition discriminate|]).
  apply NoDup_nil_2.
Defined.

(** The worked ranking of the specification, over the rationals. *)
Example rrf_fuse_worked_ranking :
  RationalScores.fuse RationalScores.vector_ranks RationalScores.lexical_ranks 60 10
  = Some [1; 2; 3; 4].
Proof. reflexivity. Qed.

End SearchFacts.

(** ** Evidence previews and citations *)

Module GraphRAGFacts.
Import GraphRAG.

(** C10. [_trim] returns [None] exactly on [None]; a text whose stripped
    length is at most [max_chars] comes back stripped and otherwise
    unchanged; a longer one comes back as the first [max_chars] characters
    of the stripped text followed by the marker " ...[TRUNCATED]...", so
    that no result is longer than [max_chars + 18]. The last two parts
    are for a bound that is not negative, as every caller passes. *)
Theorem trim_spec (text : option string) (max_chars : Z) :
  (_trim text max_chars = None <-> text = None) /\
  (forall t, text = Some t -> PyStr.len (PyStr.strip t) <= max_chars ->
     _trim text max_chars = Some (PyStr.strip t)) /\
  (forall t, text = Some t -> 0 <= max_chars < PyStr.len (PyStr.strip t) ->
     exists pre rest,
       PyStr.strip t = pre ++ rest /\ PyStr.len pre = max_chars /\
       _trim text max_chars = Some (pre ++ " ...[TRUNCATED]...")) /\
  (forall out, 0 <= max_chars -> _trim text max_chars = Some out ->
     PyStr.len out <= max_chars + 18).
Proof.
  repeat split.
  - destruct text as [t|]; simpl; [|reflexivity].
    destruct (_ <=? _); discriminate.
  - intros ->. reflexivity.
  - intros t -> Hle. simpl. apply Z.leb_le in Hle. now rewrite Hle.
  - intros t -> [Hmax Hlt]. simpl.
    apply Z.leb_gt in Hlt as Hlt'. rewrite Hlt'.
    unfold PyStr.slice_to. apply Z.ltb_ge in Hmax as Hmax'. rewrite Hmax'.
    destruct (take_is_prefix (Z.to_nat max_chars) (PyStr.strip t)) as [rest Hrest].
    exists (PyStr.take (Z.to_nat max_chars) (PyStr.strip t)), rest.
    repeat split; [exact Hrest | ].
    unfold PyStr.len in *. rewrite take_length. lia.
  - intros out Hmax. destruct text as [t|]; simpl; [|discriminate].
    destruct (PyStr.len (PyStr.strip t) <=? max_chars) eqn:Hle; intros [= <-].
    + apply Z.leb_le in Hle. lia.
    + unfold PyStr.slice_to. apply Z.ltb_ge in Hmax as Hmax'. rewrite Hmax'.
      unfold PyStr.len. rewrite str_length_app, take_length. simpl. lia.
Qed.

Lemma trim_spec_witness :
  _trim (Some "  hello world  ") 5 = Some "hello ...[TRUNCATED]..." /\
  _trim (Some " Act ") 5 = Some "Act" /\
  PyStr.len "hello ...[TRUNCATED]..." <= 5 + 18.
Proof.
  split; [reflexivity|]. split.
  - apply (proj1 (proj2 (trim_spec (Some " Act ") 5)) " Act "); [reflexivity|].
    vm_compute. discriminate.
  - apply (proj2 (proj2 (proj2 (trim_spec (Some "  hello world  ") 5)))).
    + lia.
    + reflexivity.
Defined.

(** A negative bound, which no caller passes, cuts from the end. *)
Example trim_negative_bound :
  _trim (Some "abc") (-1) = Some "ab ...[TRUNCATED]...".
Proof. reflexivity. Qed.

Lemma truthy_py_or_l (a b : option prop) : truthy a = true -> py_or a b = a.
Proof. unfold py_or. now intros ->. Qed.

(** C9. With the citation, the act title and the act year all present
    (set and truthy), the formatted citation is
    "<citation> of <act title>, <act year>"; with the year absent it is
    "<citation> of <act title>"; in every other case it is the raw
    citation. A section cited "Section 10" in THE MADRAS CITY LAND REVENUE
    ACT of 1851 is cited as
    "Section 10 of THE MADRAS CITY LAND REVENUE ACT, 1851". *)
Theorem formatted_citation_spec (act s : node) :
  let citation := raw_citation_of s in
  let title := act_title_of act in
  let year := act !! "year" in
  (truthy citation = true -> truthy title = true -> truthy year = true ->
     formatted_citation act s
     = Some (PStr (fmt citation ++ " of " ++ fmt title ++ ", " ++ fmt year))) /\
  (truthy citation = true -> truthy title = true -> truthy year = false ->
     formatted_citation act s = Some (PStr (fmt citation ++ " of " ++ fmt title))) /\
  (truthy citation = false \/ truthy title = false ->
     formatted_citation act s = citation) /\
  (s !! "citation" = Some (PStr "Section 10") ->
   act !! "title" = Some (PStr "THE MADRAS CITY LAND REVENUE ACT") ->
   act !! "year" = Some (PInt 1851) ->
     formatted_citation act s
     = Some (PStr "Section 10 of THE MADRAS CITY LAND REVENUE ACT, 1851")).
Proof.
  cbv zeta. unfold formatted_citation. repeat split.
  - now intros -> -> ->.
  - intros -> -> ->. reflexivity.
  - intros [-> | ->]; [reflexivity|].
    now rewrite !andb_false_r.
  - intros Hc Ht Hy. unfold raw_citation_of, act_title_of.
    rewrite Hc, Ht, Hy. reflexivity.
Qed.

Lemma formatted_citation_spec_witness :
  formatted_citation
    (<["title" := PStr "THE MADRAS CITY LAND REVENUE ACT"]> (<["year" := PInt 1851]> ∅))
    (<["citation" := PStr "Section 10"]> ∅)
  = Some (PStr "Section 10 of THE MADRAS CITY LAND REVENUE ACT, 1851")
  /\ formatted_citation (<["title" := PStr "THE SARAIS ACT"]> ∅)
       (<["citation" := PStr "Section 3"]> ∅)
     = Some (PStr "Section 3 of THE SARAIS ACT")
  /\ formatted_citation ∅ (<["citation" := PStr "Section 3"]> ∅)
     = Some (PStr "Section 3").
Proof.
  split; [|split].
  - apply (proj2 (proj2 (proj2 (formatted_citation_spec _ _)))); reflexivity.
  - exact (proj1 (proj2 (formatted_citation_spec
               (<["title" := PStr "THE SARAIS ACT"]> ∅)
               (<["citation" := PStr "Section 3"]> ∅))) eq_refl eq_refl eq_refl).
  - exact (proj1 (proj2 (proj2 (formatted_citation_spec
               ∅ (<["citation" := PStr "Section 3"]> ∅)))) (or_intror eq_refl)).
Defined.

(** *** The fallback cascade *)

Section ToolFacts.
Context {T : Type}.
Variable zero : T.
Variable add : T -> T -> T.
Variable recip : Z -> T.
Variable ltb : T -> T -> bool.
Variable svc : @services T.

Ltac not_in_trace :=
  let H := fresh in
  intros H;
  repeat (apply elem_of_cons in H as [H | H]; [discriminate H|]);
  now apply elem_of_nil in H.

Ltac not_in_trace_hyp :=
  let H := fresh in
  intros H; exfalso; revert H; not_in_trace.

(** C2. Let [fused] be what the primary fusion returns for a query. If
    [fused] is not empty, no fallback tier runs, whether or not an explicit
    locator was detected. Fallback 1 runs only if [fused] is empty;
    fallback 2 only if moreover fallback 1, when it ran, found nothing;
    fallback 3 only if moreover fallback 2 ran and produced nothing. *)
Theorem fallback_order (query : string) :
  let explicit_article_id := extract_article_id svc query in
  let vec := vector_search_sections svc query explicit_article_id 50 in
  let lex := fulltext_search_sections svc query 50 in
  let trace := snd (Graph_RAG_new_tool zero add recip ltb svc query []) in
  exists fused,
    Search.rrf_fuse zero add recip ltb vec lex 60 10 = Some fused
    /\ (fused <> [] ->
        (EvFallback1 ∉ trace) /\ (EvFallback2 ∉ trace)
        /\ (EvFallback2Expand ∉ trace) /\ (EvFallback3 ∉ trace))
    /\ (EvFallback1 ∈ trace -> fused = [])
    /\ (EvFallback2 ∈ trace ->
        fused = []
        /\ (EvFallback1 ∈ trace ->
            match_section_id svc (default EmptyString explicit_article_id) = []))
    /\ (EvFallback2Expand ∈ trace -> EvFallback2 ∈ trace)
    /\ (EvFallback3 ∈ trace ->
        fused = []
        /\ (EvFallback1 ∈ trace ->
            match_section_id svc (default EmptyString explicit_article_id) = [])
        /\ EvFallback2 ∈ trace
        /\ fst (fallback2 svc query [] []) = []).
Proof.
  cbv zeta.
  set (vec := vector_search_sections svc query (extract_article_id svc query) 50).
  set (lex := fulltext_search_sections svc query 50).
  assert (Hf : exists fused, Search.rrf_fuse zero add recip ltb vec lex 60 10 = Some fused).
  { unfold Search.rrf_fuse, Search.rrf_scores.
    rewrite (SearchFacts.accumulate_some zero add recip 60 0) by lia.
    rewrite (SearchFacts.accumulate_some zero add recip 60 0) by lia.
    eauto. }
  destruct Hf as [fused Hf]. exists fused. split; [exact Hf|].
  unfold Graph_RAG_new_tool, bind, call. fold vec lex. rewrite Hf.
  unfold fallback1, fallback2, fallback3, bind, call, ret.
  destruct fused as [|id ids]; simpl.
  - destruct (truthy_str (extract_article_id svc query)); simpl;
      [destruct (match_section_id svc _) as [|m ms]; simpl|];
      repeat match goal with
             | |- context [is_empty ?l] => destruct l; simpl
             end;
      split_and!; intros; split_and?;
        try congruence; try reflexivity;
        try (exfalso; match goal with H : _ ∈ _ |- _ => revert H; not_in_trace end);
        try (repeat (apply elem_of_cons; first [now left | right]));
        try not_in_trace_hyp.
  - split_and!; intros; split_and?; try not_in_trace;
      exfalso; match goal with H : _ ∈ _ |- _ => revert H; not_in_trace end.
Qed.
End ToolFacts.

Lemma fallback_order_witness :
  let trace :=
    snd (Graph_RAG_new_tool RationalScores.zero Qplus RationalScores.recip
           RationalScores.ltb Scenarios.demo_services "penalty under Section 10" []) in
  (EvFallback1 ∉ trace) /\ (EvFallback2 ∉ trace)
  /\ (EvFallback2Expand ∉ trace) /\ (EvFallback3 ∉ trace).
Proof.
  destruct (fallback_order RationalScores.zero Qplus RationalScores.recip
              RationalScores.ltb Scenarios.demo_services "penalty under Section 10")
    as (fused & Hf & Hnone & _).
  apply Hnone. intros ->. discriminate Hf.
Defined.

End GraphRAGFacts.

(** ** The embedded text of a section *)

Module IndexingFacts.
Import Indexing.

(** C7. Two rows that agree on the act title, the heading, the summary
    and the text of the section yield the same embedded text, whatever
    their node id, section id, section number and citation are; these are
    kept in the metadata record. *)
Theorem embedded_text_ignores_identifiers (r r' : row) :
  GraphRAG.act_title_of (row_a r) = GraphRAG.act_title_of (row_a r') ->
  row_s r !! "heading" = row_s r' !! "heading" ->
  row_s r !! "summary" = row_s r' !! "summary" ->
  row_s r !! "text" = row_s r' !! "text" ->
  snd (fst (section_documents [r])) = snd (fst (section_documents [r']))
  /\ meta_get (section_metadata (row_sid r) (row_a r) (row_s r)) "neo4j_id"
     = Some (PInt (row_sid r))
  /\ meta_get (section_metadata (row_sid r) (row_a r) (row_s r)) "section_id"
     = py_or (row_s r !! "section_id") (row_s r !! "article_id")
  /\ meta_get (section_metadata (row_sid r) (row_a r) (row_s r)) "sectionNo"
     = row_s r !! "sectionNo"
  /\ meta_get (section_metadata (row_sid r) (row_a r) (row_s r)) "citation"
     = row_s r !! "citation".
Proof.
  intros Ha Hh Hs Ht. repeat split.
  simpl. unfold section_body. unfold GraphRAG.act_title_of in Ha.
  now rewrite Ha, Hh, Hs, Ht.
Qed.

Lemma embedded_text_ignores_identifiers_witness :
  snd (fst (section_documents [Scenarios.row_112]))
  = snd (fst (section_documents [Scenarios.row_113])).
Proof.
  exact (proj1 (embedded_text_ignores_identifiers Scenarios.row_112 Scenarios.row_113
                  eq_refl eq_refl eq_refl eq_refl)).
Defined.

End IndexingFacts.

(** ** The segmenter *)

Module SegmenterFacts.
Import Segmenter.
Local Open Scope list_scope.

Section ScanFacts.
Variable chapter_of : string -> option string.
Variable header_of : string -> option string * option string.
Variable row : manifest_row.

Abbreviation flush_section := (flush_section row).
Abbreviation step := (step chapter_of header_of row).
Abbreviation scan_from := (scan_from chapter_of header_of row).
Abbreviation scan := (scan chapter_of header_of row).
Abbreviation starts_section := (starts_section chapter_of header_of).
Abbreviation chapter_after := (chapter_after chapter_of).

(** Before the first section header only the chapter changes. *)
Lemma step_preamble (chapter : option string) (rec : line) :
  starts_section rec = false ->
  step (start chapter) rec
  = start (if truthy_str (chapter_of (text rec)) then chapter_of (text rec) else chapter).
Proof.
  unfold Segmenter.starts_section, Segmenter.step. intros H.
  destruct (truthy_str (chapter_of (text rec))); [reflexivity|].
  destruct (header_of (text rec)) as [sec_num heading]. simpl in H.
  now rewrite H.
Qed.

Lemma fold_preamble (chapter : option string) (pre : list line) :
  Forall (fun rec => starts_section rec = false) pre ->
  fold_left step pre (start chapter) = start (chapter_after chapter pre).
Proof.
  intros H. revert chapter. induction H as [|rec pre Hrec _ IH]; intros chapter;
    simpl; [reflexivity|].
  now rewrite step_preamble, IH.
Qed.

Lemma scan_from_preamble (chapter : option string) (pre rest : list line) :
  Forall (fun rec => starts_section rec = false) pre ->
  scan_from chapter (pre ++ rest) = scan_from (chapter_after chapter pre) rest.
Proof.
  intros H. unfold Segmenter.scan_from. now rewrite fold_left_app, fold_preamble.
Qed.

Lemma chapter_after_plain (chapter : option string) (pre : list line) :
  Forall (fun rec => truthy_str (chapter_of (text rec)) = false) pre ->
  chapter_after chapter pre = chapter.
Proof.
  intros H. revert chapter. induction H as [|rec pre Hrec _ IH]; intros chapter;
    simpl; [reflexivity|].
  now rewrite Hrec, IH.
Qed.

(** What a flush does. *)
Lemma flush_section_skips (st : state) :
  current_section st = None \/ PyStr.strip (buffer_text st) = EmptyString ->
  flush_section st = st.
Proof.
  unfold Segmenter.flush_section. intros [-> | H]; [reflexivity|].
  destruct (current_section st); [|reflexivity]. now rewrite H.
Qed.

Lemma flush_section_emits (st : state) (sec : string) :
  current_section st = Some sec -> PyStr.strip (buffer_text st) <> EmptyString ->
  exists record,
    outfile (flush_section st) = outfile st ++ [record]
    /\ h_section (rec_hierarchy record) = sec
    /\ rec_text record = buffer_text st
    /\ rec_raw_lines record = raw_lines st.
Proof.
  unfold Segmenter.flush_section. intros -> H.
  apply String.eqb_neq in H. rewrite H. simpl. eauto.
Qed.

Lemma flush_section_nonblank (st : state) :
  Forall nonblank (outfile st) -> Forall nonblank (outfile (flush_section st)).
Proof.
  intros H. unfold Segmenter.flush_section.
  destruct (current_section st); [|exact H].
  destruct (String.eqb _ _) eqn:E; [exact H|]. simpl.
  apply Forall_app. split; [exact H|]. constructor; [|constructor].
  unfold nonblank. simpl. now apply String.eqb_neq.
Qed.

Lemma step_nonblank (st : state) (rec : line) :
  Forall nonblank (outfile st) -> Forall nonblank (outfile (step st rec)).
Proof.
  intros H. unfold Segmenter.step.
  destruct (truthy_str (chapter_of (text rec))); [exact H|].
  destruct (header_of (text rec)) as [sec_num heading].
  destruct (truthy_str sec_num); [now apply flush_section_nonblank|].
  destruct (current_section st); exact H.
Qed.

Lemma fold_nonblank (lines : list line) (st : state) :
  Forall nonblank (outfile st) -> Forall nonblank (outfile (fold_left step lines st)).
Proof.
  revert st; induction lines as [|rec lines IH]; intros st H; simpl; [exact H|].
  now apply IH, step_nonblank.
Qed.

(** C8, as the code has it. A run of lines with no section header in
    front of a stream counts only through the last chapter header in it:
    the output is that of the rest of the stream scanned from that
    chapter, and with no chapter header in the run it is the output of the
    rest alone. A flush emits the section in progress exactly when there
    is one and its buffered text is not blank, so every emitted record has
    a non-blank text. A stream without any section header yields no
    record. *)
Theorem segmenter_spec :
  (forall pre rest,
     Forall (fun rec => starts_section rec = false) pre ->
     scan (pre ++ rest) = scan_from (chapter_after None pre) rest)
  /\ (forall pre rest,
        Forall (fun rec => starts_section rec = false) pre ->
        Forall (fun rec => truthy_str (chapter_of (text rec)) = false) pre ->
        scan (pre ++ rest) = scan rest)
  /\ (forall st,
        current_section st = None \/ PyStr.strip (buffer_text st) = EmptyString ->
        flush_section st = st)
  /\ (forall st sec,
        current_section st = Some sec -> PyStr.strip (buffer_text st) <> EmptyString ->
        exists record,
          outfile (flush_section st) = outfile st ++ [record]
          /\ h_section (rec_hierarchy record) = sec
          /\ rec_text record = buffer_text st
          /\ rec_raw_lines record = raw_lines st)
  /\ (forall lines record,
        record ∈ scan lines -> PyStr.strip (rec_text record) <> EmptyString)
  /\ (forall lines,
        Forall (fun rec => starts_section rec = false) lines ->
        scan lines = []).
Proof.
  split_and!.
  - intros pre rest H. now apply scan_from_preamble.
  - intros pre rest H Hc. unfold Segmenter.scan.
    now rewrite scan_from_preamble, chapter_after_plain.
  - exact flush_section_skips.
  - exact flush_section_emits.
  - intros lines record Hin.
    assert (H : Forall nonblank (scan lines)).
    { apply flush_section_nonblank, fold_nonblank. constructor. }
    rewrite Forall_forall in H. exact (H record Hin).
  - intros lines H. unfold Segmenter.scan, Segmenter.scan_from.
    now rewrite fold_preamble.
Qed.
End ScanFacts.

Lemma segmenter_spec_witness :
  process_act Scenarios.act_row (Scenarios.title_line :: Scenarios.section_lines)
  = process_act Scenarios.act_row Scenarios.section_lines
  /\ process_act Scenarios.act_row [Scenarios.title_line; Scenarios.chapter_line] = [].
Proof.
  pose proof (segmenter_spec detect_chapter detect_section_header Scenarios.act_row)
    as (_ & Hplain & _ & _ & _ & Hnone).
  split.
  - apply (Hplain [Scenarios.title_line] Scenarios.section_lines);
      repeat constructor.
  - apply Hnone. repeat constructor.
Defined.

(** The claim as the specification words it fails: a chapter header in
    front of the first section header is not a section header, and yet the
    records differ with and without it. *)
Lemma preamble_chapter_counterexample :
  Forall (fun rec => Segmenter.starts_section detect_chapter detect_section_header rec = false)
    [Scenarios.chapter_line]
  /\ process_act Scenarios.act_row ([Scenarios.chapter_line] ++ Scenarios.section_lines)
     <> process_act Scenarios.act_row Scenarios.section_lines.
Proof.
  split; [repeat constructor|].
  vm_compute. discriminate.
Qed.

End SegmenterFacts.

(** ** The semantic enrichment batcher *)

Module EnrichFacts.
Import Enrich.
Local Open Scope list_scope.

Lemma collect_unhashable (items : list json) (out : gmap key extraction) :
  Exists (fun item => read_item item = Unhashable) items -> collect items out = None.
Proof.
  intros H. revert out. induction H as [item rest H | item rest _ IH]; intros out; simpl.
  - now rewrite H.
  - destruct (read_item item); auto.
Qed.

Lemma collect_stored (items : list json) (out : gmap key extraction) :
  Forall (fun item => read_item item <> Unhashable) items ->
  collect items out = Some (foldl (fun m kv => <[fst kv := snd kv]> m) out (stored items)).
Proof.
  intros H. revert out. induction H as [|item rest H _ IH]; intros out; simpl;
    [reflexivity|].
  unfold stored. simpl. fold (stored rest).
  destruct (read_item item); simpl; [apply IH | congruence | apply IH].
Qed.

Lemma stored_skipped (items : list json) :
  Forall (fun item => read_item item = Skipped) items -> stored items = [].
Proof.
  induction 1 as [|item rest H _ IH]; [reflexivity|].
  unfold stored. simpl. rewrite H. exact IH.
Qed.

Lemma read_item_unhashable (item : json) :
  read_item item = Unhashable <-> container_index item.
Proof.
  unfold container_index. split.
  - destruct item as [| | | | |fields]; try discriminate. simpl.
    destruct (jget fields "section_index") as [|[]| | |l|o] eqn:E; try discriminate;
      intros _; exists fields; split; eauto.
  - intros (fields & -> & [[l E] | [o E]]); simpl; now rewrite E.
Qed.

Lemma read_item_skipped (item : json) : read_item item = Skipped <-> no_index item.
Proof.
  unfold no_index. split.
  - destruct item as [| | | | |fields]; try discriminate. simpl.
    destruct (jget fields "section_index") as [|[]| | | |] eqn:E; try discriminate.
    intros _ fields' [= <-]. exact E.
  - destruct item as [| | | | |fields]; try reflexivity.
    intros H. simpl. now rewrite (H fields eq_refl).
Qed.

Lemma read_item_stored (item : json) (k : key) (e : extraction) :
  read_item item = Stored k e <-> stores item k e.
Proof.
  unfold stores, key_of_index. split.
  - destruct item as [| | | | |fields]; try discriminate. simpl.
    destruct (jget fields "section_index") as [|[]|n|s| |] eqn:E; try discriminate;
      intros [= <- <-]; exists fields; split_and!; eauto 8.
  - intros (fields & -> & Hk & ->). simpl.
    destruct Hk as [(n & E & ->) | [[E ->] | [[E ->] | (s & E & ->)]]];
      now rewrite E.
Qed.

Lemma stores_functional (item : json) (k k' : key) (e e' : extraction) :
  stores item k e -> stores item k' e' -> k = k' /\ e = e'.
Proof.
  rewrite <- !read_item_stored. intros -> [= -> ->]. now split.
Qed.

Lemma last_stored_cons (item : json) (rest : list json) (k : key) (e : extraction) :
  last_stored (item :: rest) k e
  <-> (stores item k e /\ forall item' e', item' ∈ rest -> ~ stores item' k e')
      \/ last_stored rest k e.
Proof.
  unfold last_stored. split.
  - intros ([|x pre] & item0 & post & E & Hs & Hpost); simpl in E;
      injection E as <- ->; [left; now split | right; eauto 8].
  - intros [[Hs Hrest] | (pre & item0 & post & -> & Hs & Hpost)].
    + exists [], item, rest. now split_and!.
    + exists (item :: pre), item0, post. now split_and!.
Qed.

Lemma collect_lookup_shape (items : list json) (acc out : gmap key extraction)
    (k : key) (e : extraction) :
  collect items acc = Some out ->
  out !! k = Some e
  <-> last_stored items k e
      \/ (acc !! k = Some e /\ forall item e', item ∈ items -> ~ stores item k e').
Proof.
  revert acc; induction items as [|item rest IH]; intros acc; simpl.
  - intros [= <-]. split.
    + intros H. right. split; [exact H|]. intros item e' Hin. now apply elem_of_nil in Hin.
    + intros [([|x pre] & item & post & E & _) | [H _]]; [discriminate E.. | exact H].
  - assert (Hskip : (forall e', ~ stores item k e') ->
              forall acc', acc' !! k = acc !! k -> collect rest acc' = Some out ->
              out !! k = Some e
              <-> last_stored (item :: rest) k e
                  \/ (acc !! k = Some e
                      /\ forall item' e', item' ∈ item :: rest -> ~ stores item' k e')).
    { intros Hno acc' Hacc H. rewrite (IH _ H), Hacc, last_stored_cons. split.
      - intros [Hl | [Ha Hn]]; [left; now right|].
        right. split; [exact Ha|]. intros item' e' [-> | Hin]%elem_of_cons; eauto.
      - intros [[[Hs _] | Hl] | [Ha Hn]]; [now apply Hno in Hs | now left |].
        right. split; [exact Ha|]. intros item' e' Hin. apply Hn, elem_of_cons. now right. }
    destruct (read_item item) as [| |k' e0] eqn:E.
    + apply Hskip; [|reflexivity]. intros e' Hs. apply read_item_stored in Hs. congruence.
    + discriminate.
    + apply read_item_stored in E. destruct (decide (k' = k)) as [-> | Hne].
      * intros H. rewrite (IH _ H), lookup_insert_eq, last_stored_cons. split.
        -- intros [Hl | [[= <-] Hn]]; [left; now right | left; left; now split].
        -- intros [[[Hs Hn] | Hl] | [_ Hn]].
           ++ destruct (stores_functional _ _ _ _ _ E Hs) as [_ ->]. right. now split.
           ++ now left.
           ++ exfalso. apply (Hn item e0); [apply elem_of_cons; now left | exact E].
      * apply Hskip; [|now rewrite lookup_insert_ne].
        intros e' Hs. now destruct (stores_functional _ _ _ _ _ E Hs).
Qed.

Section BatchFacts.
Variable render_prompt : string -> string.
Variable chat_completion : string -> reply.
Variable json_loads : string -> option json.

Abbreviation call_llm_batch := (call_llm_batch render_prompt chat_completion json_loads).

(** C5, as the code has it. The result is empty for an empty batch, a
    failed call, a reply without text, a text that does not parse, and a
    parsed reply in which some object has a list or an object as its
    section index. In every other case a parsed value that is not an array
    counts as an array of one item, the items that are not objects or have
    no section index are skipped, and each remaining object is stored under
    its section index, the last object of an index replacing the earlier
    ones: a reply of scalars or of an array without usable objects gives an
    empty result, while a single object outside an array is stored. *)
Theorem call_llm_batch_spec (batch_inputs : list batch_input) :
  let reply := chat_completion (render_prompt (sections_block batch_inputs)) in
  (batch_inputs = [] -> call_llm_batch batch_inputs = ∅)
  /\ (reply = CallFailed -> call_llm_batch batch_inputs = ∅)
  /\ (reply = Content None \/ reply = Content (Some EmptyString) ->
      call_llm_batch batch_inputs = ∅)
  /\ (forall text,
        reply = Content (Some text) -> json_loads text = None ->
        call_llm_batch batch_inputs = ∅)
  /\ (forall text parsed,
        reply = Content (Some text) -> json_loads text = Some parsed ->
        Exists container_index (as_items parsed) ->
        call_llm_batch batch_inputs = ∅)
  /\ (forall text parsed,
        batch_inputs <> [] -> reply = Content (Some text) -> text <> EmptyString ->
        json_loads text = Some parsed ->
        ~ Exists container_index (as_items parsed) ->
        forall k e,
          call_llm_batch batch_inputs !! k = Some e <-> last_stored (as_items parsed) k e)
  /\ (forall text parsed,
        reply = Content (Some text) -> json_loads text = Some parsed ->
        Forall no_index (as_items parsed) ->
        call_llm_batch batch_inputs = ∅)
  /\ (forall text fields k,
        batch_inputs <> [] -> reply = Content (Some text) -> text <> EmptyString ->
        json_loads text = Some (JObj fields) ->
        key_of_index (jget fields "section_index") k ->
        call_llm_batch batch_inputs = {[ k := lists_of fields ]}).
Proof.
  cbv zeta. unfold Enrich.call_llm_batch. split_and!.
  - now intros ->.
  - intros ->. now destruct (is_empty _).
  - intros [-> | ->]; now destruct (is_empty _).
  - intros text -> ->. destruct (is_empty _); [reflexivity|].
    now destruct (String.eqb text EmptyString).
  - intros text parsed -> -> H. destruct (is_empty _); [reflexivity|].
    destruct (String.eqb text EmptyString); [reflexivity|].
    rewrite collect_unhashable; [reflexivity|].
    eapply Exists_impl; [exact H|]. intros item. apply read_item_unhashable.
  - intros text parsed Hb -> Ht -> H k e.
    destruct batch_inputs; [congruence|]. simpl.
    apply String.eqb_neq in Ht. rewrite Ht.
    fold (as_items parsed).
    destruct (collect (as_items parsed) ∅) as [out|] eqn:E.
    + rewrite (collect_lookup_shape _ _ _ k e E), lookup_empty. split.
      * intros [Hl | [Hn _]]; [exact Hl | discriminate Hn].
      * now left.
    + exfalso. rewrite collect_stored in E; [discriminate E|].
      apply Forall_forall. intros item Hin Hu. apply H, Exists_exists.
      exists item. split; [exact Hin | now apply read_item_unhashable].
  - intros text parsed -> -> H. destruct (is_empty _); [reflexivity|].
    destruct (String.eqb text EmptyString); [reflexivity|].
    rewrite collect_stored.
    + fold (as_items parsed). rewrite stored_skipped; [reflexivity|].
      eapply Forall_impl; [exact H|]. intros item. apply read_item_skipped.
    + eapply Forall_impl; [exact H|]. simpl. intros item Hn Hu.
      apply read_item_skipped in Hn. congruence.
  - intros text fields k Hb -> Ht -> H.
    destruct batch_inputs; [congruence|].
    change (is_empty (_ :: _)) with false. cbv iota.
    apply String.eqb_neq in Ht. rewrite Ht.
    change (collect [JObj fields] ∅)
      with (match read_item (JObj fields) with
            | Skipped => Some (∅ : gmap key extraction)
            | Unhashable => None
            | Stored k e => Some (<[k := e]> ∅)
            end).
    assert (Hs : read_item (JObj fields) = Stored k (lists_of fields)).
    { apply read_item_stored. exists fields. now split_and!. }
    rewrite Hs. reflexivity.
Qed.
End BatchFacts.

Lemma call_llm_batch_spec_witness :
  Enrich.call_llm_batch Scenarios.render_prompt Scenarios.chat_completion
    Scenarios.json_loads Scenarios.batch
  = {[ inl 0 := {| roles := JArr [JStr "keeper of a sarai"]; obligations := JArr [];
                   powers := JArr []; penalties := JArr []; rights := JArr [] |} ]}.
Proof.
  pose proof (call_llm_batch_spec Scenarios.render_prompt Scenarios.chat_completion
                Scenarios.json_loads Scenarios.batch) as H.
  cbv zeta in H. destruct H as (_ & _ & _ & _ & _ & _ & _ & H).
  refine (H "reply" _ (inl 0) _ eq_refl _ eq_refl _); try discriminate.
  left. exists 0. now split.
Defined.

(** The claim as the specification words it fails: the reply is not an
    array with one object per section, and section 0 of the batch is given
    a result all the same. *)
Lemma lone_object_counterexample :
  ~ one_object_per_section Scenarios.batch Scenarios.lone_object
  /\ Enrich.call_llm_batch Scenarios.render_prompt Scenarios.chat_completion
       Scenarios.json_loads Scenarios.batch <> ∅.
Proof.
  split.
  - intros (items & H & _). discriminate H.
  - intros H.
    assert (H0 : Enrich.call_llm_batch Scenarios.render_prompt Scenarios.chat_completion
                   Scenarios.json_loads Scenarios.batch !! (inl 0 : key) = None)
      by now rewrite H.
    vm_compute in H0. discriminate H0.
Qed.

(** *** Merging the roles *)

#[local] Instance str_le_total : Total str_le.
Proof. intros a b. apply String.leb_total. Qed.

Lemma elem_of_add_roles (existing : gset string) (new_roles : list json) (x : string) :
  x ∈ add_roles existing new_roles
  <-> x ∈ existing \/ exists r, JStr r ∈ new_roles /\ x = PyStr.strip r.
Proof.
  unfold add_roles. revert existing.
  induction new_roles as [|j rest IH]; intros existing; simpl.
  - split; [now left|]. intros [H | (r & Hr & _)]; [exact H|].
    now apply elem_of_nil in Hr.
  - rewrite IH. split.
    + intros [H | (r & Hr & ->)].
      * destruct j; try (now left).
        apply elem_of_union in H as [H | H]; [|now left].
        apply elem_of_singleton in H as ->.
        right. eexists. split; [apply elem_of_cons; now left | reflexivity].
      * right. exists r. split; [apply elem_of_cons; now right | reflexivity].
    + intros [H | (r & Hr & ->)].
      * left. destruct j; try exact H. apply elem_of_union. now right.
      * apply elem_of_cons in Hr as [<- | Hr].
        -- left. apply elem_of_union. left. now apply elem_of_singleton.
        -- right. eauto.
Qed.

(** C4, as the code has it. The merged role list is sorted and without
    repetition, and holds exactly the roles the section had and the new
    string roles with surrounding white space removed; names are compared
    as they are spelled. When every new name is already in the list under
    the same spelling, the merged list has the entries of the old one and
    no other. *)
Theorem merge_semantics_roles (sec sec' : section) (llm_result : extraction)
    (new_roles : list json) :
  py_iter (or_list (roles llm_result)) = Some new_roles ->
  merge_semantics sec llm_result = Some sec' ->
  (forall x, x ∈ sec_roles sec'
             <-> x ∈ sec_roles sec \/ exists r, JStr r ∈ new_roles /\ x = PyStr.strip r)
  /\ NoDup (sec_roles sec')
  /\ Sorted str_le (sec_roles sec')
  /\ ((forall r, JStr r ∈ new_roles -> PyStr.strip r ∈ sec_roles sec) ->
      NoDup (sec_roles sec) -> sec_roles sec' ≡ₚ sec_roles sec).
Proof.
  intros Hiter Hmerge. unfold merge_semantics in Hmerge. rewrite Hiter in Hmerge.
  simpl in Hmerge.
  destruct (py_iter (or_list (obligations llm_result))); [|discriminate].
  destruct (py_iter (or_list (powers llm_result))); [|discriminate].
  destruct (py_iter (or_list (penalties llm_result))); [|discriminate].
  destruct (py_iter (or_list (rights llm_result))); [|discriminate].
  simpl in Hmerge. injection Hmerge as <-. simpl.
  assert (Hmem : forall x,
             x ∈ merge_sort str_le (elements (add_roles (list_to_set (sec_roles sec)) new_roles))
             <-> x ∈ sec_roles sec \/ exists r, JStr r ∈ new_roles /\ x = PyStr.strip r).
  { intros x. rewrite merge_sort_Permutation, elem_of_elements, elem_of_add_roles.
    now rewrite elem_of_list_to_set. }
  assert (Hnd : NoDup (merge_sort str_le
                         (elements (add_roles (list_to_set (sec_roles sec)) new_roles)))).
  { rewrite merge_sort_Permutation. apply NoDup_elements. }
  split_and!.
  - exact Hmem.
  - exact Hnd.
  - apply Sorted_merge_sort. apply _.
  - intros Hold Hnd0. apply NoDup_Permutation; [exact Hnd | exact Hnd0 |].
    intros x. rewrite Hmem. split; [|now left].
    intros [H | (r & Hr & ->)]; [exact H | now apply Hold].
Qed.

Lemma merge_semantics_roles_witness :
  exists sec',
    merge_semantics Scenarios.magistrate_section
      (Extraction (JArr [JStr " Magistrate "]) (JArr []) (JArr []) (JArr []) (JArr []))
    = Some sec'
    /\ sec_roles sec' ≡ₚ ["Magistrate"].
Proof.
  set (res := Extraction (JArr [JStr " Magistrate "]) (JArr []) (JArr []) (JArr []) (JArr [])).
  set (sec' := default Scenarios.magistrate_section
                 (merge_semantics Scenarios.magistrate_section res)).
  assert (Hm : merge_semantics Scenarios.magistrate_section res = Some sec')
    by (vm_compute; reflexivity).
  exists sec'. split; [exact Hm|].
  apply (merge_semantics_roles Scenarios.magistrate_section sec' res
           [JStr " Magistrate "] eq_refl Hm).
  - intros r Hr. apply list_elem_of_singleton in Hr. injection Hr as ->.
    apply list_elem_of_singleton. reflexivity.
  - apply NoDup_singleton.
Defined.

(** The claim as the specification words it fails: the section has the
    role under another letter case, and the merged list has a second entry
    for it. *)
Lemma letter_case_counterexample :
  PyStr.lower "magistrate" = PyStr.lower "Magistrate"
  /\ "Magistrate" ∈ sec_roles Scenarios.magistrate_section
  /\ JStr "magistrate" ∈ [JStr "magistrate"]
  /\ option_map sec_roles
       (merge_semantics Scenarios.magistrate_section Scenarios.magistrate_result)
     = Some ["Magistrate"; "magistrate"].
Proof.
  split_and!.
  - reflexivity.
  - apply list_elem_of_singleton. reflexivity.
  - apply list_elem_of_singleton. reflexivity.
  - vm_compute. reflexivity.
Qed.

End EnrichFacts.

(** ** Graph enrichment *)

Module GraphEnrichFacts.
Import GraphEnrich.
Local Open Scope list_scope.

(** *** Counting rows *)

Lemma occurrences_NoDup {A} `{EqDecision A} (l : list A) (p : A) :
  NoDup l ->
  length (filter (fun q => q = p) l) = if decide (p ∈ l) then 1%nat else 0%nat.
Proof.
  induction 1 as [|q l Hq _ IH].
  - rewrite decide_False by apply not_elem_of_nil. reflexivity.
  - rewrite filter_cons. destruct (decide (q = p)) as [-> | Hne]; simpl.
    + rewrite IH, decide_False by exact Hq.
      rewrite decide_True by (apply elem_of_cons; now left). reflexivity.
    + rewrite IH. destruct (decide (p ∈ l)) as [Hin | Hnin].
      * rewrite decide_True by (apply elem_of_cons; now right). reflexivity.
      * rewrite decide_False; [reflexivity|].
        rewrite not_elem_of_cons. split; [congruence | exact Hnin].
Qed.

Lemma occurrences_bind {A B} `{EqDecision B} (f : A -> list B) (l : list A) (p : B) :
  (forall s, NoDup (f s)) ->
  length (filter (fun q => q = p) (l ≫= f)) = length (filter (fun s => p ∈ f s) l).
Proof.
  intros Hf. induction l as [|s l IH]; [reflexivity|].
  rewrite bind_cons, filter_app, length_app, IH, occurrences_NoDup by apply Hf.
  rewrite filter_cons. destruct (decide (p ∈ f s)); reflexivity.
Qed.

Lemma elem_of_targets (edges : list (nat * nat)) (s r : nat) :
  r ∈ targets edges s <-> (s, r) ∈ edges.
Proof.
  unfold targets. rewrite list_elem_of_fmap. split.
  - intros ([s' r'] & -> & H). apply list_elem_of_filter in H as [Hs H].
    simpl in Hs. now subst s'.
  - intros H. exists (s, r). split; [reflexivity|].
    apply list_elem_of_filter. now split.
Qed.

Lemma elem_of_role_pairs (roles : list nat) (a b : nat) :
  (a, b) ∈ role_pairs roles <-> a ∈ roles /\ b ∈ roles /\ (a < b)%nat.
Proof.
  unfold role_pairs. rewrite list_elem_of_bind. split.
  - intros (r1 & H & Hr1). apply list_elem_of_bind in H as (r2 & H & Hr2).
    destruct (r1 <? r2)%nat eqn:E; [|now apply elem_of_nil in H].
    apply list_elem_of_singleton in H. injection H as -> ->.
    apply Nat.ltb_lt in E. tauto.
  - intros (Ha & Hb & Hlt). exists a. split; [|exact Ha].
    apply list_elem_of_bind. exists b. split; [|exact Hb].
    apply Nat.ltb_lt in Hlt. rewrite Hlt. now apply list_elem_of_singleton.
Qed.

Lemma NoDup_role_pairs (roles : list nat) : NoDup roles -> NoDup (role_pairs roles).
Proof.
  intros Hnd. unfold role_pairs. apply NoDup_bind; [| |exact Hnd].
  - intros r1 r1' [a b] _ _ H H'.
    apply list_elem_of_bind in H as (r2 & H & _).
    apply list_elem_of_bind in H' as (r2' & H' & _).
    destruct (r1 <? r2)%nat; [|now apply elem_of_nil in H].
    destruct (r1' <? r2')%nat; [|now apply elem_of_nil in H'].
    apply list_elem_of_singleton in H, H'. congruence.
  - intros r1 _. apply NoDup_bind; [| |exact Hnd].
    + intros r2 r2' [a b] _ _ H H'.
      destruct (r1 <? r2)%nat; [|now apply elem_of_nil in H].
      destruct (r1 <? r2')%nat; [|now apply elem_of_nil in H'].
      apply list_elem_of_singleton in H, H'. congruence.
    + intros r2 _. destruct (r1 <? r2)%nat; [apply NoDup_singleton | apply NoDup_nil_2].
Qed.

(** A pair occurs once among the rows of every section that mentions
    both roles. *)
Lemma occurrences_rows (edges : list (nat * nat)) (r1 r2 : nat) :
  (r1 < r2)%nat ->
  length (filter (fun q => q = (r1, r2)) (cooccurrence_rows edges))
  = co_mentions edges r1 r2.
Proof.
  intros Hlt. unfold cooccurrence_rows, co_mentions.
  rewrite occurrences_bind by (intros s; apply NoDup_role_pairs, NoDup_remove_dups).
  f_equal. apply list_filter_iff. intros s.
  rewrite elem_of_role_pairs, !elem_of_remove_dups, !elem_of_targets. tauto.
Qed.

Lemma occurrences_rows_perm (edges edges' : list (nat * nat)) (p : nat * nat) :
  edges ≡ₚ edges' ->
  length (filter (fun q => q = p) (cooccurrence_rows edges))
  = length (filter (fun q => q = p) (cooccurrence_rows edges')).
Proof.
  intros Hperm. unfold cooccurrence_rows.
  rewrite !occurrences_bind by (intros s; apply NoDup_role_pairs, NoDup_remove_dups).
  assert (Hsrc : sources edges ≡ₚ sources edges').
  { apply NoDup_Permutation; try apply NoDup_remove_dups.
    intros s. unfold sources. rewrite !elem_of_remove_dups. now rewrite Hperm. }
  rewrite Hsrc. f_equal. apply list_filter_iff. intros s. destruct p as [a b].
  rewrite !elem_of_role_pairs, !elem_of_remove_dups, !elem_of_targets.
  now rewrite Hperm.
Qed.

Lemma lookup_merge_co_occurs (c : gmap (nat * nat) Z) (q p : nat * nat) :
  merge_co_occurs c q !! p
  = if decide (q = p) then Some (default 0 (c !! p) + 1) else c !! p.
Proof.
  unfold merge_co_occurs. destruct (decide (q = p)) as [-> | Hne].
  - destruct (c !! p) eqn:E; rewrite lookup_insert_eq; simpl; f_equal; lia.
  - destruct (c !! q); now rewrite lookup_insert_ne.
Qed.

(** The count after the rows have been merged: what it was plus the
    number of rows for the pair. *)
Lemma lookup_fold_merge (rows : list (nat * nat)) (c : gmap (nat * nat) Z) (p : nat * nat) :
  foldl merge_co_occurs c rows !! p
  = match length (filter (fun q => q = p) rows) with
    | O => c !! p
    | n => Some (default 0 (c !! p) + Z.of_nat n)
    end.
Proof.
  revert c; induction rows as [|q rows IH]; intros c; [reflexivity|].
  simpl foldl. rewrite IH, lookup_merge_co_occurs, filter_cons.
  destruct (decide (q = p)) as [-> | Hne]; simpl.
  - destruct (length _); simpl; f_equal; lia.
  - reflexivity.
Qed.

Lemma mentions_role_iter (k : nat) (g : graph) :
  mentions_role (Nat.iter k add_role_cooccurrence g) = mentions_role g.
Proof. induction k as [|k IH]; [reflexivity | exact IH]. Qed.

(** C6, as the code has it. Let two roles be mentioned together in N
    distinct sections, N at least 1. One run of the pass adds N to the
    count of their edge, whatever the order of the matched rows: on a
    graph without co-occurrence edges the count is N after the run.
    Each run adds N again: after k runs from such a graph the count is
    k times N. *)
Theorem cooccurrence_count (g : graph) (r1 r2 : nat) :
  (r1 < r2)%nat ->
  let N := co_mentions (mentions_role g) r1 r2 in
  N <> 0%nat ->
  co_occurs_with (add_role_cooccurrence g) !! (r1, r2)
  = Some (default 0 (co_occurs_with g !! (r1, r2)) + Z.of_nat N)
  /\ (co_occurs_with g = ∅ ->
      co_occurs_with (add_role_cooccurrence g) !! (r1, r2) = Some (Z.of_nat N))
  /\ (forall g',
        mentions_role g' ≡ₚ mentions_role g ->
        co_occurs_with g' = co_occurs_with g ->
        co_occurs_with (add_role_cooccurrence g')
        = co_occurs_with (add_role_cooccurrence g))
  /\ (forall k,
        co_occurs_with g = ∅ -> k <> 0%nat ->
        co_occurs_with (Nat.iter k add_role_cooccurrence g) !! (r1, r2)
        = Some (Z.of_nat k * Z.of_nat N)).
Proof.
  intros Hlt N HN.
  assert (Hrun : forall g0, mentions_role g0 = mentions_role g ->
            co_occurs_with (add_role_cooccurrence g0) !! (r1, r2)
            = Some (default 0 (co_occurs_with g0 !! (r1, r2)) + Z.of_nat N)).
  { intros g0 Hg0. unfold add_role_cooccurrence. simpl.
    rewrite lookup_fold_merge, Hg0, occurrences_rows by exact Hlt.
    fold N. destruct N; [congruence | reflexivity]. }
  split_and!.
  - now apply Hrun.
  - intros Hempty. rewrite Hrun by reflexivity. rewrite Hempty, lookup_empty.
    simpl. f_equal.
  - intros g' Hperm Hco. unfold add_role_cooccurrence. simpl.
    apply map_eq. intros p. rewrite !lookup_fold_merge, Hco.
    now rewrite (occurrences_rows_perm _ _ p Hperm).
  - intros k Hempty Hk. destruct k as [|k]; [congruence|]. clear Hk.
    induction k as [|k IH].
    + change (Nat.iter 1 add_role_cooccurrence g) with (add_role_cooccurrence g).
      rewrite Hrun by reflexivity. rewrite Hempty, lookup_empty.
      simpl. f_equal. lia.
    + change (Nat.iter (S (S k)) add_role_cooccurrence g)
        with (add_role_cooccurrence (Nat.iter (S k) add_role_cooccurrence g)).
      rewrite Hrun by apply mentions_role_iter. rewrite IH. simpl. f_equal. lia.
Qed.

Lemma cooccurrence_count_witness :
  co_occurs_with (add_role_cooccurrence Scenarios.pair_graph) !! (1, 2)%nat = Some 1
  /\ co_occurs_with (Nat.iter 3 add_role_cooccurrence Scenarios.pair_graph) !! (1, 2)%nat
     = Some 3.
Proof.
  assert (Hlt : (1 < 2)%nat) by lia.
  assert (HN : co_mentions (mentions_role Scenarios.pair_graph) 1 2 <> 0%nat)
    by (vm_compute; discriminate).
  destruct (cooccurrence_count Scenarios.pair_graph 1 2 Hlt HN) as (_ & H1 & _ & Hk).
  split.
  - exact (H1 eq_refl).
  - apply (Hk 3%nat); [reflexivity | discriminate].
Defined.

(** The claim as the specification words it fails: the two roles are
    mentioned together in one section, and after a second run on the
    unchanged graph the count is 2. *)
Lemma rerun_counterexample :
  co_mentions (mentions_role Scenarios.pair_graph) 1 2 = 1%nat
  /\ co_occurs_with
       (add_role_cooccurrence (add_role_cooccurrence Scenarios.pair_graph)) !! (1, 2)%nat
     = Some 2.
Proof. split; vm_compute; reflexivity. Qed.

(** *** Severity scores *)

Lemma lookup_set_prop (props : gmap nat node) (n m : nat) (k key : string) (v : prop) :
  set_prop props n k v !! m ≫= (fun p => p !! key)
  = if decide (m = n /\ key = k) then Some v else props !! m ≫= (fun p => p !! key).
Proof.
  unfold set_prop. destruct (decide (m = n)) as [-> | Hne].
  - rewrite lookup_insert_eq. simpl. destruct (decide (key = k)) as [-> | Hk].
    + rewrite lookup_insert_eq. now rewrite decide_True.
    + rewrite lookup_insert_ne by congruence. rewrite decide_False by tauto.
      destruct (props !! n); reflexivity.
  - rewrite lookup_insert_ne by congruence. now rewrite decide_False by tauto.
Qed.

Lemma lookup_fold_set_prop (f : nat -> Z) (l : list nat) (props : gmap nat node)
    (m : nat) (key : string) :
  foldl (fun props s => set_prop props s "severity_score" (PInt (f s))) props l !! m
    ≫= (fun p => p !! key)
  = if decide (m ∈ l /\ key = "severity_score") then Some (PInt (f m))
    else props !! m ≫= (fun p => p !! key).
Proof.
  revert props; induction l as [|s l IH]; intros props.
  - rewrite decide_False; [reflexivity|]. intros [H _]. now apply elem_of_nil in H.
  - simpl foldl. rewrite IH, lookup_set_prop.
    destruct (decide (m ∈ l /\ key = "severity_score")) as [[Hin Hk] | Hn].
    + rewrite decide_True; [reflexivity|]. split; [apply elem_of_cons; now right | exact Hk].
    + destruct (decide (m = s /\ key = "severity_score")) as [[-> Hk] | Hn'].
      * rewrite decide_True; [reflexivity|]. split; [apply elem_of_cons; now left | exact Hk].
      * rewrite decide_False; [reflexivity|]. rewrite elem_of_cons. tauto.
Qed.

Lemma read_add_severity_scores (g : graph) (m : nat) (key : string) :
  read (add_severity_scores g) m key
  = if decide (m ∈ sources (prescribes_penalty g) /\ key = "severity_score")
    then Some (PInt (severity g m)) else read g m key.
Proof. unfold read, add_severity_scores. simpl. apply lookup_fold_set_prop. Qed.

Lemma severity_add_severity_scores (g : graph) (s : nat) :
  severity (add_severity_scores g) s = severity g s.
Proof.
  unfold severity. simpl. do 2 f_equal. apply map_ext. intros p.
  unfold penalty_weight. rewrite !read_add_severity_scores.
  rewrite !decide_False by (intros [_ H]; discriminate H). reflexivity.
Qed.

Lemma iter_add_severity_scores (n : nat) (g : graph) (s : nat) :
  prescribes_penalty (Nat.iter n add_severity_scores g) = prescribes_penalty g
  /\ severity (Nat.iter n add_severity_scores g) s = severity g s.
Proof.
  induction n as [|n [IHp IHs]]; [now split|]. simpl. split; [exact IHp|].
  now rewrite severity_add_severity_scores.
Qed.

(** C3. For a section with at least one penalty, after the pass has run
    any number of times (at least once) the severity score of the section
    is the sum over its penalties of 2 for a term of imprisonment that is
    set and not empty plus 1 for a fine amount that is set and not empty,
    plus the number of its penalties, whatever score the section had
    before. *)
Theorem severity_score_set (g : graph) (s : nat) (n : nat) :
  s ∈ map fst (prescribes_penalty g) -> n <> 0%nat ->
  let pens := targets (prescribes_penalty g) s in
  read (Nat.iter n add_severity_scores g) s "severity_score"
  = Some (PInt (sum_Z (map (fun p =>
                              (if present (read g p "imprisonment") then 2 else 0)
                              + (if present (read g p "fine_amount") then 1 else 0)) pens)
                + Z.of_nat (length pens)))
  /\ pens <> [].
Proof.
  intros Hs Hn pens. split.
  - destruct n as [|n]; [congruence|]. simpl.
    rewrite read_add_severity_scores.
    destruct (iter_add_severity_scores n g s) as [Hp Hsev].
    rewrite Hp, Hsev. rewrite decide_True; [reflexivity|].
    split; [|reflexivity]. unfold sources. now apply elem_of_remove_dups.
  - apply list_elem_of_fmap in Hs as ([s' p] & -> & Hin).
    assert (H : p ∈ pens) by now apply elem_of_targets.
    intros E. rewrite E in H. now apply elem_of_nil in H.
Qed.

Lemma severity_score_set_witness :
  read (add_severity_scores (add_severity_scores Scenarios.penal_graph)) 0 "severity_score"
  = Some (PInt 5).
Proof.
  refine (proj1 (severity_score_set Scenarios.penal_graph 0 2 _ _)).
  - apply elem_of_cons. now left.
  - discriminate.
Defined.

End GraphEnrichFacts.

(** * Further properties *)

(** ** Reciprocal rank fusion: errors and the shape of the result *)

Module SearchMore.
Import Search.
Local Open Scope list_scope.

Lemma elem_of_first_seen (ids : list Z) (x : Z) : x ∈ first_seen ids <-> x ∈ ids.
Proof.
  induction ids as [|a ids IH]; simpl; [reflexivity|].
  rewrite !elem_of_cons, list_elem_of_filter, IH.
  destruct (decide (x = a)); tauto.
Qed.

Section Fusion.
Context {T : Type}.
Variable zero : T.
Variable add : T -> T -> T.
Variable recip : Z -> T.
Variable ltb : T -> T -> bool.

Abbreviation accumulate := (accumulate zero add recip).
Abbreviation accumulate_pure := (accumulate_pure zero add recip).
Abbreviation rrf_scores := (rrf_scores zero add recip).
Abbreviation rrf_fuse := (rrf_fuse zero add recip ltb).

Lemma accumulate_raises (k_rrf rank : Z) (rs : list (@hit T)) (scores : @scores_t T) :
  accumulate k_rrf rank rs scores = None
  <-> rank <= - k_rrf - 1 < rank + Z.of_nat (length rs).
Proof.
  revert rank scores; induction rs as [|r rs IH]; intros rank scores; simpl.
  - split; [discriminate | lia].
  - destruct (k_rrf + rank + 1 =? 0) eqn:E.
    + apply Z.eqb_eq in E. split; [lia | reflexivity].
    + apply Z.eqb_neq in E. rewrite IH. lia.
Qed.

(** X1. Where no denominator leaves the range of a float
    ([SearchSpec.float_safe] for both lists), [rrf_fuse] raises exactly
    when [k_rrf] is negative and one of the two lists is long enough to
    reach the rank [-k_rrf - 1], whose denominator is zero: the error is
    the [ZeroDivisionError], and with [k_rrf] not negative there is none. *)
Theorem rrf_fuse_raises (vec lex : list (@hit T)) (k_rrf top_k : Z) :
  SearchSpec.float_safe k_rrf (length vec) ->
  SearchSpec.float_safe k_rrf (length lex) ->
  rrf_fuse vec lex k_rrf top_k = None
  <-> 0 <= - k_rrf - 1 < Z.of_nat (length vec)
      \/ 0 <= - k_rrf - 1 < Z.of_nat (length lex).
Proof.
  intros _ _. unfold Search.rrf_fuse, Search.rrf_scores.
  destruct (accumulate k_rrf 0 vec []) as [s1|] eqn:E1.
  - assert (H1 : ~ (0 <= - k_rrf - 1 < 0 + Z.of_nat (length vec))).
    { rewrite <- (accumulate_raises k_rrf 0 vec []). congruence. }
    destruct (accumulate k_rrf 0 lex s1) as [s2|] eqn:E2.
    + assert (H2 : ~ (0 <= - k_rrf - 1 < 0 + Z.of_nat (length lex))).
      { rewrite <- (accumulate_raises k_rrf 0 lex s1). congruence. }
      split; [discriminate | lia].
    + apply accumulate_raises in E2. split; [lia | reflexivity].
  - apply accumulate_raises in E1. split; [lia | reflexivity].
Qed.

Lemma keys_rrf_scores (vec lex : list (@hit T)) (k_rrf : Z) :
  0 <= k_rrf ->
  exists scores,
    rrf_scores vec lex k_rrf = Some scores
    /\ map fst scores = first_seen (map sid vec ++ map sid lex).
Proof.
  intros Hk. exists (accumulate_pure k_rrf 0 lex (accumulate_pure k_rrf 0 vec [])).
  unfold Search.rrf_scores.
  rewrite (SearchFacts.accumulate_some zero add recip k_rrf 0 vec []) by lia.
  rewrite (SearchFacts.accumulate_some zero add recip k_rrf 0 lex) by lia.
  split; [reflexivity|].
  rewrite !(SearchFacts.keys_accumulate_pure zero add recip ltb). simpl.
  rewrite <- foldl_app, SearchFacts.first_seen_fold. simpl.
  apply SearchFacts.filter_not_elem_of_nil.
Qed.

Lemma rrf_fuse_take (vec lex : list (@hit T)) (k_rrf top_k : Z) :
  0 <= k_rrf -> 0 <= top_k ->
  exists keys,
    rrf_fuse vec lex k_rrf top_k = Some (take (Z.to_nat top_k) keys)
    /\ keys ≡ₚ first_seen (map sid vec ++ map sid lex).
Proof.
  intros Hk Htop. destruct (keys_rrf_scores vec lex k_rrf Hk) as (scores & Hs & Hkeys).
  exists (map fst (sorted_desc ltb scores)). split.
  - unfold Search.rrf_fuse. rewrite Hs. unfold list_slice_to.
    destruct (top_k <? 0) eqn:E; [lia|]. now rewrite <- firstn_map.
  - rewrite <- Hkeys. apply Permutation_map, SearchFacts.sorted_desc_perm.
Qed.

(** X2. With [k_rrf] and [top_k] not negative and no denominator beyond
    the range of a float ([SearchSpec.float_safe] for both lists),
    [rrf_fuse] returns a list without repeated ids, each of which occurs
    in one of the two inputs, and whose length is the smaller of [top_k]
    and the number of distinct input ids. *)
Theorem rrf_fuse_result (vec lex : list (@hit T)) (k_rrf top_k : Z) :
  0 <= k_rrf -> 0 <= top_k ->
  SearchSpec.float_safe k_rrf (length vec) ->
  SearchSpec.float_safe k_rrf (length lex) ->
  exists ids,
    rrf_fuse vec lex k_rrf top_k = Some ids
    /\ NoDup ids
    /\ (forall id, id ∈ ids -> id ∈ map sid vec \/ id ∈ map sid lex)
    /\ length ids
       = Nat.min (Z.to_nat top_k) (length (first_seen (map sid vec ++ map sid lex))).
Proof.
  intros Hk Htop _ _.
  destruct (rrf_fuse_take vec lex k_rrf top_k Hk Htop) as (keys & Hf & Hperm).
  eexists. split; [exact Hf|].
  assert (Hnd : NoDup keys).
  { rewrite Hperm. apply SearchFacts.NoDup_first_seen. }
  split_and!.
  - exact (sublist_NoDup _ _ Hnd (sublist_take _ _)).
  - intros id Hid.
    assert (Hin : id ∈ keys).
    { apply elem_of_take in Hid as (i & Hi & _). eapply list_elem_of_lookup_2, Hi. }
    rewrite Hperm, elem_of_first_seen, elem_of_app in Hin. exact Hin.
  - rewrite length_take. f_equal. now rewrite Hperm.
Qed.

(** X3. With [k_rrf] not negative and [top_k] positive, the fused list is
    empty exactly when both searches returned nothing: this is the only
    case in which the fallback tiers are tried. *)
Theorem rrf_fuse_empty (vec lex : list (@hit T)) (k_rrf top_k : Z) :
  0 <= k_rrf -> 0 < top_k ->
  rrf_fuse vec lex k_rrf top_k = Some [] <-> vec = [] /\ lex = [].
Proof.
  intros Hk Htop.
  destruct (rrf_fuse_take vec lex k_rrf top_k Hk ltac:(lia)) as (keys & Hf & Hperm).
  rewrite Hf. apply Permutation_length in Hperm. split.
  - intros [= E]. apply (f_equal length) in E. rewrite length_take in E. simpl in E.
    destruct vec as [|v vec]; [destruct lex as [|l lex]; [now split|]|];
      simpl in Hperm; lia.
  - intros [-> ->]. simpl in Hperm. destruct keys; [|discriminate].
    now rewrite take_nil.
Qed.
End Fusion.

Lemma rrf_fuse_result_witness :
  exists ids,
    RationalScores.fuse RationalScores.vector_ranks RationalScores.lexical_ranks 60 3
    = Some ids
    /\ NoDup ids /\ length ids = 3%nat.
Proof.
  destruct (rrf_fuse_result RationalScores.zero Qplus RationalScores.recip
              RationalScores.ltb RationalScores.vector_ranks
              RationalScores.lexical_ranks 60 3 ltac:(lia) ltac:(lia)
              ltac:(vm_compute; reflexivity) ltac:(vm_compute; reflexivity))
    as (ids & Hf & Hnd & _ & Hlen).
  exists ids. split; [exact Hf|]. split; [exact Hnd|]. exact Hlen.
Defined.

Lemma rrf_fuse_empty_witness :
  RationalScores.fuse [] [] 60 10 = Some [].
Proof.
  apply (rrf_fuse_empty RationalScores.zero Qplus RationalScores.recip
           RationalScores.ltb [] [] 60 10); [lia | lia | now split].
Defined.

Lemma rrf_fuse_raises_witness :
  RationalScores.fuse RationalScores.vector_ranks [] (-2) 10 = None.
Proof.
  apply (rrf_fuse_raises RationalScores.zero Qplus RationalScores.recip
           RationalScores.ltb);
    [vm_compute; reflexivity | vm_compute; reflexivity |].
  left. simpl. lia.
Defined.

End SearchMore.

(** ** The explicit locator *)

Module LocatorFacts.
Import Locator.

Lemma span_fst_forall (p : ascii -> bool) (s : string) :
  str_forall p (fst (Segmenter.span p s)) = true.
Proof.
  induction s as [|c s IH]; simpl; [reflexivity|].
  destruct (p c) eqn:E; [|reflexivity].
  destruct (Segmenter.span p s) as [a b]. simpl in *. now rewrite E, IH.
Qed.

Lemma str_map_app (f : ascii -> ascii) (a b : string) :
  str_map f (a ++ b) = str_map f a ++ str_map f b.
Proof.
  induction a as [|c a IH]; [reflexivity|].
  change (String (f c) (str_map f (a ++ b)) = String (f c) (str_map f a ++ str_map f b)).
  now rewrite IH.
Qed.

Lemma str_forall_app (p : ascii -> bool) (a b : string) :
  str_forall p (a ++ b) = str_forall p a && str_forall p b.
Proof.
  induction a as [|c a IH]; [reflexivity|].
  change (p c && str_forall p (a ++ b) = p c && str_forall p a && str_forall p b).
  rewrite IH. now rewrite andb_assoc.
Qed.

Lemma upper_digit (c : ascii) :
  Segmenter.is_digit c = true -> ascii_upper c = c.
Proof.
  destruct c as [[] [] [] [] [] [] [] []]; vm_compute; congruence.
Qed.

Lemma upper_suffix_char (c : ascii) :
  is_suffix_char c = true -> is_locator_char (ascii_upper c) = true.
Proof.
  destruct c as [[] [] [] [] [] [] [] []]; vm_compute; congruence.
Qed.

Lemma digit_locator_char (c : ascii) :
  Segmenter.is_digit c = true -> is_locator_char c = true.
Proof.
  destruct c as [[] [] [] [] [] [] [] []]; vm_compute; congruence.
Qed.

Lemma str_forall_upper_digits (s : string) :
  str_forall Segmenter.is_digit s = true ->
  str_map ascii_upper s = s /\ str_forall is_locator_char s = true.
Proof.
  induction s as [|c s IH]; simpl; [now split|].
  intros H. apply andb_true_iff in H as [Hc Hs]. destruct (IH Hs) as [IH1 IH2].
  now rewrite (upper_digit c Hc), IH1, (digit_locator_char c Hc), IH2.
Qed.

Lemma str_forall_upper_suffix (s : string) :
  str_forall is_suffix_char s = true ->
  str_forall is_locator_char (str_map ascii_upper s) = true.
Proof.
  induction s as [|c s IH]; simpl; [reflexivity|].
  intros H. apply andb_true_iff in H as [Hc Hs].
  now rewrite (upper_suffix_char c Hc), (IH Hs).
Qed.

Lemma match_locator_shape (s group : string) :
  match_locator s = Some group ->
  exists d digits suffix,
    group = String d digits ++ suffix
    /\ str_forall Segmenter.is_digit (String d digits) = true
    /\ str_forall is_suffix_char suffix = true.
Proof.
  unfold match_locator.
  destruct (match strip_prefix_ci "article" s with
            | Some rest => Some rest
            | None => strip_prefix_ci "section" s
            end) as [rest|]; [|discriminate].
  destruct (Segmenter.span PyStr.is_space rest) as [ws rest1].
  destruct (String.eqb ws EmptyString); [discriminate|].
  pose proof (span_fst_forall Segmenter.is_digit rest1) as Hd.
  destruct (Segmenter.span Segmenter.is_digit rest1) as [digits rest2].
  destruct digits as [|d digits]; [discriminate|]. simpl String.eqb.
  pose proof (span_fst_forall is_suffix_char rest2) as Hs.
  destruct (Segmenter.span is_suffix_char rest2) as [suffix rest3].
  intros [= <-]. exists d, digits, suffix.
  split_and!; [reflexivity | exact Hd | exact Hs].
Qed.

Lemma search_locator_found (prev_word : bool) (s group : string) :
  search_locator prev_word s = Some group ->
  exists s', match_locator s' = Some group.
Proof.
  revert prev_word; induction s as [|c s IH]; intros prev_word; simpl; [discriminate|].
  destruct (if prev_word then None else match_locator (String c s)) as [g|] eqn:E.
  - intros [= <-]. destruct prev_word; [discriminate|]. eauto.
  - apply IH.
Qed.

(** X4. For a query whose code points are all below 256: whenever
    [extract_article_id] finds a locator, it begins with one of the digits
    0 to 9 and consists of those digits, capital ASCII letters and hyphens
    only; in particular it is never the empty string, so the test of the
    first fallback sees every detected locator as true. *)
Theorem extract_article_id_shape (query : list N) (id : string) :
  latin1 query ->
  extract_article_id (of_code_points query) = Some id ->
  (exists d rest, id = String d rest /\ Segmenter.is_digit d = true)
  /\ str_forall is_locator_char id = true
  /\ truthy_str (Some id) = true.
Proof.
  intros _. generalize (of_code_points query). clear query. intros query.
  unfold extract_article_id.
  destruct (search_locator false query) as [group|] eqn:E; [|discriminate].
  intros [= <-].
  apply search_locator_found in E as (s' & E).
  apply match_locator_shape in E as (d & digits & suffix & -> & Hd & Hs).
  rewrite str_map_app. destruct (str_forall_upper_digits _ Hd) as [Hu Hl].
  rewrite Hu. simpl in Hd. apply andb_true_iff in Hd as [Hd0 _].
  split_and!.
  - exists d, (digits ++ str_map ascii_upper suffix). split; [reflexivity | exact Hd0].
  - rewrite str_forall_app, Hl. now rewrite str_forall_upper_suffix.
  - reflexivity.
Qed.

Lemma extract_article_id_shape_witness :
  latin1 (code_points "what does article 24-a say")
  /\ extract_article_id (of_code_points (code_points "what does article 24-a say"))
     = Some "24-A"
  /\ str_forall is_locator_char "24-A" = true.
Proof.
  assert (H : latin1 (code_points "what does article 24-a say"))
    by (vm_compute; repeat constructor).
  split_and!; [exact H | reflexivity|].
  exact (proj1 (proj2 (extract_article_id_shape
                         (code_points "what does article 24-a say") "24-A" H eq_refl))).
Defined.

End LocatorFacts.

(** ** The retrieval tool: what it returns *)

Module GraphRAGMore.
Import GraphRAG.
Local Open Scope list_scope.

Section Tool.
Context {T : Type}.
Variable zero : T.
Variable add : T -> T -> T.
Variable recip : Z -> T.
Variable ltb : T -> T -> bool.
Variable svc : @services T.

Ltac absent :=
  let H := fresh in
  intros H;
  repeat (apply elem_of_cons in H as [H | H]; [discriminate H|]);
  now apply elem_of_nil in H.

Ltac present := repeat (apply elem_of_cons; first [now left | right]).

Ltac tool_side :=
  solve
    [ discriminate
    | intros _; absent
    | intros _; reflexivity
    | let H := fresh in intros H; exfalso; apply H; present ].

Ltac tool_case :=
  solve
    [ discriminate
    | reflexivity
    | split; tool_side
    | intros _; split_and!; [present | present | reflexivity]
    | let text := fresh in
      let H := fresh in
      intros text H; injection H as <-; eexists; split; [|reflexivity]; discriminate ].

(** X5. The tool never lets the fusion raise, and it begins with the
    vector search and the lexical search. It returns the no-evidence
    sentence exactly when it neither fetches a graph context nor asks for
    an answer, and then the second and the third fallback have both run
    and the act-title query found nothing. An answer is always produced
    from the context of a list of section ids that is not empty. *)
Theorem tool_outcome (query : string) :
  let result := Graph_RAG_new_tool zero add recip ltb svc query [] in
  let out := fst result in
  let trace := snd result in
  out <> Raised
  /\ take 2 trace = [EvVectorSearch; EvLexicalSearch]
  /\ (out = NoEvidence <-> EvFetchContext ∉ trace)
  /\ (out = NoEvidence <-> EvAnswer ∉ trace)
  /\ (out = NoEvidence ->
      EvFallback2 ∈ trace /\ EvFallback3 ∈ trace
      /\ sections_of_titled_acts svc query = [])
  /\ (forall text, out = Answer text ->
      exists ids,
        ids <> []
        /\ text = answer svc (fetch_kg_context_for_sections svc ids) query).
Proof.
  cbv zeta.
  set (vec := vector_search_sections svc query (extract_article_id svc query) 50).
  set (lex := fulltext_search_sections svc query 50).
  assert (Hf : exists fused, Search.rrf_fuse zero add recip ltb vec lex 60 10 = Some fused).
  { destruct (SearchMore.rrf_fuse_take zero add recip ltb vec lex 60 10)
      as (keys & H & _); [lia | lia | eauto]. }
  destruct Hf as [fused Hf].
  unfold Graph_RAG_new_tool, bind, call. fold vec lex. rewrite Hf.
  unfold fallback1, fallback2, fallback3, bind, call, ret.
  destruct fused as [|id ids]; simpl;
    [destruct (truthy_str (extract_article_id svc query)); simpl;
       [destruct (match_section_id svc _) as [|m ms]; simpl|]|];
    repeat match goal with
           | |- context [is_empty ?l] => destruct l; simpl
           end;
    split_and!; tool_case.
Qed.

End Tool.

Section Fallback2.
Context {T : Type}.
Variable svc : @services T.

(** X6. The second fallback leaves a list that is not empty untouched and
    calls nothing. From an empty list it returns at most 10 ids, none of
    them twice, each either a section found by the semantic search or a
    section of an act it found; and it asks for the sections of acts only
    when the search found an act. *)
Theorem fallback2_result (query : string) (fused : list Z) (trace : list event) :
  let result := fallback2 svc query fused trace in
  let sem := smart_semantic_search svc query 50 in
  let act_ids :=
    omap (fun r => match sem_kind r with SemAct => Some (sem_id r) | SemSection => None end)
         sem in
  (fused <> [] -> result = (fused, trace))
  /\ (fused = [] ->
      NoDup (fst result)
      /\ (length (fst result) <= 10)%nat
      /\ (forall id, id ∈ fst result ->
            (exists r, r ∈ sem /\ sem_kind r = SemSection /\ sem_id r = id)
            \/ (act_ids <> [] /\ id ∈ sections_of_acts svc act_ids))
      /\ (EvFallback2Expand ∈ snd result <-> EvFallback2Expand ∈ trace \/ act_ids <> [])).
Proof.
  cbv zeta. split.
  - destruct fused; [congruence|]. reflexivity.
  - intros ->. unfold fallback2, bind, call, ret. simpl.
    set (secs := omap (fun r => match sem_kind r with
                                | SemSection => Some (sem_id r)
                                | SemAct => None
                                end) (smart_semantic_search svc query 50)).
    set (acts := omap (fun r => match sem_kind r with
                                | SemAct => Some (sem_id r)
                                | SemSection => None
                                end) (smart_semantic_search svc query 50)).
    assert (Hsecs : forall id, id ∈ secs ->
              exists r, r ∈ smart_semantic_search svc query 50
                        /\ sem_kind r = SemSection /\ sem_id r = id).
    { intros id Hid. apply list_elem_of_omap in Hid as (r & Hr & Hk).
      exists r. destruct (sem_kind r); [|discriminate].
      injection Hk as <-. now split. }
    assert (Htake : forall (l : list Z) id,
              id ∈ take 10 (Search.first_seen l) -> id ∈ l).
    { intros l id Hid. apply elem_of_take in Hid as (i & Hi & _).
      apply list_elem_of_lookup_2 in Hi. now apply SearchMore.elem_of_first_seen. }
    assert (Hnd : forall l : list Z, NoDup (take 10 (Search.first_seen l))).
    { intros l. exact (sublist_NoDup _ _ (SearchFacts.NoDup_first_seen l)
                         (sublist_take _ _)). }
    assert (Hlen : forall l : list Z, (length (take 10 (Search.first_seen l)) <= 10)%nat).
    { intros l. rewrite length_take. lia. }
    destruct acts as [|a acts'] eqn:Ea; simpl.
    + destruct secs as [|s secs'] eqn:Es; simpl.
      * split_and!; [apply NoDup_nil_2 | lia | intros id H; now apply elem_of_nil in H |].
        rewrite elem_of_app, list_elem_of_singleton. split; [|tauto].
        intros [H | H]; [now left | discriminate].
      * split_and!; [exact (Hnd (s :: secs')) | exact (Hlen (s :: secs')) | |].
        -- intros id Hid. left. apply Hsecs. now apply (Htake (s :: secs')).
        -- rewrite elem_of_app, list_elem_of_singleton. split; [|tauto].
           intros [H | H]; [now left | discriminate].
    + destruct (secs ++ sections_of_acts svc (a :: acts')) as [|s rest] eqn:Es; simpl.
      * split_and!; [apply NoDup_nil_2 | lia | intros id H; now apply elem_of_nil in H |].
        split; [right; discriminate|]. intros _.
        rewrite !elem_of_app, !list_elem_of_singleton. now right.
      * split_and!; [exact (Hnd (s :: rest)) | exact (Hlen (s :: rest)) | |].
        -- intros id Hid. apply (Htake (s :: rest)) in Hid. rewrite <- Es in Hid.
           apply elem_of_app in Hid as [Hid | Hid]; [left; now apply Hsecs|].
           right. split; [discriminate | exact Hid].
        -- split; [right; discriminate|]. intros _.
           rewrite !elem_of_app, !list_elem_of_singleton. now right.
Qed.
End Fallback2.

Lemma tool_outcome_witness :
  fst (Graph_RAG_new_tool RationalScores.zero Qplus RationalScores.recip
         RationalScores.ltb MoreInputs.cascade_services "red cross" [])
  <> Raised
  /\ exists ids,
       ids <> []
       /\ "answer" = answer MoreInputs.cascade_services
                       (fetch_kg_context_for_sections MoreInputs.cascade_services ids)
                       "red cross".
Proof.
  pose proof (tool_outcome RationalScores.zero Qplus RationalScores.recip
                RationalScores.ltb MoreInputs.cascade_services "red cross") as H.
  cbv zeta in H. destruct H as (Hr & _ & _ & _ & _ & Ha).
  split; [exact Hr|]. apply Ha. reflexivity.
Defined.

Lemma fallback2_result_witness :
  fst (fallback2 MoreInputs.cascade_services "red cross" [] []) = [5; 6]
  /\ NoDup (fst (fallback2 MoreInputs.cascade_services "red cross" [] [])).
Proof.
  split; [reflexivity|].
  exact (proj1 (proj2 (fallback2_result MoreInputs.cascade_services "red cross" [] [])
                  eq_refl)).
Defined.

End GraphRAGMore.

(** ** White space *)

Module PyStrFacts.
Import PyStr.

Lemma lstrip_head (s : string) :
  lstrip s = EmptyString
  \/ exists c r, lstrip s = String c r /\ is_space c = false.
Proof.
  induction s as [|c s IH]; simpl; [now left|].
  destruct (is_space c) eqn:E; [exact IH|]. right. eauto.
Qed.

Lemma rstrip_cons_nonspace (c : ascii) (s : string) :
  is_space c = false -> exists r, rstrip (String c s) = String c r.
Proof.
  intros E. simpl. destruct (rstrip s); [rewrite E|]; eauto.
Qed.

Lemma rstrip_idempotent (s : string) : rstrip (rstrip s) = rstrip s.
Proof.
  induction s as [|c s IH]; simpl; [reflexivity|].
  destruct (rstrip s) as [|d r] eqn:E.
  - destruct (is_space c) eqn:Ec; simpl; [reflexivity|]. now rewrite Ec.
  - change (rstrip (String c (String d r))) with
      (match rstrip (String d r) with
       | EmptyString => if is_space c then EmptyString else String c EmptyString
       | r' => String c r'
       end).
    now rewrite IH.
Qed.

(** Stripping twice is stripping once. *)
Lemma strip_idempotent (s : string) : strip (strip s) = strip s.
Proof.
  unfold strip. destruct (lstrip_head s) as [-> | (c & r & -> & Hc)]; [reflexivity|].
  destruct (rstrip_cons_nonspace c r Hc) as [r' Hr]. rewrite Hr.
  simpl lstrip. rewrite Hc, <- Hr. apply rstrip_idempotent.
Qed.

Lemma lstrip_all_space (s : string) :
  lstrip s = EmptyString <-> Locator.str_forall is_space s = true.
Proof.
  induction s as [|c s IH]; simpl; [tauto|].
  destruct (is_space c); simpl; [exact IH|]. split; discriminate.
Qed.

(** A text strips to nothing exactly when all its characters are white
    space. *)
Lemma strip_empty (s : string) :
  strip s = EmptyString <-> Locator.str_forall is_space s = true.
Proof.
  rewrite <- lstrip_all_space. unfold strip.
  destruct (lstrip_head s) as [-> | (c & r & -> & Hc)]; [tauto|].
  destruct (rstrip_cons_nonspace c r Hc) as [r' ->]. split; discriminate.
Qed.

End PyStrFacts.

(** ** The segmenter: detectors and records *)

Module SegmenterMore.
Import Segmenter SegmenterSpec.
Local Open Scope list_scope.

(** *** The two detectors *)

(** X7. A line in which [detect_chapter] finds a chapter is never taken
    for a section header: the order in which [process_act] tries the two
    detectors does not matter. *)
Theorem chapter_is_no_section_header (t : string) :
  detect_chapter t <> None -> detect_section_header t = (None, None).
Proof.
  unfold detect_chapter. destruct t as [|c t]; [intros H; now contradiction H|].
  destruct c as [[] [] [] [] [] [] [] []];
    try (intros H; now contradiction H); intros _; reflexivity.
Qed.

Lemma chapter_is_no_section_header_witness :
  detect_section_header "CHAPTER IV" = (None, None).
Proof. apply chapter_is_no_section_header. discriminate. Defined.

Lemma span_spec (p : ascii -> bool) (s a b : string) :
  span p s = (a, b) ->
  s = (a ++ b)%string /\ Locator.str_forall p a = true
  /\ match b with
     | EmptyString => True
     | String c _ => p c = false
     end.
Proof.
  revert a b; induction s as [|c s IH]; intros a b; simpl.
  - intros [= <- <-]. now split.
  - destruct (p c) eqn:E.
    + destruct (span p s) as [a' b'] eqn:Es. intros [= <- <-].
      destruct (IH a' b' eq_refl) as (-> & Ha & Hb).
      split; [reflexivity|]. split; [simpl; now rewrite E | exact Hb].
    + intros [= <- <-]. split; [reflexivity|]. split; [reflexivity | exact E].
Qed.

Lemma span_digits_letter (digits : string) (c : ascii) :
  Locator.str_forall is_digit digits = true -> is_ascii_letter c = true ->
  span is_digit (digits ++ String c EmptyString) = (digits, String c EmptyString).
Proof.
  intros Hd Hc. induction digits as [|d digits IH].
  - simpl. replace (is_digit c) with false; [reflexivity|].
    revert Hc. destruct c as [[] [] [] [] [] [] [] []]; vm_compute; congruence.
  - simpl in Hd. apply andb_true_iff in Hd as [Hd0 Hd].
    change (span is_digit (String d (digits ++ String c EmptyString))
            = (String d digits, String c EmptyString)).
    simpl. rewrite Hd0, (IH Hd). reflexivity.
Qed.

Lemma span_all (p : ascii -> bool) (s : string) :
  Locator.str_forall p s = true -> span p s = (s, EmptyString).
Proof.
  induction s as [|c s IH]; simpl; [reflexivity|].
  intros H. apply andb_true_iff in H as [Hc Hs]. now rewrite Hc, (IH Hs).
Qed.

Lemma match_number_shape (s num rest : string) :
  match_number s = Some (num, rest) -> is_section_number num = true.
Proof.
  unfold match_number. destruct (span is_digit s) as [digits r] eqn:E.
  apply span_spec in E as (_ & Hd & _).
  destruct (String.eqb digits EmptyString) eqn:Ed; [discriminate|].
  assert (Hplain : is_section_number digits = true).
  { unfold is_section_number. rewrite (span_all _ _ Hd), Ed. reflexivity. }
  destruct r as [|c r'].
  - now intros [= <- <-].
  - destruct (is_ascii_letter c) eqn:Ec; [|now intros [= <- <-]].
    intros [= <- <-]. unfold is_section_number.
    rewrite (span_digits_letter digits c Hd Ec), Ed, Ec. reflexivity.
Qed.

Lemma section_pattern_1_shape (t num heading : string) :
  section_pattern_1 t = Some (num, heading) -> is_section_number num = true.
Proof.
  unfold section_pattern_1. destruct (strip_prefix "Section" t) as [rest|]; [|discriminate].
  destruct (span PyStr.is_space rest) as [ws rest1].
  destruct (String.eqb ws EmptyString); [discriminate|].
  destruct (match_number rest1) as [[n rest2]|] eqn:E; [|discriminate].
  apply match_number_shape in E.
  destruct (span PyStr.is_space _) as [ws2 rest3].
  destruct (match_to_end rest3); [|discriminate]. now intros [= <- <-].
Qed.

Lemma section_pattern_2_shape (t num heading : string) :
  section_pattern_2 t = Some (num, heading) -> is_section_number num = true.
Proof.
  unfold section_pattern_2.
  destruct (match_number t) as [[n rest]|] eqn:E; [|discriminate].
  apply match_number_shape in E.
  destruct rest as [|c rest]; [discriminate|].
  destruct (Ascii.eqb c "."%char) eqn:Ec.
  - apply Ascii.eqb_eq in Ec. subst c.
    destruct (span PyStr.is_space rest) as [ws rest1].
    destruct (String.eqb ws EmptyString); [discriminate|].
    destruct (match_to_end rest1); [|discriminate]. now intros [= <- <-].
  - intros H. exfalso. revert H Ec.
    destruct c as [[] [] [] [] [] [] [] []]; simpl; congruence.
Qed.

Lemma section_number_nonempty (num : string) :
  is_section_number num = true -> truthy_str (Some num) = true.
Proof. destruct num; [discriminate | reflexivity]. Qed.

(** X8. [detect_section_header] returns either no number and no heading,
    or a number made of one or more digits and at most one letter
    (so never empty) together with a heading that has no white space at
    either end. *)
Theorem detect_section_header_shape (t : string) :
  detect_section_header t = (None, None)
  \/ exists num heading,
       detect_section_header t = (Some num, Some heading)
       /\ is_section_number num = true
       /\ truthy_str (Some num) = true
       /\ PyStr.strip heading = heading.
Proof.
  unfold detect_section_header.
  destruct (section_pattern_1 t) as [[num heading]|] eqn:E1.
  - right. exists num, (PyStr.strip heading).
    pose proof (section_pattern_1_shape _ _ _ E1) as Hn.
    split_and!; [reflexivity | exact Hn | now apply section_number_nonempty
                | apply PyStrFacts.strip_idempotent].
  - destruct (section_pattern_2 t) as [[num heading]|] eqn:E2; [|now left].
    right. exists num, (PyStr.strip heading).
    pose proof (section_pattern_2_shape _ _ _ E2) as Hn.
    split_and!; [reflexivity | exact Hn | now apply section_number_nonempty
                | apply PyStrFacts.strip_idempotent].
Qed.

(** *** The records *)

Lemma str_forall_join (p : ascii -> bool) (sep : string) (parts : list string) :
  Locator.str_forall p sep = true ->
  Locator.str_forall p (PyStr.join sep parts) = true
  <-> Forall (fun t => Locator.str_forall p t = true) parts.
Proof.
  intros Hsep. induction parts as [|t parts IH]; simpl.
  - split; [constructor | reflexivity].
  - destruct parts as [|t' parts'].
    + rewrite Forall_singleton. reflexivity.
    + rewrite !LocatorFacts.str_forall_app, Hsep, Forall_cons, <- IH.
      rewrite !andb_true_iff. tauto.
Qed.

Lemma line_eta (rec : line) :
  {| page := page rec; line_index := line_index rec; text := text rec |} = rec.
Proof. now destruct rec. Qed.

Section Records.
Variable chapter_of : string -> option string.
Variable header_of : string -> option string * option string.
Variable row : manifest_row.

Abbreviation flush_section := (flush_section row).
Abbreviation step := (step chapter_of header_of row).
Abbreviation scan := (scan chapter_of header_of row).
Abbreviation in_step := (in_step row).
Abbreviation starts_section := (starts_section chapter_of header_of).

Lemma flush_section_writes (st : state) :
  outfile (flush_section st) <> outfile st
  <-> current_section st <> None
      /\ Exists (fun l => PyStr.strip (text l) <> EmptyString) (buffer st).
Proof.
  assert (Hblank : PyStr.strip (buffer_text st) = EmptyString
                   <-> Forall (fun l => PyStr.strip (text l) = EmptyString) (buffer st)).
  { unfold buffer_text. rewrite PyStrFacts.strip_empty, str_forall_join by reflexivity.
    rewrite Forall_fmap. apply Forall_proper; [|reflexivity].
    intros l. simpl. now rewrite PyStrFacts.strip_empty. }
  unfold Segmenter.flush_section. destruct (current_section st) as [sec|].
  - destruct (String.eqb (PyStr.strip (buffer_text st)) EmptyString) eqn:E.
    + apply String.eqb_eq in E. apply Hblank in E. split; [congruence|].
      intros [_ Hex]. apply Exists_exists in Hex as (l & Hl & Hne).
      rewrite Forall_forall in E. now specialize (E l Hl).
    + apply String.eqb_neq in E. simpl. split.
      * intros _. split; [discriminate|].
        apply not_Forall_Exists; [intros l; apply _|].
        intros HF. apply E, Hblank. eapply Forall_impl; [exact HF|].
        simpl. intros l Hl. destruct (decide (PyStr.strip (text l) = EmptyString)); tauto.
      * intros _ H. apply (f_equal length) in H. rewrite length_app in H. simpl in H. lia.
  - split; [congruence | intros [H _]; congruence].
Qed.

Lemma flush_section_empty_buffer (st : state) :
  buffer st = [] -> flush_section st = st.
Proof.
  intros Hb. unfold Segmenter.flush_section, buffer_text. rewrite Hb.
  now destruct (current_section st).
Qed.

Lemma step_header (st : state) (rec : line) :
  starts_section rec = true ->
  step st rec
  = {| current_chapter := current_chapter (flush_section st);
       current_section := fst (header_of (text rec));
       current_heading := snd (header_of (text rec));
       buffer := []; pages := ∅; raw_lines := [];
       outfile := outfile (flush_section st) |}.
Proof.
  unfold Segmenter.starts_section, Segmenter.step.
  destruct (truthy_str (chapter_of (text rec))); [discriminate|]. simpl.
  destruct (header_of (text rec)) as [sec_num heading]. simpl. now intros ->.
Qed.

Lemma step_header_twice (st : state) (h1 h2 : line) :
  starts_section h1 = true -> starts_section h2 = true ->
  step (step st h1) h2 = step st h2.
Proof.
  intros H1 H2. rewrite (step_header (step st h1) h2 H2), (step_header st h2 H2).
  rewrite (flush_section_empty_buffer (step st h1));
    now rewrite (step_header st h1 H1).
Qed.

(** X11. A flush writes the section in progress exactly when one of the
    lines gathered for it has a character that is not white space. So a
    header line followed at once by the next header line leaves no record:
    the records of the scan are those of the input without the first of
    the two; and a header line at the end of the input leaves none. *)
Theorem flush_section_emits_iff :
  (forall st,
     outfile (flush_section st) <> outfile st
     <-> current_section st <> None
         /\ Exists (fun l => PyStr.strip (text l) <> EmptyString) (buffer st))
  /\ (forall pre h1 h2 rest,
       starts_section h1 = true -> starts_section h2 = true ->
       scan (pre ++ h1 :: h2 :: rest) = scan (pre ++ h2 :: rest))
  /\ (forall pre h1,
       starts_section h1 = true -> scan (pre ++ [h1]) = scan pre).
Proof.
  split_and!.
  - exact flush_section_writes.
  - intros pre h1 h2 rest H1 H2. unfold Segmenter.scan, Segmenter.scan_from.
    rewrite !fold_left_app. simpl. now rewrite (step_header_twice _ h1 h2 H1 H2).
  - intros pre h1 H1. unfold Segmenter.scan, Segmenter.scan_from.
    rewrite fold_left_app. simpl.
    rewrite flush_section_empty_buffer; now rewrite (step_header _ h1 H1).
Qed.

Lemma flush_section_in_step (lines : list line) (st : state) :
  in_step lines st -> in_step lines (flush_section st).
Proof.
  intros (Hraw & Hpages & Hsub & Hout). unfold Segmenter.flush_section.
  destruct (current_section st) as [sec|]; [|now split_and!].
  destruct (String.eqb (PyStr.strip (buffer_text st)) EmptyString) eqn:E;
    [now split_and!|].
  apply String.eqb_neq in E.
  split_and!; simpl; try reflexivity; [intros l Hl; now apply elem_of_nil in Hl|].
  apply Forall_app. split; [exact Hout|]. constructor; [|constructor].
  unfold consistent. simpl. rewrite Hraw. split_and!; try reflexivity.
  - intros Hnil. apply E. unfold buffer_text. now rewrite Hnil.
  - exact Hsub.
  - intros p. rewrite merge_sort_Permutation, elem_of_elements, Hpages.
    rewrite elem_of_list_to_set, list_elem_of_fmap. split.
    + intros (l & -> & Hl). eauto.
    + intros (l & Hl & <-). eauto.
  - apply Sorted_merge_sort. apply _.
  - rewrite merge_sort_Permutation. apply NoDup_elements.
Qed.

Lemma step_in_step (lines : list line) (st : state) (rec : line) :
  rec ∈ lines -> in_step lines st -> in_step lines (step st rec).
Proof.
  intros Hrec Hst. unfold Segmenter.step.
  destruct (truthy_str (chapter_of (text rec))); [exact Hst|].
  destruct (header_of (text rec)) as [sec_num heading].
  destruct (truthy_str sec_num).
  - destruct (flush_section_in_step lines st Hst) as (_ & _ & _ & Hout).
    split_and!; simpl; try reflexivity; [|exact Hout].
    intros l Hl. now apply elem_of_nil in Hl.
  - destruct (current_section st); [|exact Hst].
    destruct Hst as (Hraw & Hpages & Hsub & Hout).
    split_and!; simpl.
    + now rewrite Hraw, line_eta.
    + rewrite Hpages, map_app, list_to_set_app_L. simpl.
      rewrite (right_id_L ∅ (∪)). apply (comm_L (∪)).
    + intros l Hl. apply elem_of_app in Hl as [Hl | Hl]; [now apply Hsub|].
      apply list_elem_of_singleton in Hl. now subst l.
    + exact Hout.
Qed.

Lemma fold_in_step (lines rest : list line) (st : state) :
  (forall l, l ∈ rest -> l ∈ lines) -> in_step lines st ->
  in_step lines (fold_left step rest st).
Proof.
  revert st; induction rest as [|rec rest IH]; intros st Hsub Hst; simpl; [exact Hst|].
  apply IH.
  - intros l Hl. apply Hsub, elem_of_cons. now right.
  - apply step_in_step; [|exact Hst]. apply Hsub, elem_of_cons. now left.
Qed.

(** X9. Every record that the scan writes agrees with the input: its text
    is its raw lines joined by line feeds, it has at least one raw line,
    every raw line is a line of the input, its pages are exactly the pages
    of its raw lines in increasing order and without repetition, and its
    id and its citation carry its section number. *)
Theorem scan_records_consistent (lines : list line) (record : section_record) :
  record ∈ scan lines -> consistent row lines record.
Proof.
  intros Hin.
  assert (H : in_step lines
                (flush_section (fold_left step lines (start None)))).
  { apply flush_section_in_step, fold_in_step; [auto|].
    split_and!; simpl; try reflexivity; [|constructor].
    intros l Hl. now apply elem_of_nil in Hl. }
  destruct H as (_ & _ & _ & Hout). rewrite Forall_forall in Hout.
  exact (Hout record Hin).
Qed.


Lemma flush_section_follows (headers : list string) (st : state) :
  follows headers st -> numbers_of (outfile (flush_section st)) `sublist_of` headers.
Proof.
  unfold follows, Segmenter.flush_section.
  destruct (current_section st) as [sec|].
  - intros (before & -> & Hsub).
    destruct (String.eqb (PyStr.strip (buffer_text st)) EmptyString); simpl.
    + now apply sublist_inserts_r.
    + unfold numbers_of. rewrite map_app. simpl.
      apply sublist_app; [exact Hsub | reflexivity].
  - intros [_ ->]. apply sublist_nil_l.
Qed.

Lemma step_follows (headers : list string) (st : state) (rec : line) :
  follows headers st ->
  follows (headers ++ header_numbers chapter_of header_of [rec]) (step st rec).
Proof.
  intros Hst. unfold header_numbers, Segmenter.starts_section, Segmenter.step. simpl.
  destruct (truthy_str (chapter_of (text rec))); simpl.
  - now rewrite app_nil_r.
  - destruct (header_of (text rec)) as [sec_num heading]. simpl.
    destruct sec_num as [n|]; simpl.
    + destruct (negb (String.eqb n EmptyString)) eqn:E; simpl.
      * unfold follows. simpl. exists headers. split; [reflexivity|].
        now apply flush_section_follows.
      * rewrite app_nil_r. unfold follows in *.
        destruct (current_section st) eqn:Ec; simpl; rewrite ?Ec; exact Hst.
    + rewrite app_nil_r. unfold follows in *.
      destruct (current_section st) eqn:Ec; simpl; rewrite ?Ec; exact Hst.
Qed.

Lemma fold_follows (lines : list line) (headers : list string) (st : state) :
  follows headers st ->
  follows (headers ++ header_numbers chapter_of header_of lines) (fold_left step lines st).
Proof.
  revert headers st; induction lines as [|rec lines IH]; intros headers st Hst.
  - unfold header_numbers. simpl. now rewrite app_nil_r.
  - assert (E : header_numbers chapter_of header_of (rec :: lines)
                = (header_numbers chapter_of header_of [rec]
                   ++ header_numbers chapter_of header_of lines)%list)
      by apply (omap_app _ [rec] lines).
    rewrite E, app_assoc. simpl fold_left.
    apply IH, step_follows, Hst.
Qed.

(** X10. The records come out in the order of their headers: their
    section numbers, read in the order written, are the section numbers of
    the header lines of the input with some possibly left out, so no
    record is written without a header and none is written twice for one
    header. *)
Theorem scan_follows_headers (lines : list line) :
  numbers_of (scan lines) `sublist_of` header_numbers chapter_of header_of lines
  /\ (length (scan lines) <= length (header_numbers chapter_of header_of lines))%nat.
Proof.
  assert (H : numbers_of (scan lines)
              `sublist_of` header_numbers chapter_of header_of lines).
  { apply flush_section_follows.
    apply (fold_follows lines [] (start None)). now split. }
  split; [exact H|].
  apply sublist_length in H. unfold numbers_of in H. now rewrite length_map in H.
Qed.
End Records.

Lemma flush_section_emits_iff_witness :
  process_act Scenarios.act_row
    (Line 1 1 "1. Short title" :: Line 1 2 "2. Definitions" :: [Line 1 3 "In this Act"])
  = process_act Scenarios.act_row
      (Line 1 2 "2. Definitions" :: [Line 1 3 "In this Act"])
  /\ process_act Scenarios.act_row
       (Scenarios.section_lines ++ [Line 1 4 "2. Definitions"])
     = process_act Scenarios.act_row Scenarios.section_lines.
Proof.
  destruct (flush_section_emits_iff detect_chapter detect_section_header
              Scenarios.act_row) as (_ & Htwice & Hlast).
  split.
  - apply (Htwice [] (Line 1 1 "1. Short title") (Line 1 2 "2. Definitions")
             [Line 1 3 "In this Act"]); reflexivity.
  - apply (Hlast Scenarios.section_lines (Line 1 4 "2. Definitions")). reflexivity.
Defined.

Lemma scan_records_consistent_witness :
  exists record,
    process_act Scenarios.act_row Scenarios.section_lines = [record]
    /\ consistent Scenarios.act_row Scenarios.section_lines record.
Proof.
  eexists. split; [vm_compute; reflexivity|].
  apply (scan_records_consistent detect_chapter detect_section_header).
  vm_compute. left.
Defined.

End SegmenterMore.

(** ** Candidate sentences and the act loop *)

Module CandidatesFacts.
Import Candidates.
Local Open Scope list_scope.

Lemma collect_candidates_take (sentences : list string) (max_sentences : Z)
    (cand : list string) :
  Z.of_nat (length cand) < max_sentences ->
  collect_candidates sentences max_sentences cand
  = take (Z.to_nat max_sentences) (cand ++ omap candidate_of sentences).
Proof.
  revert cand; induction sentences as [|s rest IH]; intros cand Hlen; simpl.
  - rewrite app_nil_r, take_ge; [reflexivity | lia].
  - unfold candidate_of at 1.
    destruct (has_keyword s); simpl.
    + destruct (String.eqb (PyStr.strip s) EmptyString); simpl.
      * rewrite Z.geb_leb. destruct (Z.leb_spec max_sentences (Z.of_nat (length cand))).
        -- lia.
        -- now apply IH.
      * rewrite Z.geb_leb, length_app. simpl.
        destruct (Z.leb_spec max_sentences (Z.of_nat (length cand + 1))).
        -- generalize (list_omap _ _ candidate_of rest). intros r.
           change (cand ++ PyStr.strip s :: r) with (cand ++ [PyStr.strip s] ++ r).
           rewrite (app_assoc cand [PyStr.strip s] r).
           rewrite take_app_length'; [reflexivity|]. rewrite length_app. simpl. lia.
        -- rewrite IH by (rewrite length_app; simpl; lia).
           now rewrite <- app_assoc.
    + rewrite Z.geb_leb. destruct (Z.leb_spec max_sentences (Z.of_nat (length cand))).
      * lia.
      * now apply IH.
Qed.

Lemma elem_of_candidates (c : string) (sentences : list string) :
  c ∈ omap candidate_of sentences ->
  exists s, s ∈ sentences /\ has_keyword s = true /\ c = PyStr.strip s
            /\ c <> EmptyString.
Proof.
  rewrite list_elem_of_omap. intros (s & Hs & Hc). exists s. split; [exact Hs|].
  unfold candidate_of in Hc.
  destruct (has_keyword s); [|discriminate]. simpl in Hc.
  destruct (String.eqb (PyStr.strip s) EmptyString) eqn:E; [discriminate|].
  apply String.eqb_neq in E. simpl in Hc. injection Hc as <-. now split_and!.
Qed.

(** X12. With a bound of at least one, the candidates are the first
    [max_sentences] of the sentences that hold a keyword and are not blank,
    each without the white space around it and in the order of the text:
    never more than the bound, never an empty string, never a string with
    white space at either end. With a bound below one the loop still looks
    at the first sentence and may return it. *)
Theorem find_candidate_sentences_spec (text : string) (max_sentences : Z) :
  (1 <= max_sentences ->
     find_candidate_sentences text max_sentences
     = take (Z.to_nat max_sentences) (omap candidate_of (split_sentences text))
     /\ Z.of_nat (length (find_candidate_sentences text max_sentences)) <= max_sentences
     /\ forall c, c ∈ find_candidate_sentences text max_sentences ->
          c <> EmptyString /\ PyStr.strip c = c
          /\ exists s, s ∈ split_sentences text /\ has_keyword s = true
                        /\ c = PyStr.strip s)
  /\ (max_sentences < 1 ->
       find_candidate_sentences text max_sentences
       = omap candidate_of (take 1 (split_sentences text))).
Proof.
  split.
  - intros Hmax.
    assert (E : find_candidate_sentences text max_sentences
                = take (Z.to_nat max_sentences) (omap candidate_of (split_sentences text))).
    { unfold find_candidate_sentences.
      now rewrite collect_candidates_take by (simpl; lia). }
    split_and!; [exact E | |].
    + rewrite E, length_take. lia.
    + intros c Hc. rewrite E in Hc. apply elem_of_take in Hc as (i & Hi & _).
      apply list_elem_of_lookup_2 in Hi.
      apply elem_of_candidates in Hi as (s & Hs & Hk & -> & Hne).
      split_and!; [exact Hne | apply PyStrFacts.strip_idempotent | eauto].
  - intros Hmax. unfold find_candidate_sentences, split_sentences.
    destruct (split_scan text false false) as [piece rest]. simpl.
    unfold candidate_of.
    destruct (has_keyword piece); simpl.
    + destruct (String.eqb (PyStr.strip piece) EmptyString); simpl;
        rewrite Z.geb_leb;
        (destruct (_ <=? _) eqn:E; [reflexivity | apply Z.leb_gt in E; simpl in E; lia]).
    + rewrite Z.geb_leb.
      destruct (_ <=? _) eqn:E; [reflexivity | apply Z.leb_gt in E; simpl in E; lia].
Qed.

Lemma find_candidate_sentences_spec_witness :
  find_candidate_sentences "The keeper shall give notice. He may appeal. It is so." 1
  = ["The keeper shall give notice."]
  /\ find_candidate_sentences "The keeper shall give notice. He may appeal." 0
     = ["The keeper shall give notice."].
Proof.
  pose proof (find_candidate_sentences_spec
                "The keeper shall give notice. He may appeal. It is so." 1)
    as [Hone _].
  pose proof (find_candidate_sentences_spec
                "The keeper shall give notice. He may appeal." 0)
    as [_ Hzero].
  split.
  - destruct (Hone ltac:(lia)) as (E & _). rewrite E. reflexivity.
  - rewrite (Hzero ltac:(lia)). reflexivity.
Defined.

End CandidatesFacts.

(** ** Batches *)

Module BatchesFacts.
Import Batches.
Local Open Scope list_scope.

Lemma chunks_nil {A} (fuel step : nat) : chunks fuel step ([] : list A) = [].
Proof. now destruct fuel. Qed.

Lemma chunks_spec {A} (fuel step : nat) (xs : list A) :
  (1 <= step)%nat -> (length xs <= fuel)%nat ->
  concat (chunks fuel step xs) = xs
  /\ Forall (fun b => b <> [] /\ (length b <= step)%nat) (chunks fuel step xs)
  /\ (forall i b, chunks fuel step xs !! i = Some b ->
        (S i < length (chunks fuel step xs))%nat -> length b = step).
Proof.
  intros Hstep. revert xs; induction fuel as [|fuel IH]; intros xs Hlen.
  - destruct xs; [|simpl in Hlen; lia]. simpl. split_and!; [reflexivity|constructor|].
    intros i b Hi. now rewrite lookup_nil in Hi.
  - destruct xs as [|x xs']; [simpl; split_and!; [reflexivity|constructor|];
      intros i b Hi; now rewrite lookup_nil in Hi|].
    change (chunks (S fuel) step (x :: xs'))
      with (take step (x :: xs') :: chunks fuel step (drop step (x :: xs'))).
    destruct (IH (drop step (x :: xs'))) as (Hcat & Hall & Hfull).
    { rewrite length_drop. simpl in *. lia. }
    split_and!.
    + simpl concat. rewrite Hcat. apply take_drop.
    + constructor; [|exact Hall]. split.
      * destruct step; [lia|]. discriminate.
      * rewrite length_take. lia.
    + intros [|i] b Hi Hmore.
      * injection Hi as <-. rewrite length_take.
        destruct (drop step (x :: xs')) eqn:E.
        -- rewrite chunks_nil in Hmore. simpl in Hmore. lia.
        -- apply (f_equal length) in E. rewrite length_drop in E. simpl in E. simpl. lia.
      * simpl in Hi, Hmore. apply (Hfull i b Hi). lia.
Qed.

(** X13. With a positive step the batches cut the list without losing,
    repeating or reordering anything: put end to end they are the list
    again, no batch is empty, none is longer than the step, and every
    batch but the last has exactly the step's length. *)
Theorem batches_spec {A} (xs : list A) (step : Z) :
  0 < step ->
  exists bs,
    batches xs step = Some bs
    /\ concat bs = xs
    /\ Forall (fun b => b <> [] /\ Z.of_nat (length b) <= step) bs
    /\ (forall i b, bs !! i = Some b -> (S i < length bs)%nat ->
          Z.of_nat (length b) = step).
Proof.
  intros Hstep. unfold batches.
  destruct (Z.eqb_spec step 0); [lia|].
  destruct (Z.ltb_spec step 0); [lia|].
  eexists. split; [reflexivity|].
  destruct (chunks_spec (length xs) (Z.to_nat step) xs) as (Hcat & Hall & Hfull);
    [lia | lia |].
  split_and!; [exact Hcat | |].
  - eapply Forall_impl; [exact Hall|]. simpl. intros b [Hne Hle]. split; [exact Hne | lia].
  - intros i b Hi Hmore. rewrite (Hfull i b Hi Hmore). lia.
Qed.

Lemma batches_spec_witness :
  exists bs,
    batches [1; 2; 3; 4; 5; 6; 7] 3 = Some bs
    /\ concat bs = [1; 2; 3; 4; 5; 6; 7]
    /\ Forall (fun b => b <> [] /\ Z.of_nat (length b) <= 3) bs
    /\ (forall i b, bs !! i = Some b -> (S i < length bs)%nat ->
          Z.of_nat (length b) = 3).
Proof. apply (batches_spec [1; 2; 3; 4; 5; 6; 7] 3). lia. Defined.

End BatchesFacts.

(** ** The act loop of the LLM step *)

Module ActLoopFacts.
Import Enrich Candidates.
Local Open Scope list_scope.

Lemma extends_refl (sec : act_section) : extends sec sec.
Proof. unfold extends. split_and!; auto; reflexivity. Qed.

Lemma extends_mark_no_llm (sec : act_section) : extends sec (mark_no_llm sec).
Proof. unfold extends. split_and!; auto; reflexivity. Qed.

Lemma extends_merge_semantics (sec : act_section) (llm_result : extraction)
    (fields : section) :
  merge_semantics (sec_fields sec) llm_result = Some fields ->
  extends sec {| sec_text := sec_text sec; sec_fields := fields |}.
Proof.
  unfold merge_semantics. intros H.
  destruct (py_iter (or_list (roles llm_result))) as [new_roles|]; [|discriminate].
  destruct (py_iter (or_list (obligations llm_result))) as [new_ob|]; [|discriminate].
  destruct (py_iter (or_list (powers llm_result))) as [new_po|]; [|discriminate].
  destruct (py_iter (or_list (penalties llm_result))) as [new_pe|]; [|discriminate].
  destruct (py_iter (or_list (rights llm_result))) as [new_ri|]; [|discriminate].
  simpl in H. injection H as <-.
  unfold extends. simpl. split_and!; try (now apply prefix_app_r); [reflexivity|].
  intros r Hr. rewrite merge_sort_Permutation, elem_of_elements.
  apply EnrichFacts.elem_of_add_roles. left. now apply elem_of_list_to_set.
Qed.

Lemma build_inputs_marked (idx : Z) (sections : list act_section) :
  snd (build_inputs idx sections) = map without_llm sections.
Proof.
  revert idx; induction sections as [|sec rest IH]; intros idx; simpl; [reflexivity|].
  specialize (IH (idx + 1)). destruct (build_inputs (idx + 1) rest) as [inputs marked].
  simpl in IH. subst marked. unfold without_llm.
  now destruct (is_empty (find_candidate_sentences (sec_text sec) 8)).
Qed.

Lemma extends_without_llm (sec : act_section) : extends sec (without_llm sec).
Proof.
  unfold without_llm. destruct (is_empty _);
    [apply extends_mark_no_llm | apply extends_refl].
Qed.

Lemma extends_trans (a b c : act_section) : extends a b -> extends b c -> extends a c.
Proof.
  unfold extends. intros (Ht & Hr & Ho & Hp & Hq & Hi) (Ht' & Hr' & Ho' & Hp' & Hq' & Hi').
  split_and!; try (etransitivity; eassumption); auto.
Qed.

Lemma merge_back_extends (idx : Z) (results : gmap key extraction)
    (sections out : list act_section) :
  merge_back idx results sections = Some out -> Forall2 extends sections out.
Proof.
  revert idx out; induction sections as [|sec rest IH]; intros idx out; simpl.
  - intros [= <-]. constructor.
  - destruct (results !! inl idx) as [llm_result|]; simpl.
    + destruct (merge_semantics (sec_fields sec) llm_result) as [fields|] eqn:E;
        [|discriminate]. simpl.
      destruct (merge_back (idx + 1) results rest) as [rest'|] eqn:Er; [|discriminate].
      simpl. intros [= <-]. constructor; [|eauto].
      now apply (extends_merge_semantics sec llm_result).
    + destruct (merge_back (idx + 1) results rest) as [rest'|] eqn:Er; [|discriminate].
      simpl. intros [= <-]. constructor; [apply extends_refl | eauto].
Qed.

Lemma merge_back_empty (idx : Z) (sections : list act_section) :
  merge_back idx ∅ sections = Some sections.
Proof.
  revert idx; induction sections as [|sec rest IH]; intros idx; simpl; [reflexivity|].
  rewrite lookup_empty. simpl. now rewrite IH.
Qed.

Lemma gather_empty (call : list batch_input -> gmap key extraction)
    (batches : list (list batch_input)) :
  (forall batch, call batch = ∅) -> gather call batches = ∅.
Proof.
  intros Hcall. unfold gather.
  assert (H : forall results, results = ∅ ->
                foldl (fun results batch => call batch ∪ results) results batches = ∅).
  { induction batches as [|b bs IH]; intros results ->; simpl; [reflexivity|].
    apply IH. rewrite Hcall. apply (left_id_L ∅ (∪)). }
  now apply H.
Qed.

Lemma process_sections_unfold (call : list batch_input -> gmap key extraction)
    (sections : list act_section) :
  exists batches,
    Batches.batches (fst (build_inputs 0 sections)) BATCH_SIZE = Some batches
    /\ process_sections call sections
       = merge_back 0 (gather call batches) (map without_llm sections).
Proof.
  unfold process_sections. pose proof (build_inputs_marked 0 sections) as Hm.
  destruct (build_inputs 0 sections) as [inputs marked]. simpl in Hm. subst marked.
  simpl fst.
  unfold Batches.batches. change (BATCH_SIZE =? 0) with false.
  change (BATCH_SIZE <? 0) with false. cbv iota. eauto.
Qed.

(** X14. Whatever the LLM returns, the act loop only adds: when it ends
    without an exception there is one output section per input section, in
    the same order, each with the text of its input section, every role
    the input section had, and the input's obligations, powers, penalties
    and rights as a prefix of its own. *)
Theorem process_sections_extends (call : list batch_input -> gmap key extraction)
    (sections out : list act_section) :
  process_sections call sections = Some out -> Forall2 extends sections out.
Proof.
  destruct (process_sections_unfold call sections) as (bs & _ & ->).
  intros H. apply merge_back_extends in H.
  change (map without_llm sections) with (without_llm <$> sections) in H.
  rewrite Forall2_fmap_l in H.
  eapply Forall2_impl; [exact H|]. simpl.
  intros sec sec' Hext. eapply extends_trans; [apply extends_without_llm | exact Hext].
Qed.

Section Failing.
Variable render_prompt : string -> string.
Variable chat_completion : string -> reply.
Variable json_loads : string -> option json.

(** X15. When every call to the completion client raises, the act is
    written all the same: each section with a candidate sentence is left
    as it was, and each section without one only gets the mark that no
    LLM was used. *)
Theorem process_sections_failing_client (sections : list act_section) :
  (forall prompt, chat_completion prompt = CallFailed) ->
  process_sections (call_llm_batch render_prompt chat_completion json_loads) sections
  = Some (map without_llm sections).
Proof.
  intros Hfail.
  destruct (process_sections_unfold
              (call_llm_batch render_prompt chat_completion json_loads) sections)
    as (bs & _ & ->).
  rewrite gather_empty; [apply merge_back_empty|].
  intros batch. unfold call_llm_batch. rewrite Hfail. now destruct (is_empty batch).
Qed.
End Failing.

Lemma process_sections_extends_witness :
  exists out,
    process_sections MoreInputs.magistrate_call MoreInputs.act_sections = Some out
    /\ Forall2 extends MoreInputs.act_sections out.
Proof.
  eexists. split; [vm_compute; reflexivity|].
  apply (process_sections_extends MoreInputs.magistrate_call).
  vm_compute. reflexivity.
Defined.

Lemma process_sections_failing_client_witness :
  process_sections
    (call_llm_batch Scenarios.render_prompt MoreInputs.failing_client Scenarios.json_loads)
    MoreInputs.act_sections
  = Some (map without_llm MoreInputs.act_sections).
Proof.
  apply process_sections_failing_client. intros prompt. reflexivity.
Defined.

End ActLoopFacts.

(** ** The merge of an extraction into a section *)

Module MergeFacts.
Import Enrich EnrichSpec.
Local Open Scope list_scope.

Lemma py_iter_or_list (j : json) :
  py_iter (or_list j) = None <-> not_iterable j = true.
Proof.
  unfold or_list. destruct j as [|[]|n|s|items|fields]; simpl;
    try (split; discriminate); try (split; reflexivity).
  - destruct (negb (n =? 0)); simpl; split; congruence.
  - destruct (negb (String.eqb s EmptyString)); simpl; split; discriminate.
  - destruct (negb (is_empty items)); simpl; split; discriminate.
  - destruct (negb (is_empty fields)); simpl; split; discriminate.
Qed.

Lemma py_iter_or_list_some (j : json) :
  not_iterable j = false -> exists items, py_iter (or_list j) = Some items.
Proof.
  intros H. destruct (py_iter (or_list j)) as [items|] eqn:E; [eauto|].
  apply py_iter_or_list in E. congruence.
Qed.

(** X16. The merge raises exactly when one of the five values of the
    result is [True] or a number other than zero: such a value survives
    [or []] and cannot be looped over. Every other result, whatever its
    shape, is merged. *)
Theorem merge_semantics_raises (sec : section) (llm_result : extraction) :
  merge_semantics sec llm_result = None
  <-> not_iterable (roles llm_result) || not_iterable (obligations llm_result)
      || not_iterable (powers llm_result) || not_iterable (penalties llm_result)
      || not_iterable (rights llm_result) = true.
Proof.
  unfold merge_semantics.
  destruct (not_iterable (roles llm_result)) eqn:E1.
  { apply py_iter_or_list in E1. rewrite E1. simpl. split; reflexivity. }
  destruct (py_iter_or_list_some _ E1) as [i1 ->].
  destruct (not_iterable (obligations llm_result)) eqn:E2.
  { apply py_iter_or_list in E2. rewrite E2. simpl. split; reflexivity. }
  destruct (py_iter_or_list_some _ E2) as [i2 ->].
  destruct (not_iterable (powers llm_result)) eqn:E3.
  { apply py_iter_or_list in E3. rewrite E3. simpl. split; reflexivity. }
  destruct (py_iter_or_list_some _ E3) as [i3 ->].
  destruct (not_iterable (penalties llm_result)) eqn:E4.
  { apply py_iter_or_list in E4. rewrite E4. simpl. split; reflexivity. }
  destruct (py_iter_or_list_some _ E4) as [i4 ->].
  destruct (not_iterable (rights llm_result)) eqn:E5.
  { apply py_iter_or_list in E5. rewrite E5. simpl. split; reflexivity. }
  destruct (py_iter_or_list_some _ E5) as [i5 ->].
  simpl. split; discriminate.
Qed.

Lemma add_roles_twice (existing : gset string) (new_roles : list json) :
  add_roles (add_roles existing new_roles) new_roles = add_roles existing new_roles.
Proof.
  apply set_eq. intros x. rewrite !EnrichFacts.elem_of_add_roles. tauto.
Qed.

Lemma list_to_set_sorted_elements (X : gset string) :
  list_to_set (merge_sort str_le (elements X)) = X.
Proof.
  apply set_eq. intros x.
  now rewrite elem_of_list_to_set, merge_sort_Permutation, elem_of_elements.
Qed.

(** X17. Merging the same result a second time does not raise and leaves
    the roles as the first merge made them, but it is not idempotent: the
    dicts of the result are appended to each of the four lists once more. *)
Theorem merge_semantics_twice (sec once : section) (llm_result : extraction) :
  merge_semantics sec llm_result = Some once ->
  exists twice,
    merge_semantics once llm_result = Some twice
    /\ sec_roles twice = sec_roles once
    /\ sec_obligations once = sec_obligations sec ++ dicts_of (obligations llm_result)
    /\ sec_obligations twice = sec_obligations once ++ dicts_of (obligations llm_result)
    /\ sec_powers twice = sec_powers once ++ dicts_of (powers llm_result)
    /\ sec_penalties twice = sec_penalties once ++ dicts_of (penalties llm_result)
    /\ sec_rights twice = sec_rights once ++ dicts_of (rights llm_result)
    /\ llm_used twice = llm_used once /\ llm_model twice = llm_model once.
Proof.
  unfold merge_semantics, dicts_of. intros H.
  destruct (py_iter (or_list (roles llm_result))) as [new_roles|]; [|discriminate].
  destruct (py_iter (or_list (obligations llm_result))) as [new_ob|]; [|discriminate].
  destruct (py_iter (or_list (powers llm_result))) as [new_po|]; [|discriminate].
  destruct (py_iter (or_list (penalties llm_result))) as [new_pe|]; [|discriminate].
  destruct (py_iter (or_list (rights llm_result))) as [new_ri|]; [|discriminate].
  simpl in H. injection H as <-. simpl.
  eexists. split; [reflexivity|]. simpl.
  split_and!; try reflexivity.
  now rewrite list_to_set_sorted_elements, add_roles_twice.
Qed.

Lemma merge_semantics_raises_witness :
  merge_semantics (Scenarios.magistrate_section) MoreInputs.number_for_roles = None.
Proof. apply merge_semantics_raises. reflexivity. Defined.

Lemma merge_semantics_twice_witness :
  exists once twice,
    merge_semantics Scenarios.magistrate_section MoreInputs.keeper_result = Some once
    /\ merge_semantics once MoreInputs.keeper_result = Some twice
    /\ sec_roles twice = sec_roles once
    /\ length (sec_obligations twice) = S (length (sec_obligations once)).
Proof.
  eexists.
  destruct (merge_semantics_twice Scenarios.magistrate_section _ MoreInputs.keeper_result
              ltac:(vm_compute; reflexivity))
    as (twice & E & Hr & _ & Ho & _).
  exists twice. split_and!; [vm_compute; reflexivity | exact E | exact Hr |].
  rewrite Ho, length_app. simpl. lia.
Defined.

Lemma collect_lookup_from (items : list json) (acc out : gmap key extraction) (k : key) :
  collect items acc = Some out ->
  out !! k = match last (filter (fun kv => fst kv = k) (stored items)) with
             | Some kv => Some (snd kv)
             | None => acc !! k
             end.
Proof.
  revert acc; induction items as [|item rest IH]; intros acc; simpl.
  - now intros [= <-].
  - unfold stored. simpl. fold (stored rest).
    destruct (read_item item) as [| |k' e]; [apply IH | discriminate |].
    intros H. rewrite (IH _ H). rewrite filter_cons. simpl.
    destruct (decide (k' = k)) as [-> | Hne].
    + rewrite last_cons.
      destruct (last (filter (fun kv => fst kv = k) (stored rest))); [reflexivity|].
      simpl. now rewrite lookup_insert_eq.
    + destruct (last (filter (fun kv => fst kv = k) (stored rest))); [reflexivity|].
      now rewrite lookup_insert_ne.
Qed.

(** X18. When the loop over the parsed items ends without an exception,
    the result holds for each index what the last object with that index
    says and nothing of the earlier ones (an index given as [true] or
    [false] counts as 1 or 0); an index that no object carries is not in
    the result. *)
Theorem collect_last_wins (items : list json) (out : gmap key extraction) (k : key) :
  collect items ∅ = Some out ->
  out !! k = snd <$> last (filter (fun kv => fst kv = k) (stored items)).
Proof.
  intros H. rewrite (collect_lookup_from items ∅ out k H), lookup_empty.
  now destruct (last _).
Qed.

Lemma collect_last_wins_witness :
  exists out,
    collect MoreInputs.repeated_index ∅ = Some out
    /\ roles <$> out !! inl 1 = Some (JArr [])
    /\ powers <$> out !! inl 1 = Some (JArr [JStr "may enter"]).
Proof.
  eexists. split; [vm_compute; reflexivity|].
  rewrite (collect_last_wins MoreInputs.repeated_index _ (inl 1))
    by (vm_compute; reflexivity).
  split; reflexivity.
Defined.

End MergeFacts.

(** ** The graph passes: citations, same-term links, severity *)

Module CitationFacts.
Import Enrich Citations.
Local Open Scope list_scope.

Lemma omap_length_le {A B} (f : A -> option B) (l : list A) :
  (length (omap f l) <= length l)%nat.
Proof.
  induction l as [|x l IH]; [simpl; lia|]. change (omap f (x :: l)) with (match f x with Some y => y :: omap f l | None => omap f l end). destruct (f x); simpl length; lia.
Qed.

Section IterFacts.
Variable container_str : json -> string.

Abbreviation citation_of := (citation_of container_str).
Abbreviation iter_citations_from_section := (iter_citations_from_section container_str).

Lemma citation_of_shape (source act_id c : json) (cit : citation) :
  citation_of source act_id c = Some cit ->
  source_of cit = source /\ PyStr.strip (target_of cit) = target_of cit.
Proof.
  unfold Citations.citation_of. destruct c as [| | |s| |fields]; try discriminate.
  - destruct (String.eqb (PyStr.strip s) EmptyString); [discriminate|].
    destruct (split_colon (PyStr.strip s)) as [[t_act t_sec]|]; intros [= <-]; simpl;
      (split; [reflexivity | apply PyStrFacts.strip_idempotent]).
  - repeat match goal with
           | |- context [if ?b then _ else _] =>
               lazymatch b with
               | context [if _ then _ else _] => fail
               | _ => destruct b
               end
           end;
      try discriminate; intros [= <-]; simpl;
      (split; [reflexivity | apply PyStrFacts.strip_idempotent]).
Qed.

(** X20. Every citation that the iterator yields carries the id of the
    section it was found in as its source, that id is not empty, and its
    target section (id or number) has no white space at either end; the
    iterator yields at most one citation per entry of the list, and none
    when the section has no id. *)
Theorem iter_citations_shape (sec : list (string * json)) :
  (forall cit, cit ∈ iter_citations_from_section sec ->
     source_of cit = jget sec "section_id"
     /\ jtruthy (jget sec "section_id") = true
     /\ PyStr.strip (target_of cit) = target_of cit)
  /\ (jtruthy (jget sec "section_id") = false -> iter_citations_from_section sec = [])
  /\ (forall cs, jget sec "citations" = JArr cs -> cs <> [] ->
       (length (iter_citations_from_section sec) <= length cs)%nat).
Proof.
  unfold Citations.iter_citations_from_section. split_and!.
  - intros cit. destruct (jtruthy (jget sec "section_id")); simpl;
      [|intros H; now apply elem_of_nil in H].
    destruct (jor _ _) as [| | | |cs|]; try (intros H; now apply elem_of_nil in H).
    rewrite list_elem_of_omap. intros (c & _ & Hc).
    apply citation_of_shape in Hc as [Hs Ht]. now split_and!.
  - now intros ->.
  - intros cs Hcs Hne. destruct (jtruthy (jget sec "section_id")); simpl; [|lia].
    rewrite Hcs. unfold jor at 4. simpl.
    destruct cs as [|c cs']; [congruence|]. simpl is_empty. simpl negb. cbv iota.
    unfold jor. simpl.
    exact (omap_length_le (citation_of (jget sec "section_id") (jget sec "act_id")) (c :: cs')).
Qed.

Lemma rule_based_omap (source act_id : json) (cs : list json) :
  Forall is_rule_based_citation cs -> omap (citation_of source act_id) cs = [].
Proof.
  induction 1 as [|c rest (kind & raw & normalized & ->) _ IH]; [reflexivity|].
  simpl. exact IH.
Qed.

(** X21. A citation as the rule-based step writes it, a dict with the
    keys kind, raw and normalized, has none of the keys that the iterator
    reads, so a section whose citations all come from that step yields no
    citation and gets no CITES edge. *)
Theorem rule_based_citations_yield_nothing (sec : list (string * json)) (cs : list json) :
  jget sec "citations" = JArr cs -> cs <> [] ->
  Forall is_rule_based_citation cs ->
  iter_citations_from_section sec = [].
Proof.
  intros Hcs Hne Hall. unfold Citations.iter_citations_from_section.
  destruct (jtruthy (jget sec "section_id")); simpl; [|reflexivity].
  rewrite Hcs. unfold jor at 4. simpl.
  destruct cs as [|c cs']; [congruence|]. simpl is_empty. simpl negb. cbv iota.
  unfold jor. simpl.
  exact (rule_based_omap (jget sec "section_id") (jget sec "act_id") (c :: cs') Hall).
Qed.
End IterFacts.

Lemma iter_citations_shape_witness :
  iter_citations_from_section (fun _ => EmptyString) MoreInputs.linked_section
  = [ByActNo (JStr "1851_1-sec-4") (JStr "1860_45") "302";
     ByActNo (JStr "1851_1-sec-4") (JStr "1851_1") "7";
     ById (JStr "1851_1-sec-4") "1851_1-sec-2"]
  /\ (3 <= 4)%nat.
Proof.
  split; [reflexivity|].
  destruct (iter_citations_shape (fun _ => EmptyString) MoreInputs.linked_section)
    as (_ & _ & Hlen).
  apply (Hlen _ eq_refl). discriminate.
Defined.

Lemma rule_based_citations_yield_nothing_witness :
  iter_citations_from_section (fun _ => EmptyString) MoreInputs.cited_section = [].
Proof.
  eapply rule_based_citations_yield_nothing; [reflexivity | discriminate |].
  repeat constructor; unfold is_rule_based_citation; eauto.
Defined.

End CitationFacts.

Module TermLinkFacts.
Import TermLinks.
Local Open Scope list_scope.

Lemma elem_of_group_rows (group : list term) (x : nat * nat) :
  x ∈ group_rows group
  <-> exists t1 t2, t1 ∈ group /\ t2 ∈ group /\ (term_id t1 < term_id t2)%nat
                    /\ x = (term_id t1, term_id t2).
Proof.
  unfold group_rows. split.
  - destruct (1 <? length group)%nat; [|intros H; now apply elem_of_nil in H].
    rewrite list_elem_of_bind. intros (t1 & Hx & H1).
    apply list_elem_of_bind in Hx as (t2 & Hx & H2).
    destruct (Nat.ltb_spec (term_id t1) (term_id t2)); [|now apply elem_of_nil in Hx].
    apply list_elem_of_singleton in Hx. eauto 8.
  - intros (t1 & t2 & H1 & H2 & Hlt & ->).
    assert (Hlen : (1 < length group)%nat).
    { destruct group as [|a [|b rest]]; simpl; try lia.
      - now apply elem_of_nil in H1.
      - apply list_elem_of_singleton in H1. apply list_elem_of_singleton in H2.
        subst. lia. }
    apply Nat.ltb_lt in Hlen. rewrite Hlen.
    apply list_elem_of_bind. exists t1. split; [|exact H1].
    apply list_elem_of_bind. exists t2. split; [|exact H2].
    apply Nat.ltb_lt in Hlt. rewrite Hlt. now apply list_elem_of_singleton.
Qed.

Lemma elem_of_same_term_rows (terms : list term) (x : nat * nat) :
  x ∈ same_term_rows terms
  <-> exists t1 t2, t1 ∈ terms /\ t2 ∈ terms /\ name_key t1 = name_key t2
                    /\ (term_id t1 < term_id t2)%nat
                    /\ x = (term_id t1, term_id t2).
Proof.
  unfold same_term_rows. rewrite list_elem_of_bind. split.
  - intros (key & Hx & _). apply elem_of_group_rows in Hx as (t1 & t2 & H1 & H2 & Hlt & ->).
    apply list_elem_of_filter in H1 as [E1 H1]. apply list_elem_of_filter in H2 as [E2 H2].
    exists t1, t2. split_and!; auto. congruence.
  - intros (t1 & t2 & H1 & H2 & Hk & Hlt & ->). exists (name_key t1). split.
    + apply elem_of_group_rows. exists t1, t2.
      split_and!; auto; apply list_elem_of_filter; auto.
    + apply elem_of_remove_dups, list_elem_of_fmap. eauto.
Qed.

Lemma elem_of_fold_union (rows : list (nat * nat)) (edges : gset (nat * nat))
    (x : nat * nat) :
  x ∈ foldl (fun edges pair => {[ pair ]} ∪ edges) edges rows <-> x ∈ edges \/ x ∈ rows.
Proof.
  revert edges; induction rows as [|r rows IH]; intros edges; simpl.
  - rewrite elem_of_nil. tauto.
  - rewrite IH, elem_of_union, elem_of_singleton, elem_of_cons. tauto.
Qed.

(** X22. After the same-term pass an edge runs from one term to another
    exactly when it was there before or the two terms have the same name
    up to letter case and the first has the smaller id: so no term is
    linked to itself, a pair is linked in one direction only, and a second
    run adds nothing. *)
Theorem add_same_term_as_spec (terms : list term) (edges : gset (nat * nat)) :
  (forall a b, (a, b) ∈ add_same_term_as terms edges
     <-> (a, b) ∈ edges
         \/ exists t1 t2, t1 ∈ terms /\ t2 ∈ terms /\ term_id t1 = a /\ term_id t2 = b
                          /\ name_key t1 = name_key t2 /\ (a < b)%nat)
  /\ add_same_term_as terms (add_same_term_as terms edges) = add_same_term_as terms edges.
Proof.
  assert (H : forall x, x ∈ add_same_term_as terms edges
                        <-> x ∈ edges \/ x ∈ same_term_rows terms).
  { intros x. unfold add_same_term_as. apply elem_of_fold_union. }
  split.
  - intros a b. rewrite H, elem_of_same_term_rows. split.
    + intros [He | (t1 & t2 & H1 & H2 & Hk & Hlt & [= -> ->])]; [now left|].
      right. exists t1, t2. now split_and!.
    + intros [He | (t1 & t2 & H1 & H2 & <- & <- & Hk & Hlt)]; [now left|].
      right. exists t1, t2. now split_and!.
  - apply set_eq. intros x. unfold add_same_term_as at 1.
    rewrite elem_of_fold_union, H. tauto.
Qed.

Lemma add_same_term_as_spec_witness :
  (2, 4)%nat ∈ add_same_term_as MoreInputs.notice_terms ∅
  /\ (4, 2)%nat ∉ add_same_term_as MoreInputs.notice_terms ∅.
Proof.
  destruct (add_same_term_as_spec MoreInputs.notice_terms ∅) as [H _]. split.
  - apply H. right. exists (Term 2 (Some "notice")), (Term 4 (Some "Notice")).
    split_and!; try reflexivity; [| |lia].
    + apply elem_of_cons. right. apply elem_of_cons. now left.
    + apply elem_of_cons. now left.
  - intros Hin. apply H in Hin as [He | (t1 & t2 & _ & _ & _ & _ & _ & Hlt)];
      [now apply elem_of_empty in He | lia].
Defined.

End TermLinkFacts.

Module SeverityMore.
Import GraphEnrich.
Local Open Scope list_scope.

(** X19. The severity pass writes nothing but the score of the sections
    that have a penalty: every other property of every node reads as
    before, so a section that has no penalty keeps whatever score it had;
    and a second run changes no reading of the first. *)
Theorem add_severity_scores_frame (g : graph) (m : nat) (key : string) :
  (m ∉ map fst (prescribes_penalty g) \/ key <> "severity_score" ->
   read (add_severity_scores g) m key = read g m key)
  /\ read (add_severity_scores (add_severity_scores g)) m key
     = read (add_severity_scores g) m key
  /\ prescribes_penalty (add_severity_scores g) = prescribes_penalty g
  /\ mentions_role (add_severity_scores g) = mentions_role g
  /\ co_occurs_with (add_severity_scores g) = co_occurs_with g.
Proof.
  split_and!; try reflexivity.
  - intros H. rewrite GraphEnrichFacts.read_add_severity_scores.
    rewrite decide_False; [reflexivity|]. unfold sources.
    rewrite elem_of_remove_dups. tauto.
  - rewrite !GraphEnrichFacts.read_add_severity_scores.
    rewrite GraphEnrichFacts.severity_add_severity_scores. simpl.
    now destruct (decide _).
Qed.

Lemma add_severity_scores_frame_witness :
  read (add_severity_scores MoreInputs.stale_graph) 7 "severity_score" = Some (PInt 9).
Proof.
  destruct (add_severity_scores_frame MoreInputs.stale_graph 7 "severity_score")
    as [H _].
  rewrite H; [reflexivity|]. left. vm_compute.
  intros Hin. repeat (apply elem_of_cons in Hin as [Hin | Hin]; [discriminate|]).
  now apply elem_of_nil in Hin.
Defined.

End SeverityMore.

(** ** Normalised lines *)

Module LinesFacts.
Import PyStr Lines.
Local Open Scope list_scope.

Abbreviation solid := (Locator.str_forall (fun c => negb (is_space c))).
Abbreviation tab := (ascii_of_nat 9).

Lemma append_nil_r (s : string) : (s ++ EmptyString)%string = s.
Proof.
  induction s as [|c s IH]; [reflexivity|].
  change (String c (s ++ EmptyString)%string = String c s). now rewrite IH.
Qed.

Lemma append_assoc (a b c : string) : ((a ++ b) ++ c)%string = (a ++ (b ++ c))%string.
Proof.
  induction a as [|x a IH]; [reflexivity|].
  change (String x ((a ++ b) ++ c)%string = String x (a ++ (b ++ c))%string).
  now rewrite IH.
Qed.

Lemma split_ws_tokens (s : string) :
  solid (fst (split_ws s)) = true /\ Forall is_token (snd (split_ws s)).
Proof.
  induction s as [|c s [IHw IHws]]; simpl; [split; [reflexivity | constructor]|].
  destruct (split_ws s) as [w ws]. simpl in *.
  destruct (is_space c) eqn:Ec; simpl.
  - split; [reflexivity|].
    destruct (String.eqb w EmptyString) eqn:Ew; [exact IHws|].
    apply String.eqb_neq in Ew. constructor; [now split | exact IHws].
  - now rewrite Ec, IHw.
Qed.

Lemma words_tokens (s : string) : Forall is_token (words s).
Proof.
  unfold words. pose proof (split_ws_tokens s) as [Hw Hws].
  destruct (split_ws s) as [w ws]. simpl in *.
  destruct (String.eqb w EmptyString) eqn:Ew; [exact Hws|].
  apply String.eqb_neq in Ew. constructor; [now split | exact Hws].
Qed.

Lemma rstrip_solid (w : string) : solid w = true -> rstrip w = w.
Proof.
  induction w as [|c w IH]; simpl; [reflexivity|].
  intros H. apply andb_true_iff in H as [Hc Hw]. rewrite (IH Hw).
  apply negb_true_iff in Hc. rewrite Hc. now destruct w.
Qed.

Lemma rstrip_app (a b : string) :
  rstrip b = b -> b <> EmptyString -> rstrip (a ++ b) = (a ++ b)%string.
Proof.
  intros Hb Hne. induction a as [|c a IH]; [exact Hb|].
  change (rstrip (String c (a ++ b)) = String c (a ++ b)).
  simpl. rewrite IH. destruct (a ++ b)%string eqn:E; [exfalso|reflexivity].
  destruct a as [|x a']; [exact (Hne E)|].
  change (String x (a' ++ b)%string = EmptyString) in E. discriminate.
Qed.

Lemma join_tokens_head (w : string) (ws : list string) :
  is_token w ->
  exists c r, join " " (w :: ws) = String c r /\ is_space c = false.
Proof.
  intros [Hne Hw]. destruct w as [|c w']; [congruence|].
  simpl in Hw. apply andb_true_iff in Hw as [Hc _]. apply negb_true_iff in Hc.
  destruct ws; simpl; eauto.
Qed.

Lemma rstrip_join (ws : list string) :
  Forall is_token ws -> rstrip (join " " ws) = join " " ws.
Proof.
  induction 1 as [|w ws Hw Hws IH]; [reflexivity|].
  destruct ws as [|w2 ws'].
  - simpl. apply rstrip_solid, Hw.
  - change (join " " (w :: w2 :: ws')) with (w ++ " " ++ join " " (w2 :: ws'))%string.
    rewrite <- append_assoc. apply rstrip_app; [exact IH|].
    destruct (join_tokens_head w2 ws') as (c & r & -> & _); [|discriminate].
    now apply Forall_cons in Hws as [H2 _].
Qed.

Lemma strip_join (ws : list string) :
  Forall is_token ws -> strip (join " " ws) = join " " ws.
Proof.
  intros H. unfold strip. destruct ws as [|w ws']; [reflexivity|].
  pose proof (rstrip_join _ H) as Hr.
  destruct (join_tokens_head w ws') as (c & r & E & Hc);
    [now apply Forall_cons in H as [Hw _]|].
  rewrite E in *. simpl lstrip. rewrite Hc. exact Hr.
Qed.

Lemma split_ws_app_solid (w rest : string) :
  solid w = true ->
  split_ws (w ++ rest) = ((w ++ fst (split_ws rest))%string, snd (split_ws rest)).
Proof.
  induction w as [|c w IH]; simpl.
  { intros _. change (split_ws rest = (fst (split_ws rest), snd (split_ws rest))).
    now destruct (split_ws rest). }
  intros H. apply andb_true_iff in H as [Hc Hw]. apply negb_true_iff in Hc.
  change (split_ws (String c (w ++ rest)))
    with (let (w0, ws) := split_ws (w ++ rest) in
          if is_space c
          then (EmptyString, if String.eqb w0 EmptyString then ws else w0 :: ws)
          else (String c w0, ws)).
  rewrite (IH Hw), Hc. reflexivity.
Qed.

Lemma split_ws_join (w : string) (ws : list string) :
  Forall is_token (w :: ws) -> split_ws (join " " (w :: ws)) = (w, ws).
Proof.
  revert w; induction ws as [|w2 ws' IH]; intros w H;
    apply Forall_cons in H as [[Hne Hw] Hws].
  - simpl join. rewrite <- (append_nil_r w) at 1.
    rewrite (split_ws_app_solid w EmptyString Hw). simpl. now rewrite append_nil_r.
  - change (join " " (w :: w2 :: ws')) with (w ++ String " " (join " " (w2 :: ws')))%string.
    rewrite (split_ws_app_solid _ _ Hw).
    change (split_ws (String " " (join " " (w2 :: ws'))))
      with (let (w0, ws) := split_ws (join " " (w2 :: ws')) in
            (EmptyString, if String.eqb w0 EmptyString then ws else w0 :: ws)).
    rewrite (IH w2 Hws). simpl.
    apply Forall_cons in Hws as [[Hne2 _] _]. apply String.eqb_neq in Hne2.
    now rewrite Hne2, append_nil_r.
Qed.

Lemma words_join (ws : list string) : Forall is_token ws -> words (join " " ws) = ws.
Proof.
  intros H. destruct ws as [|w ws']; [reflexivity|].
  unfold words. rewrite (split_ws_join w ws' H).
  apply Forall_cons in H as [[Hne _] _]. apply String.eqb_neq in Hne. now rewrite Hne.
Qed.

Lemma replace_char_id (old new : ascii) (s : string) :
  Locator.str_forall (fun c => negb (Ascii.eqb c old)) s = true ->
  replace_char old new s = s.
Proof.
  induction s as [|c s IH]; simpl; [reflexivity|].
  intros H. apply andb_true_iff in H as [Hc Hs]. apply negb_true_iff in Hc.
  now rewrite Hc, (IH Hs).
Qed.

Lemma solid_no_tab (w : string) :
  solid w = true -> Locator.str_forall (fun c => negb (Ascii.eqb c tab)) w = true.
Proof.
  induction w as [|c w IH]; simpl; [reflexivity|].
  intros H. apply andb_true_iff in H as [Hc Hw]. rewrite (IH Hw), andb_true_r.
  destruct (Ascii.eqb_spec c tab) as [-> | _]; [discriminate Hc | reflexivity].
Qed.

Lemma replace_join (ws : list string) :
  Forall is_token ws -> replace_char tab " " (join " " ws) = join " " ws.
Proof.
  intros H. apply replace_char_id.
  apply SegmenterMore.str_forall_join; [reflexivity|].
  eapply Forall_impl; [exact H|]. simpl. intros w [_ Hw]. now apply solid_no_tab.
Qed.

Lemma normalize_line_words (s : string) :
  normalize_line s = join " " (words (replace_char tab " " s)).
Proof. unfold normalize_line. apply strip_join, words_tokens. Qed.

(** X23. A normalised line is the words of the raw line with one space
    between them: none of its words is empty or holds a white space
    character, the strip at the end changes nothing, and normalising an
    already normalised line gives the same line. *)
Theorem normalize_line_spec (s : string) :
  normalize_line s = join " " (words (replace_char tab " " s))
  /\ Forall is_token (words (replace_char tab " " s))
  /\ normalize_line (normalize_line s) = normalize_line s.
Proof.
  pose proof (words_tokens (replace_char tab " " s)) as Hws.
  pose proof (normalize_line_words s) as E.
  split_and!; [exact E | exact Hws |].
  rewrite E at 1. unfold normalize_line at 1.
  rewrite (replace_join _ Hws), (words_join _ Hws), (strip_join _ Hws). now rewrite E.
Qed.

(** X24. Every line written for a page carries that page, the index of
    its raw line among the lines of the page, and the normal form of that
    raw line, which is never empty or blank: a blank raw line leaves a
    gap in the indices, not an empty line. *)
Theorem page_lines_spec (page li : Z) (raw : list string) (l : Segmenter.line) :
  l ∈ page_lines page li raw ->
  Segmenter.page l = page
  /\ li <= Segmenter.line_index l
  /\ (exists r, raw !! Z.to_nat (Segmenter.line_index l - li) = Some r
                /\ Segmenter.text l = normalize_line r)
  /\ strip (Segmenter.text l) <> EmptyString.
Proof.
  revert li; induction raw as [|r rest IH]; intros li; simpl.
  - intros H. now apply elem_of_nil in H.
  - assert (Hrest : l ∈ page_lines page (li + 1) rest ->
              Segmenter.page l = page /\ li <= Segmenter.line_index l
              /\ (exists r0, (r :: rest) !! Z.to_nat (Segmenter.line_index l - li) = Some r0
                             /\ Segmenter.text l = normalize_line r0)
              /\ strip (Segmenter.text l) <> EmptyString).
    { intros H. destruct (IH _ H) as (Hp & Hi & (r0 & Hr0 & Ht) & Hne).
      split_and!; [exact Hp | lia | | exact Hne].
      exists r0. split; [|exact Ht].
      replace (Z.to_nat (Segmenter.line_index l - li))
        with (S (Z.to_nat (Segmenter.line_index l - (li + 1)))) by lia.
      exact Hr0. }
    destruct (String.eqb (normalize_line r) EmptyString) eqn:E; [exact Hrest|].
    intros H. apply elem_of_cons in H as [-> | H]; [|now apply Hrest].
    simpl. split_and!; [reflexivity | lia | |].
    + exists r. split; [|reflexivity]. now rewrite Z.sub_diag.
    + apply String.eqb_neq in E.
      rewrite (normalize_line_words r), (strip_join _ (words_tokens _)),
        <- (normalize_line_words r). exact E.
Qed.

Lemma page_lines_spec_witness :
  page_lines 3 0 ["  1.  Short   title "; "   "; "This Act"]
  = [Segmenter.Line 3 0 "1. Short title"; Segmenter.Line 3 2 "This Act"]
  /\ strip "This Act" <> EmptyString.
Proof.
  split; [reflexivity|].
  refine (proj2 (proj2 (proj2
    (page_lines_spec 3 0 ["  1.  Short   title "; "   "; "This Act"]
       (Segmenter.Line 3 2 "This Act") _)))).
  vm_compute. right. left.
Defined.

End LinesFacts.
